(** * cloudscan-runner: the scan execution pipeline

    A shallow embedding of the runner's Go code: the severity mappings of the
    scanner adapters, the streaming parser of the secrets adapter, the zip
    extraction of the downloader with its path check, the orchestrator
    client, the parallel fan-out over the scanners and [runScan].

    Go strings are byte strings and are modelled by [string]; an [error] is
    modelled by the text of its [Error()] method, [nil] by [None]. *)

From Stdlib Require Import String Ascii List Bool Arith ZArith Lia.
Import ListNotations.
Open Scope string_scope.

(** ** Generated protobuf types (package pb), as the runner uses them *)

Module pb.

Inductive ScanType := ScanType_SAST | ScanType_SCA | ScanType_SECRETS | ScanType_LICENSE.

Inductive Severity := Severity_LOW | Severity_MEDIUM | Severity_HIGH | Severity_CRITICAL.

Inductive ScanStatus := ScanStatus_RUNNING | ScanStatus_COMPLETED | ScanStatus_FAILED.

Record Finding := {
    ScanType_ : ScanType;
    Severity_ : Severity;
    Title : string;
    Description : string;
    FilePath : string;
    LineNumber : Z;
    CodeSnippet : string;
    CweId : string;
    CveId : string
  }.

Record UpdateScanRequest := {
    Id : string;
    Status : option ScanStatus;       (* [None]: the field is left at its zero value *)
    ErrorMessage : string;
    TotalFindings : Z
  }.

Record CreateFindingsRequest := {
    ScanId : string;
    Findings : list Finding
  }.

(* A call on the ScanServiceClient stub, with its request. *)
Inductive Rpc :=
  | UpdateScan (req : UpdateScanRequest)
  | CreateFindings (req : CreateFindingsRequest).

End pb.

Definition error := string.

(** ** Path manipulation (package path/filepath, Unix)

    The standard library's lexical path functions, which the downloader and
    the adapters call.  A path is processed element by element, the elements
    being what lies between separators. *)

Module filepath.

Definition Separator : string := "/".

(* strings.Split(path, "/") *)
Fixpoint split (path : string) : list string :=
  match path with
  | EmptyString => [""]
  | String c rest =>
      if Ascii.eqb c "/" then "" :: split rest
      else match split rest with
           | [] => [String c ""]
           | e :: es => String c e :: es
           end
  end.

(* strings.Join(elems, "/") *)
Fixpoint join (elems : list string) : string :=
  match elems with
  | [] => ""
  | [e] => e
  | e :: es => e ++ "/" ++ join es
  end.

Definition rooted (path : string) : bool := prefix "/" path.

(* One step of Clean's loop: the elements kept so far are held last first.
   Empty and "." elements are dropped; ".." removes the element before it
   when there is one that is not itself "..", is dropped at the root, and
   is kept otherwise. *)
Definition cleanStep (isRooted : bool) (kept : list string) (e : string) : list string :=
  if (e =? "") || (e =? ".") then kept
  else if e =? ".." then
    match kept with
    | [] => if isRooted then [] else [".."]
    | top :: below => if top =? ".." then ".." :: kept else below
    end
  else e :: kept.

Definition cleanElems (path : string) : list string :=
  rev (fold_left (cleanStep (rooted path)) (split path) []).

Definition Clean (path : string) : string :=
  if path =? "" then "."
  else if rooted path then "/" ++ join (cleanElems path)
  else match cleanElems path with
       | [] => "."
       | es => join es
       end.

(* Join ignores leading empty elements and cleans the result. *)
Fixpoint Join (elem : list string) : string :=
  match elem with
  | [] => ""
  | e :: es => if e =? "" then Join es else Clean (join elem)
  end.

(* Everything up to and including the last separator. *)
Fixpoint dirPart (path : string) : string :=
  match path with
  | EmptyString => ""
  | String c rest =>
      if Ascii.eqb c "/" then String c (dirPart rest)
      else match dirPart rest with
           | EmptyString => ""
           | d => String c d
           end
  end.

Definition Dir (path : string) : string := Clean (dirPart path).

(* filepath.HasPrefix is strings.HasPrefix on Unix. *)
Definition HasPrefix (p pre : string) : bool := prefix pre p.

(** Lexical containment of one cleaned path in another, element-wise:
    [p] names [root] itself or something reached from it by going down
    only.  This is the property the extraction has to keep; it is not what
    the code tests. *)
Definition names (path : string) : list string :=
  filter (fun e => negb ((e =? "") || (e =? "."))) (split path).

Fixpoint descends (root p : list string) : bool :=
  match root, p with
  | [], rest => forallb (fun e => negb (e =? "..")) rest
  | r :: root', e :: p' => (r =? e) && descends root' p'
  | _ :: _, [] => false
  end.

Definition within (root p : string) : bool :=
  Bool.eqb (rooted root) (rooted p) && descends (names root) (names p).

End filepath.

(** ** Effects

    What the runner does to the outside is recorded in a [State]: the log
    lines (logrus; level, message and the error attached with [WithError],
    the structured fields are left out), the gRPC requests sent to the
    orchestrator, and the file-system operations, each in the order issued.
    How the outside answers is given by a [World]. *)

Inductive result (A : Type) :=
| Ok (a : A)
| Err (e : error).
Arguments Ok {A} a.
Arguments Err {A} e.

Inductive Level := DebugLevel | InfoLevel | WarnLevel | ErrorLevel.

Record LogEntry := { level : Level; message : string; withError : option error }.

Inductive FsOp :=
| MkdirAll (path : string) (perm : N)
| Create (path : string)
| OpenFile (path : string) (perm : N)     (* O_WRONLY|O_CREATE|O_TRUNC *)
| Copy (dst : string) (data : string)     (* io.Copy into the file opened at [dst] *)
| Remove (path : string).

Record State := {
  logs : list LogEntry;
  rpcs : list pb.Rpc;
  fsops : list FsOp
}.

Definition initial : State := {| logs := []; rpcs := []; fsops := [] |}.

Definition M (A : Type) : Type := State -> A * State.

Definition ret {A} (a : A) : M A := fun st => (a, st).

Definition bind {A B} (m : M A) (k : A -> M B) : M B :=
  fun st => let (a, st') := m st in k a st'.

Declare Scope go_scope.
Delimit Scope go_scope with go.
Notation "x <- m ;; k" := (bind m (fun x => k))
  (at level 61, m at next level, right associativity) : go_scope.
Notation "m ;; k" := (bind m (fun _ => k))
  (at level 61, right associativity) : go_scope.
Open Scope go_scope.

Definition logf (l : Level) (msg : string) (e : option error) : M unit :=
  fun st => (tt, {| logs := logs st ++ [{| level := l; message := msg; withError := e |}];
                    rpcs := rpcs st; fsops := fsops st |}).

Definition debug (msg : string) : M unit := logf DebugLevel msg None.
Definition info (msg : string) : M unit := logf InfoLevel msg None.
Definition warn (msg : string) (e : option error) : M unit := logf WarnLevel msg e.
Definition logError (msg : string) (e : option error) : M unit := logf ErrorLevel msg e.

(* int32(x) of a Go int *)
Definition int32 (x : Z) : Z := ((x + 2 ^ 31) mod 2 ^ 32 - 2 ^ 31)%Z.

(* fmt's %v of a []string *)
Definition sprintStrings (l : list string) : string := "[" ++ String.concat " " l ++ "]".

(** One line of trufflehog's output, and the result documents of the other
    tools, as the anonymous structs the adapters decode into. *)

Record TruffleHogResult := {
  th_File : string;            (* SourceMetadata.Data.Filesystem.file *)
  th_Line : Z;                 (* SourceMetadata.Data.Filesystem.line *)
  th_SourceName : string;
  th_DetectorName : string;
  th_Raw : string;
  th_Verified : bool
}.

Record TrivyVulnerability := {
  tv_VulnerabilityID : string;
  tv_PkgName : string;
  tv_InstalledVersion : string;
  tv_FixedVersion : string;
  tv_Severity : string;
  tv_Title : string;
  tv_Description : string;
  tv_References : list string
}.

Record TrivyTarget := { tt_Target : string; tt_Vulnerabilities : list TrivyVulnerability }.

Record SemgrepMatch := {
  sg_CheckID : string;
  sg_Path : string;
  sg_StartLine : Z;
  sg_Message : string;
  sg_Severity : string;        (* extra.metadata.severity *)
  sg_CWE : list string;
  sg_Lines : string
}.

Record ScanCodeLicense := {
  sl_Key : string;
  sl_ShortName : string;
  sl_Name : string;
  sl_Category : string
}.

Record ScanCodeFile := { sf_Path : string; sf_Licenses : list ScanCodeLicense }.

(* archive/zip: an entry of an opened archive *)
Record ZipFile := {
  zf_Name : string;
  zf_IsDir : bool;             (* f.FileInfo().IsDir() *)
  zf_Mode : N;                 (* f.Mode() *)
  zf_Open : result string      (* f.Open(): the entry's bytes, or an error *)
}.

(* net/http: what the downloader reads of a response *)
Record Response := { StatusCode : Z; StatusText : string; Body : string }.

Record World := {
  (* os, os/exec *)
  TempDir : string;
  LookPath : string -> bool;                            (* the binary is found on PATH *)
  CombinedOutput : string -> list string -> string * option error;
  ReadFile : string -> result string;                   (* the file as its tool left it *)
  fsAnswer : list FsOp -> FsOp -> option error;         (* earlier operations, this one *)
  (* the trufflehog subprocess *)
  StdoutPipe : option error;
  Start : option error;
  stdout : string;                                      (* the bytes read from the pipe *)
  readErr : option error;                               (* what ended the reading, nil at EOF *)
  Wait : option error;
  (* encoding/json into the adapters' structs *)
  unmarshalTruffleHog : string -> result TruffleHogResult;
  unmarshalTrivy : string -> result (list TrivyTarget);
  unmarshalSemgrep : string -> result (list SemgrepMatch);
  unmarshalScanCode : string -> result (list ScanCodeFile);
  (* net/http, archive/zip, git *)
  NewRequest : string -> option error;
  Do : string -> result Response;
  OpenReader : string -> result (list ZipFile);
  cloneGit : option error;
  (* grpc *)
  Dial : string -> option error;
  rpcAnswer : list pb.Rpc -> pb.Rpc -> option error;          (* earlier requests, this one *)
  (* the Go scheduler: which of the unfinished goroutines completes next *)
  pick : list nat -> nat
}.

Definition fsop (W : World) (op : FsOp) : M (option error) :=
  fun st => (fsAnswer W (fsops st) op,
             {| logs := logs st; rpcs := rpcs st; fsops := fsops st ++ [op] |}).

(* a [for _, x := range xs] loop that updates the variables in [acc] *)
Fixpoint forRange {A B} (xs : list A) (acc : B) (body : B -> A -> M B) : M B :=
  match xs with
  | [] => ret acc
  | x :: rest => acc' <- body acc x ;; forRange rest acc' body
  end.

Definition whenErr (e : option error) (k : error -> M unit) : M unit :=
  match e with
  | Some err => k err
  | None => ret tt
  end.

Definition newline : string := String (ascii_of_nat 10) "".

(** ** Reading lines (package bufio) *)

Module bufio.

(* MaxScanTokenSize: the size to which the buffer of a Scanner made by
   NewScanner grows *)
Definition MaxScanTokenSize : N := 65536.

Definition ErrTooLong : error := "bufio.Scanner: token too long".

Fixpoint len (acc : N) (data : string) : N :=
  match data with
  | EmptyString => acc
  | String _ rest => len (N.succ acc) rest
  end.

(* Scan asks for more input while the buffer holds no end of line, and gives
   up with ErrTooLong once the buffer is full: a line is found when it is in
   the buffer together with the byte that ends it, and at the end of the
   input when it has left the buffer one byte free. *)
Definition fits (line : string) : bool := (len 0 line <? MaxScanTokenSize)%N.

(* dropCR drops a terminal \r from the data *)
Fixpoint dropCR (data : string) : string :=
  match data with
  | EmptyString => EmptyString
  | String c rest =>
      match rest with
      | EmptyString => if Ascii.eqb c (ascii_of_nat 13) then EmptyString else data
      | String _ _ => String c (dropCR rest)
      end
  end.

(* The input cut at every newline: what stands before the first newline, and
   what follows each newline up to the next. *)
Fixpoint cut (input : string) : string * list string :=
  match input with
  | EmptyString => (EmptyString, [])
  | String c rest =>
      let (line, more) := cut rest in
      if Ascii.eqb c (ascii_of_nat 10) then (EmptyString, line :: more)
      else (String c line, more)
  end.

(* Scanner.Scan with the split function ScanLines, called until it returns
   false: the tokens Text() gives, and the error Scan stopped with.  [line]
   is the line at the front of the input; [more] are the lines after it, the
   last of them being what follows the last newline. *)
Fixpoint tokens (line : string) (more : list string) : list string * option error :=
  match more with
  | [] =>
      if line =? "" then ([], None)
      else if fits line then ([dropCR line], None)
      else ([], Some ErrTooLong)
  | next :: more' =>
      if fits line
      then let (rest, err) := tokens next more' in (dropCR line :: rest, err)
      else ([], Some ErrTooLong)
  end.

Definition Scanner (input : string) : list string * option error :=
  let (line, more) := cut input in tokens line more.

End bufio.

(* [for scanner.Scan() { line := scanner.Text() ... }] over the pipe: the
   lines the loop of the secrets adapter sees *)
Definition stdoutLines (W : World) : list string := fst (bufio.Scanner (stdout W)).

(* scanner.Err(): the first error that was not the end of the input *)
Definition scannerErr (W : World) : option error :=
  match snd (bufio.Scanner (stdout W)) with
  | Some e => Some e
  | None => readErr W
  end.

(** ** The scanner adapters (package scanners) *)

Module scanners.

(* scanner.go *)
Record Scanner := {
    Name : string;
    ScanType : pb.ScanType;
    Scan : string -> M (list pb.Finding * option error);
    IsAvailable : bool
  }.

Record Result := {
    Findings : list pb.Finding;
    ScanType_ : pb.ScanType;
    ScannerName : string;
    Error : option error
  }.

End scanners.

Module TrivyScanner.

Definition Name : string := "trivy".
Definition ScanType : pb.ScanType := pb.ScanType_SCA.

(* trivy.go, TrivyScanner.mapSeverity *)
Definition mapSeverity (severity : string) : pb.Severity :=
  if severity =? "CRITICAL" then pb.Severity_CRITICAL
  else if severity =? "HIGH" then pb.Severity_HIGH
  else if severity =? "MEDIUM" then pb.Severity_MEDIUM
  else if severity =? "LOW" then pb.Severity_LOW
  else pb.Severity_MEDIUM.

Definition toFinding (r : TrivyTarget) (v : TrivyVulnerability) : pb.Finding :=
  let severity := mapSeverity (tv_Severity v) in
  let title := tv_VulnerabilityID v ++ " in " ++ tv_PkgName v ++ "@" ++ tv_InstalledVersion v in
  let description := tv_Description v in
  let description :=
    if negb (tv_FixedVersion v =? "")
    then description ++ newline ++ newline ++ "Fixed in version: " ++ tv_FixedVersion v
    else description in
  {| pb.ScanType_ := pb.ScanType_SCA; pb.Severity_ := severity; pb.Title := title;
     pb.Description := description; pb.FilePath := tt_Target r; pb.LineNumber := 0;
     pb.CodeSnippet := ""; pb.CweId := ""; pb.CveId := tv_VulnerabilityID v |}.

Section InWorld.
Variable W : World.

Definition IsAvailable : bool := LookPath W "trivy".

Definition parseResults (resultsFile : string) : result (list pb.Finding) :=
  match ReadFile W resultsFile with
  | Err e => Err ("failed to read results: " ++ e)
  | Ok data =>
      match unmarshalTrivy W data with
      | Err e => Err ("failed to unmarshal JSON: " ++ e)
      | Ok results =>
          Ok (flat_map (fun r => map (toFinding r) (tt_Vulnerabilities r)) results)
      end
  end.

Definition Scan (sourceDir : string) : M (list pb.Finding * option error) :=
  info "Starting Trivy scan" ;;
  if negb IsAvailable then ret ([], Some "trivy is not installed")
  else
    let resultsFile := filepath.Join [TempDir W; "trivy-results.json"] in
    r <- (let (output, err) :=
            CombinedOutput W "trivy"
              ["fs"; "--format=json"; "--output=" ++ resultsFile; "--scanners=vuln";
               "--severity=CRITICAL,HIGH,MEDIUM,LOW"; sourceDir] in
          whenErr err (fun e => warn "Trivy exited with error (may have findings)" (Some e)) ;;
          debug "Trivy scan complete" ;;
          match parseResults resultsFile with
          | Err e => ret ([], Some ("failed to parse trivy results: " ++ e))
          | Ok findings => info "Trivy scan complete" ;; ret (findings, None)
          end) ;;
    fsop W (Remove resultsFile) ;;                 (* defer os.Remove(resultsFile) *)
    ret r.

Definition New : scanners.Scanner :=
  {| scanners.Name := Name; scanners.ScanType := ScanType;
     scanners.Scan := Scan; scanners.IsAvailable := IsAvailable |}.

End InWorld.

End TrivyScanner.

Module SemgrepScanner.

Definition Name : string := "semgrep".
Definition ScanType : pb.ScanType := pb.ScanType_SAST.

(* SemgrepScanner.mapSeverity *)
Definition mapSeverity (severity : string) : pb.Severity :=
  if severity =? "ERROR" then pb.Severity_HIGH
  else if severity =? "WARNING" then pb.Severity_MEDIUM
  else if severity =? "INFO" then pb.Severity_LOW
  else pb.Severity_MEDIUM.

Definition toFinding (r : SemgrepMatch) : pb.Finding :=
  let severity := mapSeverity (sg_Severity r) in
  {| pb.ScanType_ := pb.ScanType_SAST; pb.Severity_ := severity; pb.Title := sg_CheckID r;
     pb.Description := sg_Message r; pb.FilePath := sg_Path r;
     pb.LineNumber := int32 (sg_StartLine r); pb.CodeSnippet := sg_Lines r;
     pb.CweId := match sg_CWE r with
                 | cwe :: _ => cwe
                 | [] => ""
                 end;
     pb.CveId := "" |}.

Section InWorld.
Variable W : World.

Definition IsAvailable : bool := LookPath W "semgrep".

Definition parseResults (resultsFile : string) : result (list pb.Finding) :=
  match ReadFile W resultsFile with
  | Err e => Err ("failed to read results: " ++ e)
  | Ok data =>
      match unmarshalSemgrep W data with
      | Err e => Err ("failed to unmarshal JSON: " ++ e)
      | Ok results => Ok (map toFinding results)
      end
  end.

Definition Scan (sourceDir : string) : M (list pb.Finding * option error) :=
  info "Starting Semgrep scan" ;;
  if negb IsAvailable then ret ([], Some "semgrep is not installed")
  else
    let resultsFile := filepath.Join [TempDir W; "semgrep-results.json"] in
    r <- (let (output, err) :=
            CombinedOutput W "semgrep"
              ["--config=auto"; "--json"; "--output=" ++ resultsFile; "--timeout=0";
               "--max-memory=0"; sourceDir] in
          whenErr err (fun e => warn "Semgrep exited with error (may have findings)" (Some e)) ;;
          debug "Semgrep scan complete" ;;
          match parseResults resultsFile with
          | Err e => ret ([], Some ("failed to parse semgrep results: " ++ e))
          | Ok findings => info "Semgrep scan complete" ;; ret (findings, None)
          end) ;;
    fsop W (Remove resultsFile) ;;
    ret r.

Definition New : scanners.Scanner :=
  {| scanners.Name := Name; scanners.ScanType := ScanType;
     scanners.Scan := Scan; scanners.IsAvailable := IsAvailable |}.

End InWorld.

End SemgrepScanner.

Module ScanCodeScanner.

Definition Name : string := "scancode".
Definition ScanType : pb.ScanType := pb.ScanType_LICENSE.

(* scancode.go, ScanCodeScanner.getLicenseSeverity *)
Definition getLicenseSeverity (category : string) : pb.Severity :=
  if (category =? "Copyleft") || (category =? "Strong Copyleft") then pb.Severity_HIGH
  else if category =? "Copyleft Limited" then pb.Severity_MEDIUM
  else if category =? "Permissive" then pb.Severity_LOW
  else if category =? "Proprietary Free" then pb.Severity_LOW
  else pb.Severity_MEDIUM.

Definition toFinding (file : ScanCodeFile) (license : ScanCodeLicense) : pb.Finding :=
  let severity := getLicenseSeverity (sl_Category license) in
  let title := "License: " ++ sl_ShortName license in
  let description := "License '" ++ sl_Name license ++ "' detected in file" in
  let description :=
    if negb (sl_Category license =? "")
    then description ++ " (Category: " ++ sl_Category license ++ ")"
    else description in
  {| pb.ScanType_ := pb.ScanType_LICENSE; pb.Severity_ := severity; pb.Title := title;
     pb.Description := description; pb.FilePath := sf_Path file; pb.LineNumber := 0;
     pb.CodeSnippet := ""; pb.CweId := ""; pb.CveId := "" |}.

Section InWorld.
Variable W : World.

Definition IsAvailable : bool := LookPath W "scancode".

Definition parseResults (resultsFile : string) : result (list pb.Finding) :=
  match ReadFile W resultsFile with
  | Err e => Err ("failed to read results: " ++ e)
  | Ok data =>
      match unmarshalScanCode W data with
      | Err e => Err ("failed to unmarshal JSON: " ++ e)
      | Ok files =>
          Ok (flat_map (fun file => map (toFinding file) (sf_Licenses file)) files)
      end
  end.

Definition Scan (sourceDir : string) : M (list pb.Finding * option error) :=
  info "Starting ScanCode scan" ;;
  if negb IsAvailable then ret ([], Some "scancode is not installed")
  else
    let resultsFile := filepath.Join [TempDir W; "scancode-results.json"] in
    r <- (let (output, err) :=
            CombinedOutput W "scancode"
              ["--license"; "--copyright"; "--json-pp"; resultsFile; "--processes"; "4";
               sourceDir] in
          whenErr err (fun e => warn "ScanCode exited with error (may have findings)" (Some e)) ;;
          debug "ScanCode scan complete" ;;
          match parseResults resultsFile with
          | Err e => ret ([], Some ("failed to parse scancode results: " ++ e))
          | Ok findings => info "ScanCode scan complete" ;; ret (findings, None)
          end) ;;
    fsop W (Remove resultsFile) ;;
    ret r.

Definition New : scanners.Scanner :=
  {| scanners.Name := Name; scanners.ScanType := ScanType;
     scanners.Scan := Scan; scanners.IsAvailable := IsAvailable |}.

End InWorld.

End ScanCodeScanner.

Module TruffleHogScanner.

Definition Name : string := "trufflehog".
Definition ScanType : pb.ScanType := pb.ScanType_SECRETS.

Definition toFinding (result : TruffleHogResult) : pb.Finding :=
  let title := "Secret detected: " ++ th_DetectorName result in
  let description := "Potential secret found in source code" in
  let description :=
    if th_Verified result
    then description ++ " (VERIFIED - this secret is active!)"
    else description in
  {| pb.ScanType_ := pb.ScanType_SECRETS; pb.Severity_ := pb.Severity_HIGH;
     pb.Title := title; pb.Description := description; pb.FilePath := th_File result;
     pb.LineNumber := int32 (th_Line result);
     pb.CodeSnippet := ""; pb.CweId := ""; pb.CveId := "" |}.

Section InWorld.
Variable W : World.

Definition IsAvailable : bool := LookPath W "trufflehog".

(* the body of [for scanner.Scan() { ... }] for one line *)
Definition scanLine (findings : list pb.Finding) (line : string) : M (list pb.Finding) :=
  if line =? "" then ret findings
  else match unmarshalTruffleHog W line with
       | Err e => warn "Failed to parse trufflehog output line" (Some e) ;; ret findings
       | Ok result => ret (findings ++ [toFinding result])%list
       end.

Definition Scan (sourceDir : string) : M (list pb.Finding * option error) :=
  info "Starting TruffleHog scan" ;;
  if negb IsAvailable then ret ([], Some "trufflehog is not installed")
  else
    let resultsFile := filepath.Join [TempDir W; "trufflehog-results.json"] in
    r <- match StdoutPipe W with
         | Some e => ret ([], Some ("failed to create stdout pipe: " ++ e))
         | None =>
             match Start W with
             | Some e => ret ([], Some ("failed to start trufflehog: " ++ e))
             | None =>
                 findings <- forRange (stdoutLines W) [] scanLine ;;
                 whenErr (scannerErr W)
                   (fun e => warn "Error reading trufflehog output" (Some e)) ;;
                 whenErr (Wait W)
                   (fun e => warn "TruffleHog exited with error (may have findings)" (Some e)) ;;
                 info "TruffleHog scan complete" ;;
                 ret (findings, None)
             end
         end ;;
    fsop W (Remove resultsFile) ;;
    ret r.

Definition New : scanners.Scanner :=
  {| scanners.Name := Name; scanners.ScanType := ScanType;
     scanners.Scan := Scan; scanners.IsAvailable := IsAvailable |}.

End InWorld.

End TruffleHogScanner.

(** ** The downloader (package downloader) *)

Module downloader.

Section InWorld.
Variable W : World.

(* downloadFile downloads a file from URL to local path *)
Definition downloadFile (url filepath : string) : M (option error) :=
  match NewRequest W url with
  | Some e => ret (Some ("failed to create request: " ++ e))
  | None =>
      match Do W url with
      | Err e => ret (Some ("failed to download: " ++ e))
      | Ok resp =>
          if negb (StatusCode resp =? 200)%Z
          then ret (Some ("download failed with status: " ++ StatusText resp))
          else
            e <- fsop W (Create filepath) ;;
            match e with
            | Some e => ret (Some ("failed to create file: " ++ e))
            | None =>
                e <- fsop W (Copy filepath (Body resp)) ;;
                match e with
                | Some e => ret (Some ("failed to write file: " ++ e))
                | None => debug "File downloaded" ;; ret None
                end
            end
      end
  end.

(* extractFile extracts a single file from zip *)
Definition extractFile (f : ZipFile) (destDir : string) : M (option error) :=
  let destPath := filepath.Join [destDir; zf_Name f] in
  (* Check for ZipSlip vulnerability *)
  if negb (filepath.HasPrefix destPath (filepath.Clean destDir ++ filepath.Separator))
  then ret (Some ("invalid file path: " ++ zf_Name f))
  else if zf_IsDir f then fsop W (MkdirAll destPath (zf_Mode f))
  else
    e <- fsop W (MkdirAll (filepath.Dir destPath) 493) ;;        (* 0755 *)
    match e with
    | Some e => ret (Some e)
    | None =>
        match zf_Open f with
        | Err e => ret (Some e)
        | Ok srcFile =>
            e <- fsop W (OpenFile destPath (zf_Mode f)) ;;
            match e with
            | Some e => ret (Some e)
            | None => fsop W (Copy destPath srcFile)
            end
        end
    end.

(* the loop of extractZip: stops at the first entry that fails *)
Fixpoint extractFiles (files : list ZipFile) (destDir : string) : M (option error) :=
  match files with
  | [] => ret None
  | f :: rest =>
      err <- extractFile f destDir ;;
      match err with
      | Some e => ret (Some ("failed to extract " ++ zf_Name f ++ ": " ++ e))
      | None => extractFiles rest destDir
      end
  end.

(* extractZip extracts a zip archive to destination directory *)
Definition extractZip (zipPath destDir : string) : M (option error) :=
  match OpenReader W zipPath with
  | Err e => ret (Some ("failed to open zip: " ++ e))
  | Ok files => extractFiles files destDir
  end.

(* DownloadAndExtract downloads a source archive from a presigned URL and extracts it *)
Definition DownloadAndExtract (presignedURL destDir : string) : M (option error) :=
  info "Downloading source archive" ;;
  e <- fsop W (MkdirAll destDir 493) ;;
  match e with
  | Some e => ret (Some ("failed to create destination directory: " ++ e))
  | None =>
      let tempFile := filepath.Join [TempDir W; "source.zip"] in
      r <- (e <- downloadFile presignedURL tempFile ;;
            match e with
            | Some e => ret (Some ("failed to download source: " ++ e))
            | None =>
                info "Download complete, extracting archive" ;;
                e <- extractZip tempFile destDir ;;
                match e with
                | Some e => ret (Some ("failed to extract source: " ++ e))
                | None => info "Source extracted successfully" ;; ret None
                end
            end) ;;
      fsop W (Remove tempFile) ;;                   (* defer os.Remove(tempFile) *)
      ret r
  end.

(* CloneGit is called by runScan; its body is not part of the sources at
   hand, so only its outcome is taken from the world. *)
Definition CloneGit (repoURL branch commit destDir : string) : M (option error) :=
  ret (cloneGit W).

End InWorld.

  End downloader.

(** ** The orchestrator client (package orchestrator) *)

Module orchestrator.

(* The connection; the client holds nothing else that the model needs. *)
Record Client := { endpoint : string }.

Section InWorld.
Variable W : World.

Definition call (r : pb.Rpc) : M (option error) :=
  fun st => (rpcAnswer W (rpcs st) r,
             {| logs := logs st; rpcs := rpcs st ++ [r]; fsops := fsops st |}).

(* NewClient creates a new orchestrator client *)
Definition NewClient (endpoint : string) : M (result Client) :=
  info "Connecting to orchestrator" ;;
  match Dial W endpoint with
  | Some e => ret (Err ("failed to connect to orchestrator: " ++ e))
  | None =>
      info "Successfully connected to orchestrator" ;;
      ret (Ok {| endpoint := endpoint |})
  end.

(* UpdateScanStatus updates the scan status in orchestrator *)
Definition UpdateScanStatus (c : Client) (scanID : string) (status : pb.ScanStatus)
    (errorMsg : string) : M (option error) :=
  debug "Updating scan status" ;;
  let req := {| pb.Id := scanID; pb.Status := Some status;
                pb.ErrorMessage := if negb (errorMsg =? "") then errorMsg else "";
                pb.TotalFindings := 0 |} in
  err <- call (pb.UpdateScan req) ;;
  match err with
  | Some e =>
      logError "Failed to update scan status" (Some e) ;;
      ret (Some ("failed to update scan status: " ++ e))
  | None => info "Scan status updated successfully" ;; ret None
  end.

(* CreateFindings sends findings to orchestrator in batch *)
Definition CreateFindings (c : Client) (scanID : string) (findings : list pb.Finding)
    : M (option error) :=
  info "Creating findings" ;;
  if (List.length findings =? 0)%nat
  then info "No findings to create" ;; ret None
  else
    let req := {| pb.ScanId := scanID; pb.Findings := findings |} in
    err <- call (pb.CreateFindings req) ;;
    match err with
    | Some e =>
        logError "Failed to create findings" (Some e) ;;
        ret (Some ("failed to create findings: " ++ e))
    | None => info "Findings created successfully" ;; ret None
    end.

(* UpdateFindingsCount updates the total findings count for a scan *)
Definition UpdateFindingsCount (c : Client) (scanID : string) (count : Z)
    : M (option error) :=
  debug "Updating findings count" ;;
  let req := {| pb.Id := scanID; pb.Status := None; pb.ErrorMessage := "";
                pb.TotalFindings := count |} in
  err <- call (pb.UpdateScan req) ;;
  match err with
  | Some e =>
      logError "Failed to update findings count" (Some e) ;;
      ret (Some ("failed to update findings count: " ++ e))
  | None => ret None
  end.

(* Close closes the gRPC connection *)
Definition Close (c : Client) : M unit :=
  info "Closing orchestrator connection".

End InWorld.

End orchestrator.

(** ** The runner (package main) *)

Module config.

Record Config := {
    ScanID : string;                 (* the UUID, as ScanID.String() prints it *)
    ScanTypes : list string;
    GitURL : string;
    GitBranch : string;
    GitCommit : string;
    OrchestratorEndpoint : string;
    SourceDownloadURL : string;
    WorkDir : string
  }.

End config.

(* How a call of runScan ends: it returns, or the process panics. *)
Inductive Outcome :=
| Returns (err : option error)
| Panics.

(* Where the first part of runScan leaves the run: it has returned, or the
   scanners have run and their results are at hand. *)
Inductive Stage :=
| Returned (err : option error)
| Scanned (results : list (option scanners.Result)).

(* results[idx] = v *)
Fixpoint store {A} (results : list A) (idx : nat) (v : A) : list A :=
  match results, idx with
  | [], _ => []
  | _ :: rest, 0 => v :: rest
  | r :: rest, S idx' => r :: store rest idx' v
  end.

Fixpoint removeNth {A} (k : nat) (l : list A) : list A :=
  match l, k with
  | [], _ => []
  | _ :: rest, 0 => rest
  | x :: rest, S k' => x :: removeNth k' rest
  end.

Section Runner.
Variable W : World.

(* one iteration of the loop of initializeScanners *)
Definition addScanner (scannerList : list scanners.Scanner) (scanType : string)
    : M (list scanners.Scanner) :=
  let add (scanner : scanners.Scanner) (unavailable : string) :=
    if scanners.IsAvailable scanner then ret (scannerList ++ [scanner])%list
    else warn unavailable None ;; ret scannerList in
  if (scanType =? "sast") || (scanType =? "SAST")
  then add (SemgrepScanner.New W) "Semgrep scanner not available"
  else if (scanType =? "sca") || (scanType =? "SCA")
  then add (TrivyScanner.New W) "Trivy scanner not available"
  else if (scanType =? "secrets") || (scanType =? "SECRETS")
  then add (TruffleHogScanner.New W) "TruffleHog scanner not available"
  else if (scanType =? "license") || (scanType =? "LICENSE")
  then add (ScanCodeScanner.New W) "ScanCode scanner not available"
  else warn "Unknown scan type" None ;; ret scannerList.

(* initializeScanners creates scanner instances based on requested scan types *)
Definition initializeScanners (scanTypes : list string) : M (list scanners.Scanner) :=
  forRange scanTypes [] addScanner.

(* The goroutine started for index [idx]: it runs the scanner and stores the
   result in its own slot. *)
Definition goroutine (sourceDir : string) (idx : nat) (scnr : scanners.Scanner)
    (results : list (option scanners.Result)) : M (list (option scanners.Result)) :=
  info "Starting scanner" ;;
  r <- scanners.Scan scnr sourceDir ;;
  let (findings, err) := r in
  let results :=
    store results idx
      (Some {| scanners.Findings := findings;
               scanners.ScanType_ := scanners.ScanType scnr;
               scanners.ScannerName := scanners.Name scnr;
               scanners.Error := err |}) in
  match err with
  | Some e => logError "Scanner failed" (Some e)
  | None => info "Scanner completed"
  end ;;
  ret results.

(* wg.Wait(): the goroutines that have not finished complete one after the
   other, in an order the scheduler chooses; [n] bounds how many are left.
   The body of a goroutine is one step here.  That is exact for goroutines
   that share no file; two goroutines of one adapter share its results file,
   and what they do to each other's file is not modelled: what is proved of
   the contents of the slots is stated for scanners of different adapters. *)
Fixpoint wait (n : nat) (sourceDir : string) (unfinished : list (nat * scanners.Scanner))
    (results : list (option scanners.Result)) : M (list (option scanners.Result)) :=
  match n, unfinished with
  | S n', first :: _ =>
      let k := pick W (map fst unfinished) mod List.length unfinished in
      let (idx, scnr) := nth k unfinished first in
      results' <- goroutine sourceDir idx scnr results ;;
      wait n' sourceDir (removeNth k unfinished) results'
  | _, _ => ret results
  end.

(* runScannersParallel executes all scanners in parallel using goroutines *)
Definition runScannersParallel (scannerList : list scanners.Scanner) (sourceDir : string)
    : M (list (option scanners.Result)) :=
  let results := repeat None (List.length scannerList) in
  let started := combine (seq 0 (List.length scannerList)) scannerList in
  wait (List.length started) sourceDir started results.

(* runScan, "Prepare source code": the error it returns with, if any *)
Definition prepareSource (orchClient : orchestrator.Client) (cfg : config.Config)
    : M (option error) :=
  if negb (config.SourceDownloadURL cfg =? "") then
    info "Downloading source code from artifact" ;;
    err <- downloader.DownloadAndExtract W (config.SourceDownloadURL cfg) (config.WorkDir cfg) ;;
    match err with
    | Some e =>
        orchestrator.UpdateScanStatus W orchClient (config.ScanID cfg) pb.ScanStatus_FAILED
          ("Failed to download source: " ++ e) ;;
        ret (Some ("failed to download source: " ++ e))
    | None => ret None
    end
  else if negb (config.GitURL cfg =? "") then
    info "Cloning source code from Git repository" ;;
    err <- downloader.CloneGit W (config.GitURL cfg) (config.GitBranch cfg)
             (config.GitCommit cfg) (config.WorkDir cfg) ;;
    match err with
    | Some e =>
        orchestrator.UpdateScanStatus W orchClient (config.ScanID cfg) pb.ScanStatus_FAILED
          ("Failed to clone repository: " ++ e) ;;
        ret (Some ("failed to clone repository: " ++ e))
    | None => ret None
    end
  else
    let errMsg :=
      "No source specified: neither SOURCE_DOWNLOAD_URL nor REPOSITORY_URL provided" in
    orchestrator.UpdateScanStatus W orchClient (config.ScanID cfg) pb.ScanStatus_FAILED errMsg ;;
    ret (Some errMsg).

(* runScan from the RUNNING update to the return of runScannersParallel *)
Definition scanStage (orchClient : orchestrator.Client) (cfg : config.Config) : M Stage :=
  err <- orchestrator.UpdateScanStatus W orchClient (config.ScanID cfg) pb.ScanStatus_RUNNING "" ;;
  whenErr err (fun e => warn "Failed to update scan status to RUNNING" (Some e)) ;;
  err <- prepareSource orchClient cfg ;;
  match err with
  | Some e => ret (Returned (Some e))
  | None =>
      scannerList <- initializeScanners (config.ScanTypes cfg) ;;
      if (List.length scannerList =? 0)%nat then
        orchestrator.UpdateScanStatus W orchClient (config.ScanID cfg) pb.ScanStatus_FAILED
          "No scanners available for requested scan types" ;;
        ret (Returned (Some "no scanners available"))
      else
        info "Initialized scanners" ;;
        info "Starting parallel scan execution" ;;
        results <- runScannersParallel scannerList (config.WorkDir cfg) ;;
        ret (Scanned results)
  end.

(* runScan, "Collect all findings": one iteration; a nil slot cannot be read *)
Definition collect (acc : option (list pb.Finding * list string))
    (slot : option scanners.Result) : M (option (list pb.Finding * list string)) :=
  match acc, slot with
  | Some (allFindings, scanErrors), Some result =>
      match scanners.Error result with
      | Some e =>
          logError "Scanner failed" (Some e) ;;
          ret (Some (allFindings,
                    (scanErrors ++ [(scanners.ScannerName result ++ ": " ++ e)%string])%list))
      | None =>
          info "Scanner completed" ;;
          ret (Some ((allFindings ++ scanners.Findings result)%list, scanErrors))
      end
  | _, _ => ret None
  end.

(* runScan, "Upload findings to orchestrator": the scan errors afterwards *)
Definition uploadFindings (orchClient : orchestrator.Client) (cfg : config.Config)
    (allFindings : list pb.Finding) (scanErrors : list string) : M (list string) :=
  if (0 <? List.length allFindings)%nat then
    info "Uploading findings to orchestrator" ;;
    err <- orchestrator.CreateFindings W orchClient (config.ScanID cfg) allFindings ;;
    scanErrors <- match err with
                  | Some e =>
                      logError "Failed to upload findings" (Some e) ;;
                      ret (scanErrors ++ [("Failed to upload findings: " ++ e)%string])%list
                  | None => ret scanErrors
                  end ;;
    err <- orchestrator.UpdateFindingsCount W orchClient (config.ScanID cfg)
             (int32 (Z.of_nat (List.length allFindings))) ;;
    whenErr err (fun e => warn "Failed to update findings count" (Some e)) ;;
    ret scanErrors
  else ret scanErrors.

(* runScan after runScannersParallel has returned *)
Definition reportResults (orchClient : orchestrator.Client) (cfg : config.Config)
    (results : list (option scanners.Result)) : M Outcome :=
  collected <- forRange results (Some ([], [])) collect ;;
  match collected with
  | None => ret Panics
  | Some (allFindings, scanErrors) =>
      scanErrors <- uploadFindings orchClient cfg allFindings scanErrors ;;
      if (0 <? List.length scanErrors)%nat then
        let errorMsg := "Scan completed with errors: " ++ sprintStrings scanErrors in
        orchestrator.UpdateScanStatus W orchClient (config.ScanID cfg) pb.ScanStatus_FAILED
          errorMsg ;;
        ret (Returns (Some ("scan had errors: " ++ sprintStrings scanErrors)))
      else
        err <- orchestrator.UpdateScanStatus W orchClient (config.ScanID cfg)
                 pb.ScanStatus_COMPLETED "" ;;
        whenErr err (fun e => warn "Failed to update scan status to COMPLETED" (Some e)) ;;
        ret (Returns None)
  end.

Definition runScan (cfg : config.Config) : M Outcome :=
  info "Connecting to orchestrator" ;;
  c <- orchestrator.NewClient W (config.OrchestratorEndpoint cfg) ;;
  match c with
  | Err e => ret (Returns (Some ("failed to connect to orchestrator: " ++ e)))
  | Ok orchClient =>
      out <- (stage <- scanStage orchClient cfg ;;
              match stage with
              | Returned err => ret (Returns err)
              | Scanned results => reportResults orchClient cfg results
              end) ;;
      orchestrator.Close orchClient ;;               (* defer orchClient.Close() *)
      ret out
  end.

End Runner.

(** ** Configuration from the environment (package config, LoadFromEnv) *)

Module strings.

(* strings.Split(s, sep) for a separator of one byte *)
Fixpoint Split (s : string) (sep : ascii) : list string :=
  match s with
  | EmptyString => [""]
  | String c rest =>
      if Ascii.eqb c sep then "" :: Split rest sep
      else match Split rest sep with
           | [] => [String c ""]
           | e :: es => String c e :: es
           end
  end.

End strings.

(* int64(x): the wrap-around of Go's 64-bit integers *)
Definition int64 (x : Z) : Z := ((x + 2 ^ 63) mod 2 ^ 64 - 2 ^ 63)%Z.

Module configenv.

(* The struct Config in full: the fields runScan reads, as [config.Config],
   and the others.  A time.Duration counts nanoseconds. *)
Record Loaded := {
  runner : config.Config;
  SourceArtifactID : string;
  OrganizationID : string;
  ProjectID : string;
  StorageEndpoint : string;
  ResultsDir : string;
  ScanTimeout : Z;
  DownloadTimeout : Z;
  LogLevel : string
}.

Definition Second : Z := 1000000000.

Section InEnvironment.
Variable Getenv : string -> string.            (* os.Getenv: empty when the variable is unset *)
Variable uuidParse : string -> result string.  (* uuid.Parse, the result as String() prints it *)
Variable Atoi : string -> result Z.            (* strconv.Atoi *)

Definition getEnv (key defaultValue : string) : string :=
  let value := Getenv key in
  if negb (value =? "") then value else defaultValue.

(* value := os.Getenv(key); if value == "" { return nil, fmt.Errorf(...) } *)
Definition required (key : string) (k : string -> M (result Loaded)) : M (result Loaded) :=
  let value := Getenv key in
  if value =? "" then ret (Err (key ++ " environment variable is required"))
  else k value.

(* id, err := uuid.Parse(value); if err != nil { return nil, fmt.Errorf(...) } *)
Definition parsed (key value : string) (k : string -> M (result Loaded)) : M (result Loaded) :=
  match uuidParse value with
  | Err e => ret (Err ("invalid " ++ key ++ ": " ++ e))
  | Ok id => k id
  end.

(* strconv.Atoi(getEnv(key, fallback)) with the default taken on an error *)
Definition seconds (key fallback : string) (default : Z) : M Z :=
  match Atoi (getEnv key fallback) with
  | Err e => warn ("Invalid " ++ key ++ ", using default: " ++ e) None ;; ret default
  | Ok n => ret n
  end.

(* LoadFromEnv loads configuration from environment variables *)
Definition LoadFromEnv : M (result Loaded) :=
  required "SCAN_ID" (fun scanIDStr =>
  parsed "SCAN_ID" scanIDStr (fun scanID =>
  required "SOURCE_ARTIFACT_ID" (fun sourceArtifactID =>
  required "ORGANIZATION_ID" (fun orgIDStr =>
  parsed "ORGANIZATION_ID" orgIDStr (fun orgID =>
  required "PROJECT_ID" (fun projIDStr =>
  parsed "PROJECT_ID" projIDStr (fun projID =>
  required "ORCHESTRATOR_ENDPOINT" (fun orchestratorEndpoint =>
  required "SOURCE_DOWNLOAD_URL" (fun sourceDownloadURL =>
  required "SCAN_TYPES" (fun scanTypesStr =>
    let scanTypes := strings.Split scanTypesStr "," in
    let gitURL := getEnv "GIT_URL" "" in
    let gitBranch := getEnv "GIT_BRANCH" "" in
    let gitCommit := getEnv "GIT_COMMIT" "" in
    let storageEndpoint := getEnv "STORAGE_ENDPOINT" "" in
    let workDir := getEnv "WORK_DIR" "/workspace" in
    let resultsDir := getEnv "RESULTS_DIR" "/results" in
    let logLevel := getEnv "LOG_LEVEL" "info" in
    scanTimeoutSec <- seconds "SCAN_TIMEOUT" "1800" 1800 ;;
    downloadTimeoutSec <- seconds "DOWNLOAD_TIMEOUT" "300" 300 ;;
    info "Configuration loaded from environment" ;;
    ret (Ok {| runner := {| config.ScanID := scanID;
                            config.ScanTypes := scanTypes;
                            config.GitURL := gitURL;
                            config.GitBranch := gitBranch;
                            config.GitCommit := gitCommit;
                            config.OrchestratorEndpoint := orchestratorEndpoint;
                            config.SourceDownloadURL := sourceDownloadURL;
                            config.WorkDir := workDir |};
               SourceArtifactID := sourceArtifactID;
               OrganizationID := orgID;
               ProjectID := projID;
               StorageEndpoint := storageEndpoint;
               ResultsDir := resultsDir;
               ScanTimeout := int64 (scanTimeoutSec * Second);
               DownloadTimeout := int64 (downloadTimeoutSec * Second);
               LogLevel := logLevel |}))))))))))).

End InEnvironment.

End configenv.

(** ** Vocabulary of the statements *)

(* The statuses announced by a sequence of requests, in order.  A request of
   UpdateFindingsCount carries no status. *)
Definition statusUpdates (rs : list pb.Rpc) : list pb.ScanStatus :=
  flat_map (fun r => match r with
                     | pb.UpdateScan req =>
                         match pb.Status req with
                         | Some s => [s]
                         | None => []
                         end
                     | pb.CreateFindings _ => []
                     end) rs.

Definition terminal (s : pb.ScanStatus) : bool :=
  match s with
  | pb.ScanStatus_RUNNING => false
  | pb.ScanStatus_COMPLETED | pb.ScanStatus_FAILED => true
  end.

(* The life cycle of a scan as its status updates trace it: a RUNNING update,
   then one terminal update, then nothing. *)
Inductive Phase := Init | Running | Done.

Definition advance (p : option Phase) (s : pb.ScanStatus) : option Phase :=
  match p with
  | Some Init => if terminal s then None else Some Running
  | Some Running => if terminal s then Some Done else None
  | Some Done => None
  | None => None
  end.

Definition monotonic (updates : list pb.ScanStatus) : bool :=
  match fold_left advance updates (Some Init) with
  | Some _ => true
  | None => false
  end.

Definition isCreateFindings (r : pb.Rpc) : bool :=
  match r with
  | pb.CreateFindings _ => true
  | pb.UpdateScan _ => false
  end.

(* A request of UpdateFindingsCount: an UpdateScan that carries no status. *)
Definition isFindingsCount (r : pb.Rpc) : bool :=
  match r with
  | pb.UpdateScan req =>
      match pb.Status req with
      | None => true
      | Some _ => false
      end
  | pb.CreateFindings _ => false
  end.

Definition statusRequest (scanID : string) (s : pb.ScanStatus) (msg : string) : pb.Rpc :=
  pb.UpdateScan {| pb.Id := scanID; pb.Status := Some s; pb.ErrorMessage := msg;
                   pb.TotalFindings := 0 |}.

Definition countRequest (scanID : string) (n : Z) : pb.Rpc :=
  pb.UpdateScan {| pb.Id := scanID; pb.Status := None; pb.ErrorMessage := "";
                   pb.TotalFindings := n |}.

(* [sub] occurs in [s] *)
Definition occursIn (sub s : string) : Prop :=
  exists before after, s = before ++ sub ++ after.

Definition failed (r : scanners.Result) : bool :=
  match scanners.Error r with
  | Some _ => true
  | None => false
  end.

(* The findings of the adapters that succeeded, in the order of the slots. *)
Definition succeededFindings (results : list scanners.Result) : list pb.Finding :=
  flat_map (fun r => if failed r then [] else scanners.Findings r) results.

(* The error texts runScan collects for the adapters that failed. *)
Definition scanErrorsOf (results : list scanners.Result) : list string :=
  flat_map (fun r => match scanners.Error r with
                     | Some e => [scanners.ScannerName r ++ ": " ++ e]
                     | None => []
                     end) results.

Definition uploadRequest (cfg : config.Config) (findings : list pb.Finding) : pb.Rpc :=
  pb.CreateFindings {| pb.ScanId := config.ScanID cfg; pb.Findings := findings |}.

(* The error text runScan adds when the upload of [findings], attempted after
   the requests [sent], fails; nothing is uploaded when there are none. *)
Definition uploadErrors (W : World) (cfg : config.Config) (findings : list pb.Finding)
    (sent : list pb.Rpc) : list string :=
  if (0 <? List.length findings)%nat then
    match rpcAnswer W sent (uploadRequest cfg findings) with
    | Some e => ["Failed to upload findings: failed to create findings: " ++ e]
    | None => []
    end
  else [].

(* The line logged when the upload of the findings fails. *)
Definition uploadFailure (e : error) : LogEntry :=
  {| level := ErrorLevel; message := "Failed to upload findings";
     withError := Some ("failed to create findings: " ++ e) |}.

(* A line of trufflehog's output that is not empty and decodes. *)
Definition parses (W : World) (line : string) : bool :=
  negb (line =? "") &&
  match unmarshalTruffleHog W line with
  | Ok _ => true
  | Err _ => false
  end.

(* A line of trufflehog's output that is not empty and does not decode. *)
Definition malformed (W : World) (line : string) : bool :=
  negb (line =? "") &&
  match unmarshalTruffleHog W line with
  | Ok _ => false
  | Err _ => true
  end.

(* The lines of newline-delimited output, without the newlines; what follows
   the last newline is a line when it is not empty. *)
Fixpoint rawLines (output : string) : list string :=
  match output with
  | EmptyString => []
  | String c rest =>
      if Ascii.eqb c (ascii_of_nat 10) then EmptyString :: rawLines rest
      else match rawLines rest with
           | [] => [String c EmptyString]
           | line :: lines => String c line :: lines
           end
  end.

(* The same lines as the adapter is to see them, without a carriage return
   before the newline. *)
Definition outputLines (output : string) : list string :=
  map bufio.dropCR (rawLines output).

Fixpoint takeWhile {A} (f : A -> bool) (l : list A) : list A :=
  match l with
  | [] => []
  | x :: rest => if f x then x :: takeWhile f rest else []
  end.

(* The output lines before the first line of MaxScanTokenSize bytes or more. *)
Definition readLines (output : string) : list string :=
  map bufio.dropCR (takeWhile bufio.fits (rawLines output)).

(* Every line of the output is shorter than MaxScanTokenSize. *)
Definition shortLines (output : string) : Prop :=
  forall line, In line (rawLines output) -> bufio.fits line = true.

Definition parseWarning (e : error) : LogEntry :=
  {| level := WarnLevel; message := "Failed to parse trufflehog output line";
     withError := Some e |}.

Definition isParseWarning (l : LogEntry) : bool :=
  match level l with
  | WarnLevel => message l =? "Failed to parse trufflehog output line"
  | _ => false
  end.

Definition readWarning (e : error) : LogEntry :=
  {| level := WarnLevel; message := "Error reading trufflehog output"; withError := Some e |}.

Definition exitWarning (e : error) : LogEntry :=
  {| level := WarnLevel; message := "TruffleHog exited with error (may have findings)";
     withError := Some e |}.

(* Where runScan stands once runScannersParallel has returned, when the run
   gets there: the client, the result slots and the state. *)
Definition scanned (W : World) (cfg : config.Config) (st : State)
    : option (orchestrator.Client * list (option scanners.Result) * State) :=
  let (c, st1) := (info "Connecting to orchestrator" ;;
                   orchestrator.NewClient W (config.OrchestratorEndpoint cfg)) st in
  match c with
  | Err _ => None
  | Ok orchClient =>
      match scanStage W orchClient cfg st1 with
      | (Scanned results, st2) => Some (orchClient, results, st2)
      | (Returned _, _) => None
      end
  end.

(** ** Worlds to run the model in *)

Module Fixtures.

(* A decoder standing for encoding/json: a line that starts with a brace
   decodes to a detection, anything else is a syntax error. *)
Definition decodeLine (line : string) : result TruffleHogResult :=
  if prefix "{" line
  then Ok {| th_File := "config/prod.env"; th_Line := 3; th_SourceName := "filesystem";
             th_DetectorName := "AWS"; th_Raw := "AKIA"; th_Verified := false |}
  else Err "invalid character".

Definition world (onPath : string -> bool) (lines : list string) (exit : option error)
    (resp : result Response) (archive : result (list ZipFile))
    (answer : list pb.Rpc -> pb.Rpc -> option error) (sched : list nat -> nat) : World :=
  {| TempDir := "/tmp";
     LookPath := onPath;
     CombinedOutput := fun _ _ => ("", None);
     ReadFile := fun _ => Err "no such file or directory";
     fsAnswer := fun _ _ => None;
     StdoutPipe := None;
     Start := None;
     stdout := String.concat "" (map (fun line => line ++ newline) lines);
     readErr := None;
     Wait := exit;
     unmarshalTruffleHog := decodeLine;
     unmarshalTrivy := fun _ => Err "unexpected end of JSON input";
     unmarshalSemgrep := fun _ => Err "unexpected end of JSON input";
     unmarshalScanCode := fun _ => Err "unexpected end of JSON input";
     NewRequest := fun _ => None;
     Do := fun _ => resp;
     OpenReader := fun _ => archive;
     cloneGit := None;
     Dial := fun _ => None;
     rpcAnswer := answer;
     pick := sched |}.

Definition cfg (scanTypes : list string) (workDir : string) : config.Config :=
  {| config.ScanID := "6f1c";
     config.ScanTypes := scanTypes;
     config.GitURL := "";
     config.GitBranch := "";
     config.GitCommit := "";
     config.OrchestratorEndpoint := "orchestrator:9999";
     config.SourceDownloadURL := "https://bucket/source.zip";
     config.WorkDir := workDir |}.

Definition ok200 : result Response :=
  Ok {| StatusCode := 200; StatusText := "200 OK"; Body := "PK" |}.

Definition mainGo : ZipFile :=
  {| zf_Name := "src/main.go"; zf_IsDir := false; zf_Mode := 420; zf_Open := Ok "package main" |}.

Definition evil : ZipFile :=
  {| zf_Name := "../evil"; zf_IsDir := false; zf_Mode := 420; zf_Open := Ok "x" |}.

Definition onlyTrufflehog (file : string) : bool := file =? "trufflehog".

Definition allUp : list pb.Rpc -> pb.Rpc -> option error := fun _ _ => None.

(* Schedulers: the goroutine started first finishes first, or last. *)
Definition fifo : list nat -> nat := fun _ => 0.
Definition lifo : list nat -> nat := fun unfinished => List.length unfinished - 1.

(* The orchestrator refuses CreateFindings and accepts everything else. *)
Definition uploadDown : list pb.Rpc -> pb.Rpc -> option error :=
  fun _ r => if isCreateFindings r then Some "unavailable" else None.

(* trufflehog is the only tool installed; it prints two detections, an empty
   line and a line that is not JSON, and exits with a non-zero status. *)
Definition streamed : World :=
  world onlyTrufflehog ["{a}"; ""; "garbage"; "{b}"] (Some "exit status 183") ok200
    (Ok [mainGo]) allUp fifo.

(* trufflehog crashes without printing anything. *)
Definition crashed : World :=
  world onlyTrufflehog [] (Some "signal: killed") ok200 (Ok [mainGo]) allUp fifo.

(* The presigned URL answers 204 No Content. *)
Definition noContent : World :=
  world onlyTrufflehog [] None
    (Ok {| StatusCode := 204; StatusText := "204 No Content"; Body := "" |})
    (Ok [mainGo]) allUp fifo.

(* semgrep and trufflehog are installed; the goroutines finish in the
   reverse of the order they were started in. *)
Definition lastFirst : World :=
  world (fun file => (file =? "trufflehog") || (file =? "semgrep")) ["{a}"] None ok200
    (Ok [mainGo]) allUp lifo.

(* trufflehog finds one secret; the orchestrator refuses the upload. *)
Definition uploadRefused : World :=
  world onlyTrufflehog ["{a}"] None ok200 (Ok [mainGo]) uploadDown fifo.

(* The archive holds an entry that climbs out of the directory it is
   extracted into. *)
Definition climbing : World :=
  world onlyTrufflehog [] None ok200 (Ok [evil]) allUp fifo.

Definition noResult : scanners.Result :=
  {| scanners.Findings := []; scanners.ScanType_ := pb.ScanType_SAST;
     scanners.ScannerName := ""; scanners.Error := None |}.

(* What a run from the initial state has at hand once the scanners have run. *)
Definition clientOf (W : World) (cfg : config.Config) : orchestrator.Client :=
  {| orchestrator.endpoint := config.OrchestratorEndpoint cfg |}.

Definition resultsOf (W : World) (cfg : config.Config) : list scanners.Result :=
  match scanned W cfg initial with
  | Some (_, results, _) =>
      flat_map (fun slot => match slot with
                            | Some r => [r]
                            | None => []
                            end) results
  | None => []
  end.

Definition stateOf (W : World) (cfg : config.Config) : State :=
  match scanned W cfg initial with
  | Some (_, _, st) => st
  | None => initial
  end.

(* trufflehog prints a detection, a line of 70000 letters, a line that is
   not JSON and another detection. *)
Definition overlong : World :=
  {| TempDir := "/tmp";
     LookPath := onlyTrufflehog;
     CombinedOutput := fun _ _ => ("", None);
     ReadFile := fun _ => Err "no such file or directory";
     fsAnswer := fun _ _ => None;
     StdoutPipe := None;
     Start := None;
     stdout := "{a}" ++ newline ++ Pos.iter (String "x") "" 70000 ++ newline ++
               "garbage" ++ newline ++ "{b}" ++ newline;
     readErr := None;
     Wait := None;
     unmarshalTruffleHog := decodeLine;
     unmarshalTrivy := fun _ => Err "unexpected end of JSON input";
     unmarshalSemgrep := fun _ => Err "unexpected end of JSON input";
     unmarshalScanCode := fun _ => Err "unexpected end of JSON input";
     NewRequest := fun _ => None;
     Do := fun _ => ok200;
     OpenReader := fun _ => Ok [mainGo];
     cloneGit := None;
     Dial := fun _ => None;
     rpcAnswer := allUp;
     pick := fifo |}.

End Fixtures.

(** ** Vocabulary of the further properties *)

(* The variables LoadFromEnv insists on, in the order it reads them, and
   those of them that hold a UUID. *)
Definition requiredVars : list string :=
  ["SCAN_ID"; "SOURCE_ARTIFACT_ID"; "ORGANIZATION_ID"; "PROJECT_ID";
   "ORCHESTRATOR_ENDPOINT"; "SOURCE_DOWNLOAD_URL"; "SCAN_TYPES"].

Definition idVars : list string := ["SCAN_ID"; "ORGANIZATION_ID"; "PROJECT_ID"].

Module Environments.

Definition uuidParse (s : string) : result string :=
  if (String.length s =? 36)%nat then Ok s else Err "invalid UUID length".

Definition Atoi (s : string) : result Z :=
  if s =? "1800" then Ok 1800%Z
  else if s =? "300" then Ok 300%Z
  else if s =? "60" then Ok 60%Z
  else Err "invalid syntax".

(* The environment of a job: the required variables and a scan timeout that
   is not a number. *)
Definition job (key : string) : string :=
  if key =? "SCAN_ID" then "0b6c2470-8340-4a78-b0f3-4f968c90ea2a"
  else if key =? "SOURCE_ARTIFACT_ID" then "artifact-17"
  else if key =? "ORGANIZATION_ID" then "53d7f9c1-5e0a-4f5e-9d0c-2f3f6a1b7c11"
  else if key =? "PROJECT_ID" then "a3f1c2d4-1111-4222-8333-944455556666"
  else if key =? "ORCHESTRATOR_ENDPOINT" then "orchestrator:9999"
  else if key =? "SOURCE_DOWNLOAD_URL" then "https://bucket/source.zip"
  else if key =? "SCAN_TYPES" then "sast, sca,secrets"
  else if key =? "GIT_URL" then "https://git/repo.git"
  else if key =? "SCAN_TIMEOUT" then "soon"
  else "".

(* An archive with a source file followed by an entry that climbs out. *)
Definition mixed : World :=
  Fixtures.world Fixtures.onlyTrufflehog [] None Fixtures.ok200
    (Ok [Fixtures.mainGo; Fixtures.evil]) Fixtures.allUp Fixtures.fifo.

(* Every tool is installed and has written its results file; trivy reports
   one vulnerable package and exits with a non-zero status, semgrep's file
   does not decode. *)
Definition reported : World :=
  {| TempDir := "/tmp";
     LookPath := fun _ => true;
     CombinedOutput := fun _ _ => ("", Some "exit status 1");
     ReadFile := fun _ => Ok "{}";
     fsAnswer := fun _ _ => None;
     StdoutPipe := None;
     Start := None;
     stdout := "{a}" ++ newline ++ "garbage" ++ newline ++ "{b}" ++ newline;
     readErr := None;
     Wait := None;
     unmarshalTruffleHog := Fixtures.decodeLine;
     unmarshalTrivy := fun _ =>
       Ok [{| tt_Target := "go.mod";
              tt_Vulnerabilities :=
                [{| tv_VulnerabilityID := "CVE-2024-0001"; tv_PkgName := "grpc";
                    tv_InstalledVersion := "1.0.0"; tv_FixedVersion := "1.0.1";
                    tv_Severity := "HIGH"; tv_Title := ""; tv_Description := "overflow";
                    tv_References := [] |}] |}];
     unmarshalSemgrep := fun _ => Err "unexpected end of JSON input";
     unmarshalScanCode := fun _ => Ok [];
     NewRequest := fun _ => None;
     Do := fun _ => Fixtures.ok200;
     OpenReader := fun _ => Ok [Fixtures.mainGo];
     cloneGit := None;
     Dial := fun _ => None;
     rpcAnswer := Fixtures.allUp;
     pick := Fixtures.lifo |}.

(* The orchestrator cannot be reached. *)
Definition unreachable : World :=
  {| TempDir := "/tmp";
     LookPath := fun _ => true;
     CombinedOutput := fun _ _ => ("", None);
     ReadFile := fun _ => Ok "{}";
     fsAnswer := fun _ _ => None;
     StdoutPipe := None;
     Start := None;
     stdout := "";
     readErr := None;
     Wait := None;
     unmarshalTruffleHog := Fixtures.decodeLine;
     unmarshalTrivy := fun _ => Ok [];
     unmarshalSemgrep := fun _ => Ok [];
     unmarshalScanCode := fun _ => Ok [];
     NewRequest := fun _ => None;
     Do := fun _ => Fixtures.ok200;
     OpenReader := fun _ => Ok [Fixtures.mainGo];
     cloneGit := None;
     Dial := fun _ => Some "context deadline exceeded";
     rpcAnswer := Fixtures.allUp;
     pick := Fixtures.fifo |}.

(* No tool is installed. *)
Definition bare : World :=
  Fixtures.world (fun _ => false) [] None Fixtures.ok200 (Ok [Fixtures.mainGo])
    Fixtures.allUp Fixtures.fifo.

End Environments.

(* The paths a file-system operation creates or writes. *)
Definition touched (op : FsOp) : list string :=
  match op with
  | MkdirAll path _ => [path]
  | Create path => [path]
  | OpenFile path _ => [path]
  | Copy dst _ => [dst]
  | Remove _ => []
  end.

(* The operation creates and writes within [root] only. *)
Definition inside (root : string) (op : FsOp) : Prop :=
  forall p, In p (touched op) -> filepath.within root p = true.

(* The computation adds file-system operations that satisfy [P], and leaves
   the earlier ones as they are. *)
Definition addsOnly {A} (P : FsOp -> Prop) (m : M A) : Prop :=
  forall st, exists ops, fsops (snd (m st)) = (fsops st ++ ops)%list /\ Forall P ops.

(* The four adapters of the runner. *)
Definition adapters (W : World) : list scanners.Scanner :=
  [SemgrepScanner.New W; TrivyScanner.New W; TruffleHogScanner.New W; ScanCodeScanner.New W].

(* The adapters that read their findings from the file their tool writes,
   each with the function that reads it. *)
Definition documentAdapters (W : World)
    : list (scanners.Scanner * (string -> result (list pb.Finding))) :=
  [(SemgrepScanner.New W, SemgrepScanner.parseResults W);
   (TrivyScanner.New W, TrivyScanner.parseResults W);
   (ScanCodeScanner.New W, ScanCodeScanner.parseResults W)].

(* The results file of an adapter. *)
Definition resultsFile (W : World) (s : scanners.Scanner) : string :=
  filepath.Join [TempDir W; scanners.Name s ++ "-results.json"].

(* The findings one line of trufflehog's output gives. *)
Definition decoded (W : World) (line : string) : list pb.Finding :=
  if line =? "" then []
  else match unmarshalTruffleHog W line with
       | Ok result => [TruffleHogScanner.toFinding result]
       | Err _ => []
       end.

(* What an adapter returns, and what it does to the file system. *)
Definition adapterRun (W : World) (s : scanners.Scanner)
    (value : list pb.Finding * option error) (sourceDir : string) (st : State) : Prop :=
  fst (scanners.Scan s sourceDir st)
  = (if scanners.IsAvailable s then value
     else ([], Some (scanners.Name s ++ " is not installed"))) /\
  fsops (snd (scanners.Scan s sourceDir st))
  = (if scanners.IsAvailable s then (fsops st ++ [Remove (resultsFile W s)])%list
     else fsops st).

(* The result a scanner gives when it runs alone, from the initial state. *)
Definition alone (sourceDir : string) (s : scanners.Scanner) : scanners.Result :=
  let (findings, err) := fst (scanners.Scan s sourceDir initial) in
  {| scanners.Findings := findings;
     scanners.ScanType_ := scanners.ScanType s;
     scanners.ScannerName := scanners.Name s;
     scanners.Error := err |}.

(* What the scanner returns does not depend on what ran before it. *)
Definition stateless (s : scanners.Scanner) : Prop :=
  forall sourceDir st, fst (scanners.Scan s sourceDir st) = fst (scanners.Scan s sourceDir initial).

(* The adapter a requested scan type stands for, if it is a known one. *)
Definition requested (W : World) (scanType : string) : list scanners.Scanner :=
  if (scanType =? "sast") || (scanType =? "SAST") then [SemgrepScanner.New W]
  else if (scanType =? "sca") || (scanType =? "SCA") then [TrivyScanner.New W]
  else if (scanType =? "secrets") || (scanType =? "SECRETS") then [TruffleHogScanner.New W]
  else if (scanType =? "license") || (scanType =? "LICENSE") then [ScanCodeScanner.New W]
  else [].

(* Every scanner is either still to finish, under its own index, or its slot
   holds the result the scanner gives alone. *)
Definition slotsExact (sourceDir : string) (scannerList : list scanners.Scanner)
    (unfinished : list (nat * scanners.Scanner))
    (results : list (option scanners.Result)) : Prop :=
  List.length results = List.length scannerList /\
  (forall idx scnr, In (idx, scnr) unfinished ->
                    nth_error scannerList idx = Some scnr /\ stateless scnr) /\
  (forall idx scnr, nth_error scannerList idx = Some scnr ->
                    In (idx, scnr) unfinished \/
                    nth_error results idx = Some (Some (alone sourceDir scnr))).

(** ** Invariants and properties used in the proofs *)

(* runScan from "Initialized scanners" to the return of runScannersParallel *)
Definition runScannersParallel_staged (W : World) (scannerList : list scanners.Scanner)
    (sourceDir : string) (st : State) : Stage * State :=
  let (results, st') :=
    runScannersParallel W scannerList sourceDir
      (snd (info "Starting parallel scan execution" (snd (info "Initialized scanners" st)))) in
  (Scanned results, st').


(* What the slot of a scanner holds once its goroutine has finished. *)
Definition filledFor (scnr : scanners.Scanner) (slot : option (option scanners.Result)) : Prop :=
  exists r, slot = Some (Some r) /\
            scanners.ScannerName r = scanners.Name scnr /\
            scanners.ScanType_ r = scanners.ScanType scnr.

(* Every scanner is either still to finish, under its own index, or has its
   slot filled. *)
Definition slotsInv (scannerList : list scanners.Scanner)
    (unfinished : list (nat * scanners.Scanner))
    (results : list (option scanners.Result)) : Prop :=
  List.length results = List.length scannerList /\
  (forall idx scnr, In (idx, scnr) unfinished -> nth_error scannerList idx = Some scnr) /\
  (forall idx scnr, nth_error scannerList idx = Some scnr ->
                    In (idx, scnr) unfinished \/ filledFor scnr (nth_error results idx)).

Definition quiet {A} (m : M A) : Prop :=
  forall st, rpcs (snd (m st)) = rpcs st.

Definition quietScanner (scnr : scanners.Scanner) : Prop :=
  forall sourceDir, quiet (scanners.Scan scnr sourceDir).

Definition keepsLogs {A} (m : M A) : Prop :=
  forall st l, In l (logs st) -> In l (logs (snd (m st))).

(* An element that Clean keeps. *)
Definition kept (e : string) : Prop := e <> "" /\ e <> "." /\ filepath.split e = [e].

Definition dotdot (e : string) : Prop := e = "..".

(* The shape of Clean's stack, last element first: under a ".." there are
   only ".." elements. *)
Fixpoint climbsFirst (stack : list string) : Prop :=
  match stack with
  | [] => True
  | top :: below => (top = ".." -> Forall dotdot below) /\ climbsFirst below
  end.

Definition cleanInv (isRooted : bool) (stack : list string) : Prop :=
  Forall kept stack /\ climbsFirst stack /\
  (isRooted = true -> Forall (fun e => e <> "..") stack).

(** ** Theorems *)

(** *** The path functions on known inputs *)

Example Clean_examples :
  map filepath.Clean ["abc//def//ghi"; "abc/./def"; "abc/def/../ghi"; "/../abc"; "../../abc/../x/";
                      ""; "/"; "a/.."; "/a/b/../../.."; ".."; "./a"; "a/b/../../../c"]
  = ["abc/def/ghi"; "abc/def"; "abc/ghi"; "/abc"; "../../x"; "."; "/"; "."; "/"; ".."; "a"; "../c"].
Proof. reflexivity. Qed.

Example Join_examples :
  map filepath.Join [["/workspace"; "src/main.go"]; ["/workspace"; "../etc/passwd"]; [""; "a"];
                     ["a"; ""]; [""; ""]; [".."; "../evil"]; ["/workspace"; "/abs"]]
  = ["/workspace/src/main.go"; "/etc/passwd"; "a"; "a"; ""; "../../evil"; "/workspace/abs"].
Proof. reflexivity. Qed.

Example Dir_examples :
  map filepath.Dir ["/workspace/a/b.txt"; "a"; "/a"; "a/b/"; ""]
  = ["/workspace/a"; "."; "/"; "a/b"; "."].
Proof. reflexivity. Qed.

Example within_examples :
  map (fun '(r, p) => filepath.within r p)
      [("/workspace", "/workspace/a"); ("/workspace", "/workspace"); ("/workspace", "/workspace2/a");
       ("/workspace", "/etc/passwd"); ("..", "../../evil"); ("..", "../a"); (".", "a"); (".", "../a");
       ("/", "/a"); ("a", "/a")]
  = [true; true; false; false; false; true; true; false; true; false].
Proof. reflexivity. Qed.

(** *** Severity mappings *)

Lemma eqb_neq_false (s t : string) : s <> t -> (s =? t) = false.
Proof. intros H. now apply String.eqb_neq. Qed.

Ltac other_string :=
  repeat match goal with
         | H : _ <> _ |- _ => apply eqb_neq_false in H; rewrite H; clear H
         end.

(** C5: each adapter's severity mapping is a total function on strings with
    the documented table, and every string outside the table maps to MEDIUM. *)
Theorem severity_mappings_total :
  (SemgrepScanner.mapSeverity "ERROR" = pb.Severity_HIGH /\
   SemgrepScanner.mapSeverity "WARNING" = pb.Severity_MEDIUM /\
   SemgrepScanner.mapSeverity "INFO" = pb.Severity_LOW /\
   forall s, s <> "ERROR" -> s <> "WARNING" -> s <> "INFO" ->
             SemgrepScanner.mapSeverity s = pb.Severity_MEDIUM) /\
  (TrivyScanner.mapSeverity "CRITICAL" = pb.Severity_CRITICAL /\
   TrivyScanner.mapSeverity "HIGH" = pb.Severity_HIGH /\
   TrivyScanner.mapSeverity "MEDIUM" = pb.Severity_MEDIUM /\
   TrivyScanner.mapSeverity "LOW" = pb.Severity_LOW /\
   forall s, s <> "CRITICAL" -> s <> "HIGH" -> s <> "MEDIUM" -> s <> "LOW" ->
             TrivyScanner.mapSeverity s = pb.Severity_MEDIUM) /\
  (ScanCodeScanner.getLicenseSeverity "Copyleft" = pb.Severity_HIGH /\
   ScanCodeScanner.getLicenseSeverity "Strong Copyleft" = pb.Severity_HIGH /\
   ScanCodeScanner.getLicenseSeverity "Copyleft Limited" = pb.Severity_MEDIUM /\
   ScanCodeScanner.getLicenseSeverity "Permissive" = pb.Severity_LOW /\
   ScanCodeScanner.getLicenseSeverity "Proprietary Free" = pb.Severity_LOW /\
   forall s, s <> "Copyleft" -> s <> "Strong Copyleft" -> s <> "Copyleft Limited" ->
             s <> "Permissive" -> s <> "Proprietary Free" ->
             ScanCodeScanner.getLicenseSeverity s = pb.Severity_MEDIUM).
Proof.
  repeat split; try reflexivity; intros s; intros;
    unfold SemgrepScanner.mapSeverity, TrivyScanner.mapSeverity,
      ScanCodeScanner.getLicenseSeverity;
    other_string; reflexivity.
Qed.

Lemma severity_mappings_total_witness :
  SemgrepScanner.mapSeverity "error" = pb.Severity_MEDIUM /\
  TrivyScanner.mapSeverity "UNKNOWN" = pb.Severity_MEDIUM /\
  ScanCodeScanner.getLicenseSeverity "" = pb.Severity_MEDIUM.
Proof.
  destruct severity_mappings_total as [[_ [_ [_ Hs]]] [[_ [_ [_ [_ Ht]]]] [_ [_ [_ [_ [_ Hl]]]]]]].
  split; [|split].
  - apply Hs; discriminate.
  - apply Ht; discriminate.
  - apply Hl; discriminate.
Defined.

(** *** The monad *)

Lemma bind_eq {A B} (m : M A) (k : A -> M B) (st : State) :
  bind m k st = k (fst (m st)) (snd (m st)).
Proof. unfold bind. destruct (m st); reflexivity. Qed.

Lemma append_assoc (s t u : string) : (s ++ t) ++ u = s ++ (t ++ u).
Proof. induction s as [|ch s IH]; simpl; [reflexivity|now rewrite IH]. Qed.

Ltac run :=
  unfold whenErr, info, debug, warn, logError, logf, fsop, orchestrator.call, bind, ret in *;
  simpl in *.

(** *** The secrets adapter *)

Lemma filter_length_app {A} (f : A -> bool) (l1 l2 : list A) :
  List.length (filter f (l1 ++ l2)) = List.length (filter f l1) + List.length (filter f l2).
Proof. now rewrite filter_app, length_app. Qed.

(* The loop over the output lines adds one finding for each line that parses
   and one warning for each malformed line, and does nothing else. *)
Lemma scanLines_spec (W : World) (lines : list string) :
  forall (findings : list pb.Finding) (st : State),
    let (fs, st') := forRange lines findings (TruffleHogScanner.scanLine W) st in
    List.length fs = List.length findings + List.length (filter (parses W) lines) /\
    List.length (filter isParseWarning (logs st'))
      = List.length (filter isParseWarning (logs st)) + List.length (filter (malformed W) lines) /\
    rpcs st' = rpcs st /\ fsops st' = fsops st.
Proof.
  induction lines as [|line rest IH]; intros findings st.
  - simpl. repeat split; lia.
  - cbn [forRange]. rewrite bind_eq.
    specialize (IH (fst (TruffleHogScanner.scanLine W findings line st))
                   (snd (TruffleHogScanner.scanLine W findings line st))).
    destruct (forRange rest _ _ _) as [fs st'].
    destruct IH as (Hf & Hw & Hr & Hfs).
    rewrite Hf, Hw, Hr, Hfs. clear Hf Hw Hr Hfs.
    unfold TruffleHogScanner.scanLine, parses, malformed. cbn [filter].
    destruct (line =? "") eqn:Hempty; cbn [negb andb].
    + run. repeat split; lia.
    + destruct (unmarshalTruffleHog W line) as [r|e]; run.
      * rewrite length_app. simpl. repeat split; lia.
      * rewrite filter_length_app. simpl. repeat split; lia.
Qed.

(* The scanner yields the output lines before the first line that does not
   fit its buffer, and ErrTooLong when there is one. *)
Lemma rawLines_cut (input : string) :
  rawLines input
  = (fix assemble (line : string) (more : list string) : list string :=
       match more with
       | [] => if line =? "" then [] else [line]
       | next :: more' => line :: assemble next more'
       end) (fst (bufio.cut input)) (snd (bufio.cut input)).
Proof.
  induction input as [|c rest IH]; [reflexivity|].
  cbn [rawLines bufio.cut]. rewrite IH. clear IH.
  destruct (bufio.cut rest) as [line more]. cbn [fst snd].
  destruct (Ascii.eqb c (ascii_of_nat 10)); cbn [fst snd]; [reflexivity|].
  destruct more as [|next more'].
  - destruct line; reflexivity.
  - reflexivity.
Qed.

Lemma Scanner_spec (input : string) :
  bufio.Scanner input
  = (readLines input,
     if forallb bufio.fits (rawLines input) then None else Some bufio.ErrTooLong).
Proof.
  unfold bufio.Scanner, readLines. rewrite rawLines_cut.
  destruct (bufio.cut input) as [line more]. cbn [fst snd].
  revert line. induction more as [|next more' IH]; intros line.
  - cbn [bufio.tokens]. destruct (line =? ""); [reflexivity|].
    cbn [takeWhile forallb map]. destruct (bufio.fits line); reflexivity.
  - cbn [bufio.tokens takeWhile forallb]. destruct (bufio.fits line); [|reflexivity].
    rewrite IH. reflexivity.
Qed.

Lemma takeWhile_all {A} (f : A -> bool) (l : list A) :
  (forall x, In x l -> f x = true) -> takeWhile f l = l /\ forallb f l = true.
Proof.
  induction l as [|x l IH]; intros H; [split; reflexivity|].
  cbn [takeWhile forallb]. rewrite (H x) by (left; reflexivity).
  destruct IH as [-> ->]; [intros y Hy; apply H; now right|]. split; reflexivity.
Qed.

Lemma stdoutLines_spec (W : World) : stdoutLines W = readLines (stdout W).
Proof. unfold stdoutLines. now rewrite Scanner_spec. Qed.

Lemma shortLines_read (W : World) :
  shortLines (stdout W) ->
  readLines (stdout W) = outputLines (stdout W) /\ scannerErr W = readErr W.
Proof.
  intros Hshort. destruct (takeWhile_all bufio.fits _ Hshort) as [Htake Hall].
  unfold scannerErr, readLines, outputLines. now rewrite Scanner_spec, Htake, Hall.
Qed.

Lemma overlong_error (W : World) (line : string) :
  In line (rawLines (stdout W)) -> bufio.fits line = false ->
  scannerErr W = Some bufio.ErrTooLong.
Proof.
  intros Hin Hfits. unfold scannerErr. rewrite Scanner_spec. cbn [snd].
  destruct (forallb bufio.fits (rawLines (stdout W))) eqn:Hall; [|reflexivity].
  rewrite forallb_forall in Hall. rewrite (Hall line Hin) in Hfits. discriminate.
Qed.

(* The loop logs a warning with the decoder's error for each line that does
   not decode, and keeps what was logged before. *)
Lemma scanLines_logs (W : World) (lines : list string) :
  forall (findings : list pb.Finding) (st : State),
    let st' := snd (forRange lines findings (TruffleHogScanner.scanLine W) st) in
    (forall l, In l (logs st) -> In l (logs st')) /\
    (forall line e, In line lines -> line <> "" -> unmarshalTruffleHog W line = Err e ->
                    In (parseWarning e) (logs st')).
Proof.
  induction lines as [|line0 rest IH]; intros findings st; cbv zeta.
  - split; [auto|]. intros line e [].
  - cbn [forRange]. rewrite bind_eq.
    destruct (IH (fst (TruffleHogScanner.scanLine W findings line0 st))
                 (snd (TruffleHogScanner.scanLine W findings line0 st))) as [Hkeep Hwarn].
    assert (Hstep : forall l, In l (logs st) ->
                      In l (logs (snd (TruffleHogScanner.scanLine W findings line0 st)))).
    { intros l Hl. unfold TruffleHogScanner.scanLine.
      destruct (line0 =? ""); [exact Hl|].
      destruct (unmarshalTruffleHog W line0); [exact Hl|].
      cbn [bind ret warn logf snd logs]. apply in_or_app. now left. }
    split; [auto|].
    intros line e [<-|Hin] Hne Herr; [|now apply (Hwarn line e)].
    apply Hkeep. unfold TruffleHogScanner.scanLine.
    apply String.eqb_neq in Hne. rewrite Hne, Herr.
    cbn [bind ret warn logf snd logs]. apply in_or_app. right. left. reflexivity.
Qed.

(* Scan once trufflehog has started: the findings of the loop, no error, and
   the warnings logged after the loop. *)
Lemma trufflehog_started (W : World) (sourceDir : string) (st : State) :
  TruffleHogScanner.IsAvailable W = true ->
  StdoutPipe W = None ->
  Start W = None ->
  let loop := forRange (stdoutLines W) [] (TruffleHogScanner.scanLine W)
                (snd (info "Starting TruffleHog scan" st)) in
  fst (TruffleHogScanner.Scan W sourceDir st) = (fst loop, None) /\
  logs (snd (TruffleHogScanner.Scan W sourceDir st))
  = (logs (snd loop) ++
     match scannerErr W with
     | Some e => [readWarning e]
     | None => []
     end ++
     match Wait W with
     | Some e => [exitWarning e]
     | None => []
     end ++
     [{| level := InfoLevel; message := "TruffleHog scan complete"; withError := None |}])%list.
Proof.
  intros Havail Hpipe Hstart. cbv zeta. unfold TruffleHogScanner.Scan.
  rewrite bind_eq. cbn beta. rewrite Havail, Hpipe, Hstart. cbn [negb].
  rewrite !bind_eq. cbn beta.
  destruct (forRange (stdoutLines W) [] _ _) as [findings st1]. cbn [fst snd].
  destruct (scannerErr W), (Wait W); cbn [whenErr]; split; try reflexivity;
    cbn [bind ret fst snd fsop warn info logf logs]; rewrite <- ?app_assoc; reflexivity.
Qed.

(** C6: the secrets adapter reads the output lines before the first line of
    65536 bytes or more, all of them when every line is shorter. A line it
    reads that does not parse is skipped with a warning and the scan goes on:
    the findings returned are as many as the non-empty lines read that parse,
    the parse warnings as many as the non-empty lines read that do not, and
    the scan returns no error. A line of 65536 bytes or more is not skipped:
    it ends the reading, with the warning "Error reading trufflehog output"
    for "bufio.Scanner: token too long", and the lines after it are lost. *)
Theorem trufflehog_skips_malformed_lines (W : World) (sourceDir : string) (st : State) :
  TruffleHogScanner.IsAvailable W = true ->
  StdoutPipe W = None ->
  Start W = None ->
  let (r, st') := TruffleHogScanner.Scan W sourceDir st in
  snd r = None /\
  List.length (fst r) = List.length (filter (parses W) (readLines (stdout W))) /\
  List.length (filter isParseWarning (logs st'))
    = List.length (filter isParseWarning (logs st))
      + List.length (filter (malformed W) (readLines (stdout W))) /\
  (shortLines (stdout W) -> readLines (stdout W) = outputLines (stdout W)) /\
  (forall line, In line (rawLines (stdout W)) -> bufio.fits line = false ->
                In (readWarning bufio.ErrTooLong) (logs st')).
Proof.
  intros Havail Hpipe Hstart.
  destruct (trufflehog_started W sourceDir st Havail Hpipe Hstart) as [Hr Hlogs].
  cbv zeta in Hr, Hlogs.
  pose proof (scanLines_spec W (stdoutLines W) [] (snd (info "Starting TruffleHog scan" st)))
    as Hloop.
  destruct (TruffleHogScanner.Scan W sourceDir st) as [r st']. cbn [fst snd] in *.
  destruct (forRange (stdoutLines W) [] _ _) as [fs st1]. cbn [fst snd] in *.
  destruct Hloop as (Hf & Hw & _ & _). subst r. cbn [fst snd].
  rewrite <- stdoutLines_spec.
  split; [reflexivity|]. split; [exact Hf|]. split; [|split].
  - rewrite Hlogs, !filter_length_app, Hw.
    cbn [info logf snd logs]. rewrite filter_length_app.
    destruct (scannerErr W), (Wait W); cbn; lia.
  - intros Hshort. rewrite stdoutLines_spec. now apply shortLines_read.
  - intros line Hin Hfits. rewrite Hlogs, (overlong_error W line Hin Hfits).
    apply in_or_app. right. left. reflexivity.
Qed.

Lemma trufflehog_skips_malformed_lines_witness :
  outputLines (stdout Fixtures.streamed) = ["{a}"; ""; "garbage"; "{b}"] /\
  List.length (fst (fst (TruffleHogScanner.Scan Fixtures.streamed "/workspace" initial))) = 2 /\
  List.length (filter isParseWarning
                 (logs (snd (TruffleHogScanner.Scan Fixtures.streamed "/workspace" initial))))
  = 1 /\
  let (r, st') := TruffleHogScanner.Scan Fixtures.streamed "/workspace" initial in
  snd r = None /\
  List.length (fst r)
  = List.length (filter (parses Fixtures.streamed) (readLines (stdout Fixtures.streamed))) /\
  List.length (filter isParseWarning (logs st'))
    = List.length (filter isParseWarning (logs initial))
      + List.length (filter (malformed Fixtures.streamed)
                       (readLines (stdout Fixtures.streamed))) /\
  (shortLines (stdout Fixtures.streamed) ->
   readLines (stdout Fixtures.streamed) = outputLines (stdout Fixtures.streamed)) /\
  (forall line, In line (rawLines (stdout Fixtures.streamed)) -> bufio.fits line = false ->
                In (readWarning bufio.ErrTooLong) (logs st')).
Proof.
  split; [vm_compute; reflexivity|]. split; [vm_compute; reflexivity|].
  split; [vm_compute; reflexivity|].
  apply (trufflehog_skips_malformed_lines Fixtures.streamed "/workspace" initial);
    reflexivity.
Defined.

(* The sentence of the specification fails on an output with a line of 70000
   letters: of its four lines two parse and two do not, yet the scan returns
   one finding and logs no parse warning; the line is not skipped, the
   reading ends at it. *)
Lemma long_line_counterexample :
  TruffleHogScanner.IsAvailable Fixtures.overlong = true /\
  StdoutPipe Fixtures.overlong = None /\
  Start Fixtures.overlong = None /\
  List.length (filter (parses Fixtures.overlong) (outputLines (stdout Fixtures.overlong))) = 2 /\
  List.length (filter (malformed Fixtures.overlong) (outputLines (stdout Fixtures.overlong))) = 2 /\
  List.length (fst (fst (TruffleHogScanner.Scan Fixtures.overlong "/workspace" initial))) = 1 /\
  filter isParseWarning
    (logs (snd (TruffleHogScanner.Scan Fixtures.overlong "/workspace" initial))) = [].
Proof. vm_compute. repeat split; reflexivity. Qed.

(** C9: once the trufflehog subprocess has been started, Scan returns a nil
    error whatever happens next. A failing exit is logged as a warning and
    ignored; so is an error while reading the output, be it the error of the
    pipe or, for a line of 65536 bytes or more, "bufio.Scanner: token too
    long"; every non-empty line that is read and does not parse is logged
    with a warning and ignored, and when every line is shorter than 65536
    bytes every output line is read; a tool that printed nothing yields a
    successful scan with no findings. *)
Theorem trufflehog_started_returns_nil (W : World) (sourceDir : string) (st : State) :
  TruffleHogScanner.IsAvailable W = true ->
  StdoutPipe W = None ->
  Start W = None ->
  let (r, st') := TruffleHogScanner.Scan W sourceDir st in
  snd r = None /\
  (stdout W = "" -> fst r = []) /\
  (forall e, Wait W = Some e -> In (exitWarning e) (logs st')) /\
  (forall e, readErr W = Some e -> shortLines (stdout W) -> In (readWarning e) (logs st')) /\
  (forall line, In line (rawLines (stdout W)) -> bufio.fits line = false ->
                In (readWarning bufio.ErrTooLong) (logs st')) /\
  (forall line e, In line (readLines (stdout W)) -> line <> "" ->
                  unmarshalTruffleHog W line = Err e -> In (parseWarning e) (logs st')) /\
  (shortLines (stdout W) -> readLines (stdout W) = outputLines (stdout W)).
Proof.
  intros Havail Hpipe Hstart.
  destruct (trufflehog_started W sourceDir st Havail Hpipe Hstart) as [Hr Hlogs].
  cbv zeta in Hr, Hlogs.
  pose proof (scanLines_logs W (stdoutLines W) [] (snd (info "Starting TruffleHog scan" st)))
    as [_ Hwarn].
  destruct (TruffleHogScanner.Scan W sourceDir st) as [r st']. cbn [fst snd] in *.
  subst r. cbn [fst snd]. rewrite Hlogs.
  split; [reflexivity|]. split; [|split; [|split; [|split; [|split]]]].
  - intros Hnone. unfold stdoutLines. rewrite Hnone. reflexivity.
  - intros e ->. rewrite !in_app_iff. right. right. left. left. reflexivity.
  - intros e He Hshort. destruct (shortLines_read W Hshort) as [_ ->]. rewrite He.
    rewrite !in_app_iff. right. left. left. reflexivity.
  - intros line Hin Hfits. rewrite (overlong_error W line Hin Hfits).
    rewrite !in_app_iff. right. left. left. reflexivity.
  - intros line e Hin Hne Herr. rewrite <- stdoutLines_spec in Hin.
    apply in_or_app. left. now apply (Hwarn line e).
  - intros Hshort. now apply shortLines_read.
Qed.

Lemma trufflehog_started_returns_nil_witness :
  fst (TruffleHogScanner.Scan Fixtures.crashed "/workspace" initial) = ([], None) /\
  In (exitWarning "signal: killed")
     (logs (snd (TruffleHogScanner.Scan Fixtures.crashed "/workspace" initial))) /\
  In (parseWarning "invalid character")
     (logs (snd (TruffleHogScanner.Scan Fixtures.streamed "/workspace" initial))).
Proof.
  pose proof (trufflehog_started_returns_nil Fixtures.crashed "/workspace" initial
                eq_refl eq_refl eq_refl) as H.
  pose proof (trufflehog_started_returns_nil Fixtures.streamed "/workspace" initial
                eq_refl eq_refl eq_refl) as H'.
  destruct (TruffleHogScanner.Scan Fixtures.crashed "/workspace" initial) as [[fs err] st'].
  destruct (TruffleHogScanner.Scan Fixtures.streamed "/workspace" initial) as [r2 st2].
  destruct H as (Herr & Hfs & Hexit & _).
  destruct H' as (_ & _ & _ & _ & _ & Hparse & _).
  cbn [fst snd] in *. split; [|split].
  - now rewrite Herr, (Hfs eq_refl).
  - now apply Hexit.
  - apply (Hparse "garbage").
    + vm_compute. right. right. left. reflexivity.
    + discriminate.
    + reflexivity.
Defined.

(* Not every output line that does not parse is logged: a line that follows
   a line of 70000 letters is never read, so no warning tells of it. *)
Lemma unread_line_counterexample :
  TruffleHogScanner.IsAvailable Fixtures.overlong = true /\
  StdoutPipe Fixtures.overlong = None /\
  Start Fixtures.overlong = None /\
  nth_error (outputLines (stdout Fixtures.overlong)) 2 = Some "garbage" /\
  malformed Fixtures.overlong "garbage" = true /\
  snd (fst (TruffleHogScanner.Scan Fixtures.overlong "/workspace" initial)) = None /\
  filter isParseWarning
    (logs (snd (TruffleHogScanner.Scan Fixtures.overlong "/workspace" initial))) = [].
Proof.
  split; [reflexivity|]. split; [reflexivity|]. split; [reflexivity|].
  split; [vm_compute; reflexivity|].
  vm_compute. repeat split; reflexivity.
Qed.

(** *** The downloader *)

(** C10: downloadFile takes status 200, and no other, for success: a response
    with any other status code makes it return an error before it creates
    the file, and DownloadAndExtract then fails having done nothing but
    create the destination directory and remove the temporary file; with
    status 200 the file is created and written. *)
Theorem download_succeeds_on_200_only (W : World) (url destDir path : string)
    (resp : Response) (st : State) :
  NewRequest W url = None ->
  Do W url = Ok resp ->
  (StatusCode resp <> 200%Z ->
     downloader.downloadFile W url path st
       = (Some ("download failed with status: " ++ StatusText resp), st) /\
     let (err, st') := downloader.DownloadAndExtract W url destDir st in
     err <> None /\
     (fsops st' = (fsops st ++ [MkdirAll destDir 493])%list \/
      fsops st' = (fsops st ++ [MkdirAll destDir 493;
                                Remove (filepath.Join [TempDir W; "source.zip"])])%list)) /\
  (StatusCode resp = 200%Z ->
     fsAnswer W (fsops st) (Create path) = None ->
     fsAnswer W (fsops st ++ [Create path]) (Copy path (Body resp)) = None ->
     let (err, st') := downloader.downloadFile W url path st in
     err = None /\ fsops st' = (fsops st ++ [Create path; Copy path (Body resp)])%list).
Proof.
  intros Hreq Hdo. split.
  - intros Hstatus.
    assert (Hneq : (StatusCode resp =? 200)%Z = false) by now apply Z.eqb_neq.
    assert (Hdl : forall p s, downloader.downloadFile W url p s
                              = (Some ("download failed with status: " ++ StatusText resp), s)).
    { intros p s. unfold downloader.downloadFile. now rewrite Hreq, Hdo, Hneq. }
    split; [apply Hdl|].
    unfold downloader.DownloadAndExtract. run.
    destruct (fsAnswer W (fsops st) (MkdirAll destDir 493)) as [e|]; simpl.
    + split; [discriminate|]. now left.
    + rewrite Hdl. simpl. split; [discriminate|]. right.
      now rewrite <- app_assoc.
  - intros Hstatus Hcreate Hcopy.
    unfold downloader.downloadFile. rewrite Hreq, Hdo, Hstatus. run.
    rewrite Hcreate. simpl. rewrite Hcopy. simpl.
    split; [reflexivity|]. now rewrite <- app_assoc.
Qed.

Lemma download_succeeds_on_200_only_witness :
  downloader.downloadFile Fixtures.noContent "https://bucket/source.zip" "/tmp/source.zip" initial
    = (Some "download failed with status: 204 No Content", initial) /\
  fst (downloader.DownloadAndExtract Fixtures.noContent "https://bucket/source.zip" "/workspace"
         initial) <> None.
Proof.
  destruct (download_succeeds_on_200_only Fixtures.noContent "https://bucket/source.zip"
              "/workspace" "/tmp/source.zip"
              {| StatusCode := 204; StatusText := "204 No Content"; Body := "" |} initial
              eq_refl eq_refl) as [Hother _].
  destruct Hother as [Hdl Hall]; [discriminate|].
  split; [exact Hdl|].
  destruct (downloader.DownloadAndExtract _ _ _ _) as [err st'].
  exact (proj1 Hall).
Defined.

(** *** The path check of the extraction *)

Lemma split_nonempty (p : string) : filepath.split p <> [].
Proof.
  destruct p as [|c p]; simpl; [discriminate|].
  destruct (Ascii.eqb c "/"); [discriminate|].
  destruct (filepath.split p); discriminate.
Qed.

Lemma split_app (a b : string) :
  filepath.split (a ++ "/" ++ b) = (filepath.split a ++ filepath.split b)%list.
Proof.
  change ("/" ++ b) with (String "/" b).
  induction a as [|c a IH]; [reflexivity|].
  cbn [append filepath.split]. rewrite IH.
  destruct (Ascii.eqb c "/"); [reflexivity|].
  pose proof (split_nonempty a) as Ha.
  destruct (filepath.split a); [contradiction|reflexivity].
Qed.

(* The elements of a path hold no separator. *)
Lemma split_elements (p : string) :
  Forall (fun e => filepath.split e = [e]) (filepath.split p).
Proof.
  induction p as [|c p IH]; simpl; [repeat constructor|].
  destruct (Ascii.eqb c "/") eqn:Hc; [constructor; [reflexivity|exact IH]|].
  destruct (filepath.split p) as [|e es]; [repeat constructor; simpl; now rewrite Hc|].
  inversion IH as [|? ? He Hes]; subst. constructor; [|exact Hes].
  simpl. now rewrite Hc, He.
Qed.

Lemma split_join (es : list string) :
  es <> [] ->
  Forall (fun e => filepath.split e = [e]) es ->
  filepath.split (filepath.join es) = es.
Proof.
  induction es as [|e es IH]; intros Hne Hall; [contradiction|].
  inversion Hall as [|? ? He Hes]; subst.
  destruct es as [|e' es]; [exact He|].
  change (filepath.join (e :: e' :: es)) with (e ++ "/" ++ filepath.join (e' :: es)).
  rewrite split_app, He, IH; [reflexivity|discriminate|exact Hes].
Qed.

Lemma prefix_app (pre p : string) :
  prefix pre p = true -> exists rest, p = pre ++ rest.
Proof.
  revert p. induction pre as [|c pre IH]; intros p H.
  - now exists p.
  - destruct p as [|d p]; [discriminate|]. simpl in H.
    destruct (ascii_dec c d) as [->|]; [|discriminate].
    destruct (IH p H) as [rest ->]. now exists rest.
Qed.

Lemma kept_dotdot : kept "..".
Proof. repeat split; discriminate. Qed.

Lemma cleanStep_inv (isRooted : bool) (stack : list string) (e : string) :
  filepath.split e = [e] ->
  cleanInv isRooted stack ->
  cleanInv isRooted (filepath.cleanStep isRooted stack e).
Proof.
  intros He (Hkept & Hshape & Hroot). unfold filepath.cleanStep.
  destruct (e =? "") eqn:E1; [now repeat split|].
  destruct (e =? ".") eqn:E2; [now repeat split|]. cbn [orb].
  apply String.eqb_neq in E1, E2.
  destruct (e =? "..") eqn:E3.
  - destruct stack as [|top below].
    + destruct isRooted; repeat split; auto using kept_dotdot; try discriminate;
        try (intros _; constructor).
    + destruct (top =? "..") eqn:E4.
      * apply String.eqb_eq in E4. subst top.
        split; [constructor; [apply kept_dotdot|exact Hkept]|]. split.
        -- split; [|exact Hshape]. intros _. constructor; [reflexivity|].
           now apply Hshape.
        -- intros Hr. specialize (Hroot Hr). inversion Hroot; congruence.
      * inversion Hkept; subst. destruct Hshape as [_ Hbelow].
        split; [assumption|]. split; [assumption|].
        intros Hr. specialize (Hroot Hr). now inversion Hroot.
  - apply String.eqb_neq in E3.
    split; [constructor; [repeat split; assumption|exact Hkept]|]. split.
    + split; [intros; congruence|exact Hshape].
    + intros Hr. constructor; [exact E3|auto].
Qed.

Lemma cleanElems_inv (path : string) :
  cleanInv (filepath.rooted path) (rev (filepath.cleanElems path)).
Proof.
  unfold filepath.cleanElems. rewrite rev_involutive.
  assert (Hinit : cleanInv (filepath.rooted path) []).
  { repeat split; constructor. }
  revert Hinit. generalize (@nil string).
  pose proof (split_elements path) as Hall.
  induction Hall as [|e es He Hes IH]; intros stack Hinv; simpl; [exact Hinv|].
  apply IH. now apply cleanStep_inv.
Qed.

Lemma filter_kept (es : list string) :
  Forall kept es -> filter (fun e => negb ((e =? "") || (e =? "."))) es = es.
Proof.
  induction 1 as [|e es (H1 & H2 & _) _ IH]; [reflexivity|]. simpl.
  apply String.eqb_neq in H1, H2. now rewrite H1, H2, IH.
Qed.

(* The elements of a cleaned path. *)
Lemma split_Clean (path : string) :
  filepath.split (filepath.Clean path)
  = match filepath.cleanElems path with
    | [] => if filepath.rooted path then [""; ""] else ["."]
    | es => if filepath.rooted path then "" :: es else es
    end.
Proof.
  destruct (cleanElems_inv path) as (Hkept & _ & _).
  apply Forall_rev in Hkept. rewrite rev_involutive in Hkept.
  assert (Hsplit : filepath.cleanElems path <> [] ->
                   filepath.split (filepath.join (filepath.cleanElems path))
                   = filepath.cleanElems path).
  { intros Hne. apply split_join; [exact Hne|].
    eapply Forall_impl; [|exact Hkept]. now intros e (_ & _ & He). }
  unfold filepath.Clean.
  destruct (path =? "") eqn:Hempty.
  - apply String.eqb_eq in Hempty. subst path. reflexivity.
  - destruct (filepath.rooted path).
    + change ("/" ++ filepath.join (filepath.cleanElems path))
        with (String "/" (filepath.join (filepath.cleanElems path))).
      cbn [filepath.split Ascii.eqb Bool.eqb]. 
      destruct (filepath.cleanElems path) as [|e es]; [reflexivity|].
      now rewrite Hsplit.
    + destruct (filepath.cleanElems path) as [|e es]; [reflexivity|].
      now rewrite Hsplit.
Qed.

Lemma names_Clean (path : string) :
  filepath.names (filepath.Clean path) = filepath.cleanElems path.
Proof.
  unfold filepath.names. rewrite split_Clean.
  destruct (cleanElems_inv path) as (Hkept & _ & _).
  apply Forall_rev in Hkept. rewrite rev_involutive in Hkept.
  destruct (filepath.cleanElems path) as [|e es] eqn:Hes.
  - destruct (filepath.rooted path); reflexivity.
  - destruct (filepath.rooted path); [|now apply filter_kept].
    transitivity (filter (fun x => negb ((x =? "") || (x =? "."))) (e :: es));
      [reflexivity|now apply filter_kept].
Qed.

Lemma climbs_above (xs : list string) (top : string) (below : list string) :
  climbsFirst (xs ++ top :: below) -> top <> ".." -> Forall (fun e => e <> "..") xs.
Proof.
  intros Hshape Htop. induction xs as [|x xs IH]; [constructor|].
  destruct Hshape as [Hx Hrest]. constructor; [|now apply IH].
  intros ->. specialize (Hx eq_refl).
  apply Forall_app in Hx as [_ Hx]. inversion Hx; subst. now apply Htop.
Qed.

Lemma descends_app (root rest : list string) :
  filepath.descends root (root ++ rest) = forallb (fun e => negb (e =? "..")) rest.
Proof.
  induction root as [|r root IH]; [now destruct rest|].
  simpl. now rewrite String.eqb_refl.
Qed.

Lemma Join_cleaned (destDir name : string) :
  filepath.Join [destDir; name] = "" \/
  exists q, filepath.Join [destDir; name] = filepath.Clean q.
Proof.
  unfold filepath.Join.
  destruct (destDir =? ""); [|right; eauto].
  destruct (name =? ""); [now left|right; eauto].
Qed.

Lemma Clean_nonempty (path : string) : filepath.Clean path <> "".
Proof.
  intros H. pose proof (split_Clean path) as Hs. rewrite H in Hs.
  destruct (cleanElems_inv path) as (Hkept & _ & _).
  apply Forall_rev in Hkept. rewrite rev_involutive in Hkept.
  destruct (filepath.cleanElems path) as [|e es]; destruct (filepath.rooted path);
    try discriminate.
  inversion Hs; subst. inversion Hkept as [|? ? (He & _) _]; subst. now apply He.
Qed.

Lemma rooted_app (s t : string) : s <> "" -> filepath.rooted (s ++ t) = filepath.rooted s.
Proof.
  destruct s as [|a s]; [contradiction|]. intros _. unfold filepath.rooted.
  cbn [append prefix].
  destruct (ascii_dec "/" a); [|reflexivity].
  now destruct s, t.
Qed.

(* The path check of extractFile is sound when the cleaned destination
   directory does not end in a ".." element: an entry that passes it resolves
   to a path within the directory. *)
Lemma zipslip_check_sound (destDir name : string) :
  last (filepath.names (filepath.Clean destDir)) "" <> ".." ->
  filepath.HasPrefix (filepath.Join [destDir; name])
    (filepath.Clean destDir ++ filepath.Separator) = true ->
  filepath.within (filepath.Clean destDir) (filepath.Join [destDir; name]) = true.
Proof.
  intros Hlast Hpre. unfold filepath.HasPrefix, filepath.Separator in Hpre.
  apply prefix_app in Hpre as [rest Hp]. rewrite append_assoc in Hp.
  pose proof (Clean_nonempty destDir) as Hroot.
  set (root := filepath.Clean destDir) in *.
  set (p := filepath.Join [destDir; name]) in *.
  assert (Hsplit : filepath.split p = (filepath.split root ++ filepath.split rest)%list).
  { rewrite Hp. apply split_app. }
  assert (Hnames : filepath.names p = (filepath.names root ++ filepath.names rest)%list).
  { unfold filepath.names. now rewrite Hsplit, filter_app. }
  unfold filepath.within. rewrite Hnames, descends_app.
  assert (Hrooted : filepath.rooted p = filepath.rooted root).
  { rewrite Hp. now apply rooted_app. }
  rewrite Hrooted, Bool.eqb_reflx. cbn [andb].
  destruct (Join_cleaned destDir name) as [Hempty|[q Hq]]; fold p in Hempty || fold p in Hq.
  { rewrite Hp in Hempty. destruct root; [contradiction|discriminate]. }
  pose proof (split_Clean q) as Hsq. rewrite <- Hq, Hsplit in Hsq.
  pose proof (names_Clean q) as Hnq. rewrite <- Hq, Hnames in Hnq.
  destruct (cleanElems_inv q) as (Hkq & Hshape & _).
  apply Forall_rev in Hkq. rewrite rev_involutive in Hkq.
  pose proof (split_Clean destDir) as Hsr. fold root in Hsr.
  pose proof (names_Clean destDir) as Hnr. fold root in Hnr.
  pose proof (split_nonempty rest) as Hrest.
  destruct (filepath.names root) as [|r0 rs0] eqn:Hroots.
  - (* the root is "/" or ".": nothing cleaned starts with "//" or "./" *)
    exfalso. rewrite <- Hnr in Hsr.
    destruct (filepath.cleanElems q) as [|e es];
      destruct (filepath.rooted destDir), (filepath.rooted q);
      rewrite Hsr in Hsq; cbn [app] in Hsq;
      destruct (filepath.split rest); try contradiction; try discriminate;
      inversion Hsq; subst; inversion Hkq as [|? ? (H1 & H2 & _) _]; congruence.
  - assert (Hne : r0 :: rs0 <> []) by discriminate.
    destruct (exists_last Hne) as (init & top & Heq). rewrite Heq in *.
    rewrite last_last in Hlast.
    rewrite <- Hnq, rev_app_distr, rev_app_distr in Hshape. cbn [rev app] in Hshape.
    apply climbs_above in Hshape; [|exact Hlast].
    apply Forall_rev in Hshape. rewrite rev_involutive in Hshape.
    apply forallb_forall. intros e He. rewrite Forall_forall in Hshape.
    apply negb_true_iff, String.eqb_neq. now apply Hshape.
Qed.

Lemma extractFile_rejects (W : World) (f : ZipFile) (destDir : string) (st : State) :
  last (filepath.names (filepath.Clean destDir)) "" <> ".." ->
  filepath.within (filepath.Clean destDir) (filepath.Join [destDir; zf_Name f]) = false ->
  downloader.extractFile W f destDir st = (Some ("invalid file path: " ++ zf_Name f), st).
Proof.
  intros Hroot Hout. unfold downloader.extractFile.
  destruct (filepath.HasPrefix _ _) eqn:Hpre; [|reflexivity].
  apply zipslip_check_sound in Hpre; [congruence|exact Hroot].
Qed.

(* Extraction into a directory whose cleaned path does not end in ".."
   (every absolute directory is one): an archive with an entry that resolves
   outside the directory is not extracted to the end, and the entry itself
   is rejected before anything is written for it. *)
Lemma extractZip_rejects_escaping_entry (W : World) (zipPath destDir : string)
    (f : ZipFile) (st : State) :
  last (filepath.names (filepath.Clean destDir)) "" <> ".." ->
  filepath.within (filepath.Clean destDir) (filepath.Join [destDir; zf_Name f]) = false ->
  (forall files, OpenReader W zipPath = Ok files -> In f files) ->
  fst (downloader.extractZip W zipPath destDir st) <> None /\
  forall st1, downloader.extractFile W f destDir st1
              = (Some ("invalid file path: " ++ zf_Name f), st1).
Proof.
  intros Hroot Hout Hin. split; [|intros; now apply extractFile_rejects].
  unfold downloader.extractZip.
  destruct (OpenReader W zipPath) as [files|e]; [|discriminate].
  specialize (Hin files eq_refl). revert st.
  induction files as [|g files IH]; intros st; [contradiction|].
  cbn [downloader.extractFiles]. rewrite bind_eq.
  destruct Hin as [->|Hin].
  - rewrite extractFile_rejects by assumption. discriminate.
  - destruct (fst (downloader.extractFile W g destDir st)); [discriminate|].
    now apply IH.
Qed.

Lemma rooted_Clean_names (destDir : string) :
  filepath.rooted destDir = true ->
  last (filepath.names (filepath.Clean destDir)) "" <> "..".
Proof.
  intros Hr. rewrite names_Clean.
  destruct (cleanElems_inv destDir) as (_ & _ & Hno).
  specialize (Hno Hr). apply Forall_rev in Hno. rewrite rev_involutive in Hno.
  destruct (filepath.cleanElems destDir) as [|e es] eqn:Hes; [discriminate|].
  assert (Hne : e :: es <> []) by discriminate.
  destruct (exists_last Hne) as (init & top & Heq). rewrite Heq in *.
  rewrite last_last. apply Forall_app in Hno as [_ Hno]. now inversion Hno.
Qed.

(** C2, at an input on which the code breaks it: extracted into the relative
    directory "..", the entry "../evil" resolves to "../../evil", which is
    outside ".."; the path check lets it through and the file is written. *)
Theorem extractZip_escapes_parent_directory :
  let W := Fixtures.climbing in
  let destDir := ".." in
  let destPath := filepath.Join [destDir; zf_Name Fixtures.evil] in
  OpenReader W "/tmp/source.zip" = Ok [Fixtures.evil] /\
  destPath = "../../evil" /\
  filepath.within (filepath.Clean destDir) destPath = false /\
  downloader.extractZip W "/tmp/source.zip" destDir initial
  = (None, {| logs := []; rpcs := [];
              fsops := [MkdirAll "../.." 493; OpenFile "../../evil" 420;
                        Copy "../../evil" "x"] |}).
Proof.
  vm_compute. repeat split.
Qed.

(* The same archive extracted into the default working directory: the entry
   is rejected and nothing is written. *)
Example extractZip_rejects_in_workspace :
  downloader.extractZip Fixtures.climbing "/tmp/source.zip" "/workspace" initial
  = (Some "failed to extract ../evil: invalid file path: ../evil", initial).
Proof. reflexivity. Qed.

(** *** The parallel fan-out *)

Lemma store_length {A} (l : list A) (i : nat) (v : A) :
  List.length (store l i v) = List.length l.
Proof.
  revert i. induction l as [|x l IH]; intros [|i]; simpl; auto.
Qed.

Lemma store_same {A} (l : list A) (i : nat) (v : A) :
  i < List.length l -> nth_error (store l i v) i = Some v.
Proof.
  revert i. induction l as [|x l IH]; intros [|i] Hi; simpl in *; try lia; auto.
  apply IH. lia.
Qed.

Lemma store_other {A} (l : list A) (i j : nat) (v : A) :
  i <> j -> nth_error (store l i v) j = nth_error l j.
Proof.
  revert i j. induction l as [|x l IH]; intros [|i] [|j] Hij; simpl; auto; try lia.
Qed.

Lemma removeNth_length {A} (k : nat) (l : list A) :
  k < List.length l -> S (List.length (removeNth k l)) = List.length l.
Proof.
  revert k. induction l as [|x l IH]; intros [|k] Hk; simpl in *; try lia.
  rewrite IH; lia.
Qed.

Lemma removeNth_incl {A} (k : nat) (l : list A) (x : A) :
  In x (removeNth k l) -> In x l.
Proof.
  revert k. induction l as [|y l IH]; intros [|k]; simpl; auto.
  intros [H|H]; eauto.
Qed.

Lemma removeNth_keeps {A} (k : nat) (l : list A) (d x : A) :
  In x l -> x = nth k l d \/ In x (removeNth k l).
Proof.
  revert k. induction l as [|y l IH]; intros [|k]; simpl; auto.
  - intros [H|H]; auto.
  - intros [H|H]; auto. destruct (IH k H); auto.
Qed.

Lemma in_started {A} (l : list A) (a i : nat) (x : A) :
  In (i, x) (combine (seq a (List.length l)) l) <-> a <= i /\ nth_error l (i - a) = Some x.
Proof.
  revert a. induction l as [|y l IH]; intros a; simpl.
  - split; [tauto|]. intros [_ H]. destruct (i - a); discriminate.
  - rewrite IH. split.
    + intros [H|[Hle H]].
      * inversion H; subst. rewrite Nat.sub_diag. auto.
      * split; [lia|]. replace (i - a) with (S (i - S a)) by lia. exact H.
    + intros [Hle H]. destruct (i - a) as [|n] eqn:Hn.
      * left. inversion H. f_equal. lia.
      * right. split; [lia|]. replace (i - S a) with n by lia. exact H.
Qed.

Lemma goroutine_slot (sourceDir : string) (idx : nat) (scnr : scanners.Scanner)
    (results : list (option scanners.Result)) (st : State) :
  exists findings err,
    fst (goroutine sourceDir idx scnr results st)
    = store results idx
        (Some {| scanners.Findings := findings;
                 scanners.ScanType_ := scanners.ScanType scnr;
                 scanners.ScannerName := scanners.Name scnr;
                 scanners.Error := err |}).
Proof.
  unfold goroutine. run.
  destruct (scanners.Scan scnr sourceDir _) as [[findings err] st1].
  exists findings, err. destruct err; reflexivity.
Qed.

Lemma goroutine_inv (scannerList : list scanners.Scanner) (sourceDir : string)
    (unfinished : list (nat * scanners.Scanner)) (results : list (option scanners.Result))
    (k : nat) (first : nat * scanners.Scanner) (st : State) :
  slotsInv scannerList unfinished results ->
  k < List.length unfinished ->
  slotsInv scannerList (removeNth k unfinished)
    (fst (goroutine sourceDir (fst (nth k unfinished first)) (snd (nth k unfinished first))
            results st)).
Proof.
  intros (Hlen & Hpend & Hall) Hk.
  pose proof (nth_In unfinished first Hk) as Hin.
  destruct (nth k unfinished first) as [idx scnr] eqn:Hnth. cbn [fst snd].
  destruct (goroutine_slot sourceDir idx scnr results st) as (findings & err & ->).
  pose proof (Hpend _ _ Hin) as Hidx.
  assert (Hlt : idx < List.length results).
  { rewrite Hlen. apply nth_error_Some. congruence. }
  split; [|split].
  - now rewrite store_length.
  - intros i s Hi. apply Hpend. eapply removeNth_incl; eauto.
  - intros i s Hs. destruct (Nat.eq_dec idx i) as [->|Hne].
    + right. rewrite store_same by exact Hlt.
      assert (s = scnr) by congruence. subst s.
      eexists. split; [reflexivity|]. split; reflexivity.
    + rewrite store_other by exact Hne.
      destruct (Hall i s Hs) as [Hp|Hf]; [|now right].
      destruct (removeNth_keeps k unfinished first (i, s) Hp) as [Heq|Hrem]; [|now left].
      rewrite Hnth in Heq. inversion Heq. congruence.
Qed.

Lemma wait_inv (W : World) (scannerList : list scanners.Scanner) (sourceDir : string) (n : nat) :
  forall unfinished results st,
    slotsInv scannerList unfinished results ->
    List.length unfinished <= n ->
    slotsInv scannerList [] (fst (wait W n sourceDir unfinished results st)).
Proof.
  induction n as [|n IH]; intros unfinished results st Hinv Hn.
  - destruct unfinished; simpl in *; [exact Hinv|lia].
  - destruct unfinished as [|first rest]; [exact Hinv|].
    cbn [wait]. set (unf := first :: rest) in *.
    set (k := pick W (map fst unf) mod List.length unf).
    assert (Hk : k < List.length unf).
    { apply Nat.mod_upper_bound. unfold unf. simpl. lia. }
    pose proof (goroutine_inv scannerList sourceDir unf results k first st Hinv Hk) as Hstep.
    destruct (nth k unf first) as [idx scnr]. cbn [fst snd] in Hstep.
    rewrite bind_eq. apply IH; [exact Hstep|].
    pose proof (removeNth_length k unf Hk). lia.
Qed.

Lemma runScannersParallel_inv (W : World) (scannerList : list scanners.Scanner)
    (sourceDir : string) (st : State) :
  slotsInv scannerList [] (fst (runScannersParallel W scannerList sourceDir st)).
Proof.
  unfold runScannersParallel.
  set (started := combine (seq 0 (List.length scannerList)) scannerList).
  apply wait_inv; [|apply Nat.le_refl].
  split; [apply repeat_length|]. split.
  - intros idx scnr Hin. apply in_started in Hin. destruct Hin as [_ H].
    now rewrite Nat.sub_0_r in H.
  - intros idx scnr H. left. apply in_started. rewrite Nat.sub_0_r. split; [lia|exact H].
Qed.

(** C3: runScannersParallel returns as many results as it was given scanners,
    and the result at each index carries the name and the scan type of the
    scanner at that index, in whatever order the goroutines finish. *)
Theorem runScannersParallel_index_correspondence (W : World)
    (scannerList : list scanners.Scanner) (sourceDir : string) (st : State) :
  let results := fst (runScannersParallel W scannerList sourceDir st) in
  List.length results = List.length scannerList /\
  forall i scnr,
    nth_error scannerList i = Some scnr ->
    exists r, nth_error results i = Some (Some r) /\
              scanners.ScannerName r = scanners.Name scnr /\
              scanners.ScanType_ r = scanners.ScanType scnr.
Proof.
  cbv zeta.
  destruct (runScannersParallel_inv W scannerList sourceDir st) as (Hlen & _ & Hall).
  split; [exact Hlen|].
  intros i scnr Hi. destruct (Hall i scnr Hi) as [[]|Hf]. exact Hf.
Qed.

Lemma runScannersParallel_index_correspondence_witness :
  exists r,
    nth_error (fst (runScannersParallel Fixtures.lastFirst
                      [TruffleHogScanner.New Fixtures.lastFirst;
                       SemgrepScanner.New Fixtures.lastFirst] "/workspace" initial)) 1
    = Some (Some r) /\
    scanners.ScannerName r = "semgrep" /\
    scanners.ScanType_ r = pb.ScanType_SAST.
Proof.
  exact (proj2 (runScannersParallel_index_correspondence Fixtures.lastFirst
                  [TruffleHogScanner.New Fixtures.lastFirst;
                   SemgrepScanner.New Fixtures.lastFirst] "/workspace" initial)
               1 (SemgrepScanner.New Fixtures.lastFirst) eq_refl).
Defined.

(** *** Computations that send nothing to the orchestrator *)

Lemma quiet_ret {A} (a : A) : quiet (ret a).
Proof. intros st. reflexivity. Qed.

Lemma quiet_bind {A B} (m : M A) (k : A -> M B) :
  quiet m -> (forall a, quiet (k a)) -> quiet (bind m k).
Proof.
  intros Hm Hk st. rewrite bind_eq, Hk. apply Hm.
Qed.

Lemma quiet_logf (l : Level) (msg : string) (e : option error) : quiet (logf l msg e).
Proof. intros st. reflexivity. Qed.

Lemma quiet_fsop (W : World) (op : FsOp) : quiet (fsop W op).
Proof. intros st. reflexivity. Qed.

Lemma quiet_whenErr (e : option error) (k : error -> M unit) :
  (forall err, quiet (k err)) -> quiet (whenErr e k).
Proof. intros Hk. destruct e; simpl; [apply Hk|apply quiet_ret]. Qed.

Lemma quiet_forRange {A B} (xs : list A) (body : B -> A -> M B) :
  (forall acc x, quiet (body acc x)) -> forall acc, quiet (forRange xs acc body).
Proof.
  intros Hbody. induction xs as [|x xs IH]; intros acc; simpl.
  - apply quiet_ret.
  - apply quiet_bind; [apply Hbody|exact IH].
Qed.

Ltac quiet_step :=
  first
    [ apply quiet_ret
    | apply quiet_logf
    | apply quiet_fsop
    | apply quiet_bind; [|intros]
    | apply quiet_whenErr; intros
    | apply quiet_forRange; intros
    | match goal with
      | |- quiet (match ?x with _ => _ end) => destruct x
      | |- quiet (if ?b then _ else _) => destruct b
      end ].

Ltac quiet_auto :=
  unfold info, debug, warn, logError; repeat quiet_step.

Lemma quiet_trivy (W : World) (sourceDir : string) : quiet (TrivyScanner.Scan W sourceDir).
Proof. unfold TrivyScanner.Scan. quiet_auto. Qed.

Lemma quiet_semgrep (W : World) (sourceDir : string) : quiet (SemgrepScanner.Scan W sourceDir).
Proof. unfold SemgrepScanner.Scan. quiet_auto. Qed.

Lemma quiet_scancode (W : World) (sourceDir : string) : quiet (ScanCodeScanner.Scan W sourceDir).
Proof. unfold ScanCodeScanner.Scan. quiet_auto. Qed.

Lemma quiet_trufflehog (W : World) (sourceDir : string) :
  quiet (TruffleHogScanner.Scan W sourceDir).
Proof.
  unfold TruffleHogScanner.Scan. quiet_auto.
  unfold TruffleHogScanner.scanLine. quiet_auto.
Qed.

Lemma quiet_download (W : World) (url destDir : string) :
  quiet (downloader.DownloadAndExtract W url destDir).
Proof.
  unfold downloader.DownloadAndExtract, downloader.downloadFile, downloader.extractZip.
  quiet_auto.
  match goal with |- quiet (downloader.extractFiles _ ?l _) => induction l as [|f fs IH] end;
    simpl; quiet_auto; auto.
  unfold downloader.extractFile. quiet_auto.
Qed.

Lemma addScanner_quiet (W : World) (scannerList : list scanners.Scanner) (scanType : string) :
  quiet (addScanner W scannerList scanType).
Proof. unfold addScanner. quiet_auto. Qed.

Lemma addScanner_scanners (W : World) (scannerList : list scanners.Scanner)
    (scanType : string) (st : State) :
  Forall quietScanner scannerList ->
  Forall quietScanner (fst (addScanner W scannerList scanType st)).
Proof.
  intros Hall. unfold addScanner.
  repeat match goal with
         | |- context [if ?b then _ else _] => destruct b
         end;
    simpl; try exact Hall;
    apply Forall_app; (split; [exact Hall|]); repeat constructor; intros d; simpl.
  - apply quiet_semgrep.
  - apply quiet_trivy.
  - apply quiet_trufflehog.
  - apply quiet_scancode.
Qed.

Lemma initializeScanners_quiet (W : World) (scanTypes : list string) :
  quiet (initializeScanners W scanTypes).
Proof.
  unfold initializeScanners. apply quiet_forRange. intros. apply addScanner_quiet.
Qed.

Lemma initializeScanners_scanners (W : World) (scanTypes : list string) (st : State) :
  Forall quietScanner (fst (initializeScanners W scanTypes st)).
Proof.
  unfold initializeScanners.
  assert (H : Forall quietScanner []) by constructor.
  revert H. generalize (@nil scanners.Scanner) as acc. revert st.
  induction scanTypes as [|t ts IH]; intros st acc Hacc; simpl.
  - exact Hacc.
  - rewrite bind_eq. apply IH. now apply addScanner_scanners.
Qed.

Lemma goroutine_quiet (sourceDir : string) (idx : nat) (scnr : scanners.Scanner)
    (results : list (option scanners.Result)) :
  quietScanner scnr -> quiet (goroutine sourceDir idx scnr results).
Proof.
  intros Hq. unfold goroutine. quiet_auto. apply Hq.
Qed.

Lemma wait_quiet (W : World) (sourceDir : string) (n : nat) :
  forall unfinished results,
    Forall (fun p => quietScanner (snd p)) unfinished ->
    quiet (wait W n sourceDir unfinished results).
Proof.
  induction n as [|n IH]; intros unfinished results Hall.
  - destruct unfinished; apply quiet_ret.
  - destruct unfinished as [|first rest]; [apply quiet_ret|].
    cbn [wait]. set (unf := first :: rest) in *.
    set (k := pick W (map fst unf) mod List.length unf).
    assert (Hk : k < List.length unf).
    { apply Nat.mod_upper_bound. unfold unf. simpl. lia. }
    pose proof (nth_In unf first Hk) as Hin.
    rewrite Forall_forall in Hall.
    pose proof (Hall _ Hin) as Hq.
    destruct (nth k unf first) as [idx scnr]. simpl in Hq.
    apply quiet_bind; [now apply goroutine_quiet|].
    intros results'. apply IH. apply Forall_forall.
    intros p Hp. apply Hall. eapply removeNth_incl; eauto.
Qed.

Lemma runScannersParallel_quiet (W : World) (scannerList : list scanners.Scanner)
    (sourceDir : string) :
  Forall quietScanner scannerList -> quiet (runScannersParallel W scannerList sourceDir).
Proof.
  intros Hall. unfold runScannersParallel. apply wait_quiet.
  apply Forall_forall. intros [idx scnr] Hin. simpl.
  apply in_combine_r in Hin. rewrite Forall_forall in Hall. now apply Hall.
Qed.

(* After wg.Wait() no slot is nil. *)
Lemma all_slots_filled {A} (l : list (option A)) :
  (forall i, i < List.length l -> exists r, nth_error l i = Some (Some r)) ->
  exists rs, l = map Some rs.
Proof.
  induction l as [|x l IH]; intros H.
  - now exists [].
  - destruct (H 0) as [r Hr]; [simpl; lia|]. simpl in Hr. inversion Hr; subst.
    destruct IH as [rs ->].
    + intros i Hi. apply (H (S i)). simpl. lia.
    + now exists (r :: rs).
Qed.

Lemma runScannersParallel_filled (W : World) (scannerList : list scanners.Scanner)
    (sourceDir : string) (st : State) :
  exists rs, fst (runScannersParallel W scannerList sourceDir st) = map Some rs.
Proof.
  destruct (runScannersParallel_inv W scannerList sourceDir st) as (Hlen & _ & Hall).
  apply all_slots_filled. intros i Hi. rewrite Hlen in Hi.
  destruct (nth_error scannerList i) as [scnr|] eqn:Hs.
  - destruct (Hall i scnr Hs) as [[]|(r & Hr & _)]. now exists r.
  - apply nth_error_None in Hs. lia.
Qed.

(** *** Reporting *)

Lemma errorMessage_field (msg : string) : (if negb (msg =? "") then msg else "") = msg.
Proof. destruct (msg =? "") eqn:H; simpl; [|reflexivity]. apply String.eqb_eq in H. now subst. Qed.

Lemma UpdateScanStatus_rpcs (W : World) (c : orchestrator.Client) (scanID : string)
    (status : pb.ScanStatus) (msg : string) (st : State) :
  rpcs (snd (orchestrator.UpdateScanStatus W c scanID status msg st))
  = (rpcs st ++ [statusRequest scanID status msg])%list.
Proof.
  unfold orchestrator.UpdateScanStatus, statusRequest. run.
  rewrite errorMessage_field.
  destruct (rpcAnswer W (rpcs st) _); reflexivity.
Qed.

Lemma collect_step (allFindings : list pb.Finding) (scanErrors : list string)
    (r : scanners.Result) (st : State) :
  exists st1,
    collect (Some (allFindings, scanErrors)) (Some r) st
    = (Some ((allFindings ++ succeededFindings [r])%list,
             (scanErrors ++ scanErrorsOf [r])%list), st1) /\
    rpcs st1 = rpcs st /\ fsops st1 = fsops st.
Proof.
  unfold collect, succeededFindings, scanErrorsOf, failed. cbn [flat_map].
  destruct (scanners.Error r) as [e|]; run; rewrite ?app_nil_r; eauto.
Qed.

(* The loop over the results gathers the findings of the adapters that
   succeeded and one error text for each that failed. *)
Lemma collect_spec (rs : list scanners.Result) :
  forall (allFindings : list pb.Finding) (scanErrors : list string) (st : State),
    let (acc, st') := forRange (map Some rs) (Some (allFindings, scanErrors)) collect st in
    acc = Some ((allFindings ++ succeededFindings rs)%list,
                (scanErrors ++ scanErrorsOf rs)%list) /\
    rpcs st' = rpcs st /\ fsops st' = fsops st.
Proof.
  induction rs as [|r rs IH]; intros allFindings scanErrors st.
  - simpl. now rewrite !app_nil_r.
  - cbn [map forRange]. rewrite bind_eq.
    destruct (collect_step allFindings scanErrors r st) as (st1 & -> & Hr & Hf).
    cbn [fst snd].
    specialize (IH (allFindings ++ succeededFindings [r])%list
                   (scanErrors ++ scanErrorsOf [r])%list st1).
    destruct (forRange _ _ _ _) as [acc st'].
    destruct IH as (-> & -> & ->).
    change (r :: rs) with ([r] ++ rs)%list.
    unfold succeededFindings, scanErrorsOf. rewrite !flat_map_app, !app_assoc. auto.
Qed.

Lemma CreateFindings_spec (W : World) (c : orchestrator.Client) (cfg : config.Config)
    (findings : list pb.Finding) (st : State) :
  (0 <? List.length findings)%nat = true ->
  fst (orchestrator.CreateFindings W c (config.ScanID cfg) findings st)
  = option_map (fun e => "failed to create findings: " ++ e)
      (rpcAnswer W (rpcs st) (uploadRequest cfg findings)) /\
  rpcs (snd (orchestrator.CreateFindings W c (config.ScanID cfg) findings st))
  = (rpcs st ++ [uploadRequest cfg findings])%list.
Proof.
  intros Hfs. unfold orchestrator.CreateFindings, uploadRequest.
  destruct findings; [discriminate|]. run.
  destruct (rpcAnswer W (rpcs st) _); simpl; auto.
Qed.

Lemma UpdateFindingsCount_rpcs (W : World) (c : orchestrator.Client) (scanID : string)
    (count : Z) (st : State) :
  rpcs (snd (orchestrator.UpdateFindingsCount W c scanID count st))
  = (rpcs st ++ [countRequest scanID count])%list.
Proof.
  unfold orchestrator.UpdateFindingsCount, countRequest. run.
  destruct (rpcAnswer W (rpcs st) _); reflexivity.
Qed.

Ltac mstep := rewrite bind_eq; cbn beta.

Lemma quiet_rpcs {A} (m : M A) (st : State) : quiet m -> rpcs (snd (m st)) = rpcs st.
Proof. intros H. apply H. Qed.

Lemma uploadFindings_spec (W : World) (c : orchestrator.Client) (cfg : config.Config)
    (allFindings : list pb.Finding) (scanErrors : list string) (st : State) :
  fst (uploadFindings W c cfg allFindings scanErrors st)
  = (scanErrors ++ uploadErrors W cfg allFindings (rpcs st))%list /\
  rpcs (snd (uploadFindings W c cfg allFindings scanErrors st))
  = (rpcs st ++
     if (0 <? List.length allFindings)%nat
     then [uploadRequest cfg allFindings;
           countRequest (config.ScanID cfg) (int32 (Z.of_nat (List.length allFindings)))]
     else [])%list.
Proof.
  unfold uploadFindings, uploadErrors.
  destruct (0 <? List.length allFindings)%nat eqn:Hfs.
  - mstep. mstep.
    set (st1 := snd (info "Uploading findings to orchestrator" st)).
    assert (Hst1 : rpcs st1 = rpcs st) by reflexivity.
    destruct (CreateFindings_spec W c cfg allFindings st1 Hfs) as [Herr Hsent].
    rewrite Hst1 in Herr, Hsent.
    destruct (orchestrator.CreateFindings W c (config.ScanID cfg) allFindings st1)
      as [err st2].
    cbn [fst snd] in *. subst err.
    mstep. mstep. mstep.
    destruct (rpcAnswer W (rpcs st) (uploadRequest cfg allFindings)) as [e|];
      cbn [option_map];
      [mstep|]; cbn [fst snd ret]; rewrite ?app_nil_r;
      (split; [reflexivity|]);
      (rewrite quiet_rpcs by (apply quiet_whenErr; intros; apply quiet_logf));
      rewrite UpdateFindingsCount_rpcs; cbn [logError logf snd rpcs];
      rewrite Hsent, <- app_assoc; reflexivity.
  - cbn [ret fst snd]. now rewrite !app_nil_r.
Qed.

(* What reportResults sends and returns, from the results of the adapters and
   the answer to CreateFindings. *)
Lemma reportResults_spec (W : World) (c : orchestrator.Client) (cfg : config.Config)
    (rs : list scanners.Result) (st : State) :
  let scanID := config.ScanID cfg in
  let allFindings := succeededFindings rs in
  let sent :=
    if (0 <? List.length allFindings)%nat
    then [uploadRequest cfg allFindings;
          countRequest scanID (int32 (Z.of_nat (List.length allFindings)))]
    else [] in
  let scanErrors := (scanErrorsOf rs ++ uploadErrors W cfg allFindings (rpcs st))%list in
  let (out, st') := reportResults W c cfg (map Some rs) st in
  (if (0 <? List.length scanErrors)%nat
   then out = Returns (Some ("scan had errors: " ++ sprintStrings scanErrors)) /\
        rpcs st' = (rpcs st ++ sent ++
                    [statusRequest scanID pb.ScanStatus_FAILED
                       ("Scan completed with errors: " ++ sprintStrings scanErrors)])%list
   else out = Returns None /\
        rpcs st' = (rpcs st ++ sent ++ [statusRequest scanID pb.ScanStatus_COMPLETED ""])%list).
Proof.
  cbv zeta. unfold reportResults. mstep.
  pose proof (collect_spec rs [] [] st) as Hc.
  destruct (forRange (map Some rs) (Some ([], [])) collect st) as [acc st1].
  destruct Hc as (-> & Hr1 & _). cbn [fst snd app]. mstep.
  destruct (uploadFindings_spec W c cfg (succeededFindings rs) (scanErrorsOf rs) st1)
    as [Herrs Hsent].
  rewrite Hr1 in Herrs, Hsent.
  destruct (uploadFindings W c cfg (succeededFindings rs) (scanErrorsOf rs) st1)
    as [scanErrors st2].
  cbn [fst snd] in *. subst scanErrors.
  set (scanErrors := (scanErrorsOf rs ++ _)%list).
  destruct (0 <? List.length scanErrors)%nat.
  - mstep. cbn [ret fst snd]. split; [reflexivity|].
    now rewrite UpdateScanStatus_rpcs, Hsent, <- app_assoc.
  - mstep. mstep. cbn [ret fst snd]. split; [reflexivity|].
    rewrite quiet_rpcs by (apply quiet_whenErr; intros; apply quiet_logf).
    now rewrite UpdateScanStatus_rpcs, Hsent, <- app_assoc.
Qed.

(** *** runScan *)

Lemma prepareSource_spec (W : World) (c : orchestrator.Client) (cfg : config.Config)
    (st : State) :
  let (err, st') := prepareSource W c cfg st in
  match err with
  | Some _ => exists msg,
      rpcs st' = (rpcs st ++ [statusRequest (config.ScanID cfg) pb.ScanStatus_FAILED msg])%list
  | None => rpcs st' = rpcs st
  end.
Proof.
  unfold prepareSource.
  destruct (negb (config.SourceDownloadURL cfg =? "")).
  - mstep. mstep.
    set (st1 := snd (info "Downloading source code from artifact" st)).
    pose proof (quiet_download W (config.SourceDownloadURL cfg) (config.WorkDir cfg) st1) as Hq.
    destruct (downloader.DownloadAndExtract W _ _ st1) as [[e|] st2]; cbn [fst snd] in *.
    + mstep. cbn [ret]. eexists. rewrite UpdateScanStatus_rpcs, Hq. reflexivity.
    + exact Hq.
  - destruct (negb (config.GitURL cfg =? "")).
    + mstep. mstep. unfold downloader.CloneGit at 1 2. cbn [ret fst snd].
      destruct (cloneGit W) as [e|].
      * mstep. cbn [ret]. eexists. rewrite UpdateScanStatus_rpcs. reflexivity.
      * reflexivity.
    + mstep. cbn [ret]. eexists. rewrite UpdateScanStatus_rpcs. reflexivity.
Qed.

Lemma scanStage_spec (W : World) (c : orchestrator.Client) (cfg : config.Config) (st : State) :
  let (stage, st') := scanStage W c cfg st in
  match stage with
  | Returned _ => exists msg,
      rpcs st' = (rpcs st ++ [statusRequest (config.ScanID cfg) pb.ScanStatus_RUNNING "";
                              statusRequest (config.ScanID cfg) pb.ScanStatus_FAILED msg])%list
  | Scanned results =>
      rpcs st' = (rpcs st ++ [statusRequest (config.ScanID cfg) pb.ScanStatus_RUNNING ""])%list /\
      exists rs, results = map Some rs
  end.
Proof.
  unfold scanStage. mstep. mstep.
  set (st1 := snd (whenErr _ _ _)).
  assert (Hst1 : rpcs st1
                 = (rpcs st ++ [statusRequest (config.ScanID cfg) pb.ScanStatus_RUNNING ""])%list).
  { unfold st1. rewrite quiet_rpcs by (apply quiet_whenErr; intros; apply quiet_logf).
    apply UpdateScanStatus_rpcs. }
  clearbody st1. mstep.
  pose proof (prepareSource_spec W c cfg st1) as Hprep.
  destruct (prepareSource W c cfg st1) as [[e|] st2]; cbn [fst snd].
  - destruct Hprep as [msg Hmsg]. exists msg. cbn [ret]. rewrite Hmsg, Hst1.
    now rewrite <- app_assoc.
  - mstep.
    pose proof (initializeScanners_quiet W (config.ScanTypes cfg) st2) as Hq.
    pose proof (initializeScanners_scanners W (config.ScanTypes cfg) st2) as Hall.
    destruct (initializeScanners W (config.ScanTypes cfg) st2) as [scannerList st3].
    cbn [fst snd] in *.
    destruct (List.length scannerList =? 0)%nat.
    + mstep. cbn [ret]. eexists.
      rewrite UpdateScanStatus_rpcs, Hq, Hprep, Hst1, <- app_assoc. reflexivity.
    + mstep. mstep. mstep. cbn [ret fst snd].
      set (st4 := snd (info "Starting parallel scan execution" _)).
      assert (Hst4 : rpcs st4 = rpcs st3) by reflexivity.
      split.
      * rewrite (runScannersParallel_quiet W scannerList (config.WorkDir cfg) Hall st4).
        now rewrite Hst4, Hq, Hprep.
      * apply runScannersParallel_filled.
Qed.

Lemma NewClient_quiet (W : World) (endpoint : string) : quiet (orchestrator.NewClient W endpoint).
Proof. unfold orchestrator.NewClient. quiet_auto. Qed.

(* When the run gets as far as the scanners, runScan is reportResults on
   their results, followed by the deferred Close. *)
Lemma runScan_scanned (W : World) (cfg : config.Config) (st : State)
    (c : orchestrator.Client) (results : list (option scanners.Result)) (st2 : State) :
  scanned W cfg st = Some (c, results, st2) ->
  runScan W cfg st
  = (fst (reportResults W c cfg results st2),
     snd (orchestrator.Close c (snd (reportResults W c cfg results st2)))).
Proof.
  unfold scanned, runScan. rewrite !bind_eq. cbn beta.
  destruct (orchestrator.NewClient W _ _) as [[c'|e] st1]; cbn [fst snd]; [|discriminate].
  rewrite !bind_eq. cbn beta.
  destruct (scanStage W c' cfg st1) as [[err|results'] st2']; [discriminate|].
  intros H. inversion H; subst. cbn [fst snd ret]. reflexivity.
Qed.

Lemma scanned_spec (W : World) (cfg : config.Config) (st : State)
    (c : orchestrator.Client) (results : list (option scanners.Result)) (st2 : State) :
  scanned W cfg st = Some (c, results, st2) ->
  rpcs st2 = (rpcs st ++ [statusRequest (config.ScanID cfg) pb.ScanStatus_RUNNING ""])%list /\
  exists rs, results = map Some rs.
Proof.
  unfold scanned. rewrite bind_eq. cbn beta.
  set (st0 := snd (info "Connecting to orchestrator" st)).
  pose proof (NewClient_quiet W (config.OrchestratorEndpoint cfg) st0) as Hq.
  destruct (orchestrator.NewClient W _ st0) as [[c'|e] st1]; [|discriminate].
  cbn [fst snd] in Hq.
  pose proof (scanStage_spec W c' cfg st1) as Hs.
  destruct (scanStage W c' cfg st1) as [[err|results'] st2']; [discriminate|].
  intros H. inversion H; subst. destruct Hs as [Hr Hrs]. split; [|exact Hrs].
  now rewrite Hr, Hq.
Qed.

Lemma statusUpdates_app (l1 l2 : list pb.Rpc) :
  statusUpdates (l1 ++ l2) = (statusUpdates l1 ++ statusUpdates l2)%list.
Proof. apply flat_map_app. Qed.

(* The requests of one call of runScan: none when the connection fails;
   RUNNING and FAILED when it returns before the scanners run; otherwise
   RUNNING, the upload if there is one, and one terminal status. *)
Lemma runScan_rpcs (W : World) (cfg : config.Config) (st : State) :
  let (out, st') := runScan W cfg st in
  out <> Panics /\
  exists sent,
    rpcs st' = (rpcs st ++ sent)%list /\
    (sent = [] \/
     exists uploaded status msg,
       sent = ([statusRequest (config.ScanID cfg) pb.ScanStatus_RUNNING ""] ++ uploaded ++
               [statusRequest (config.ScanID cfg) status msg])%list /\
       statusUpdates uploaded = [] /\ terminal status = true).
Proof.
  destruct (scanned W cfg st) as [[[c results] st2]|] eqn:Hsc.
  - (* the scanners ran *)
    rewrite (runScan_scanned W cfg st c results st2 Hsc).
    destruct (scanned_spec W cfg st c results st2 Hsc) as [Hr [rs ->]].
    pose proof (reportResults_spec W c cfg rs st2) as Hrep. cbv zeta in Hrep.
    destruct (reportResults W c cfg (map Some rs) st2) as [out st3]. cbn [fst snd].
    set (uploaded := if (0 <? List.length (succeededFindings rs))%nat then _ else _) in Hrep.
    assert (Hup : statusUpdates uploaded = []).
    { unfold uploaded. destruct (0 <? _)%nat; reflexivity. }
    destruct (0 <? List.length _)%nat in Hrep; destruct Hrep as [-> Hsent];
      (split; [discriminate|]);
      eexists; (split; [unfold orchestrator.Close; cbn [info logf snd rpcs];
                        rewrite Hsent, Hr, <- app_assoc; reflexivity|]);
      right; eexists uploaded, _, _; (split; [reflexivity|]); auto.
  - (* runScan returns before the scanners run *)
    revert Hsc. unfold scanned, runScan. rewrite !bind_eq. cbn beta.
    set (st0 := snd (info "Connecting to orchestrator" st)).
    pose proof (NewClient_quiet W (config.OrchestratorEndpoint cfg) st0) as Hq.
    destruct (orchestrator.NewClient W _ st0) as [[c|e] st1]; cbn [fst snd] in *.
    + rewrite !bind_eq. cbn beta.
      pose proof (scanStage_spec W c cfg st1) as Hs.
      destruct (scanStage W c cfg st1) as [[err|results] st2]; [|discriminate].
      intros _. cbn [fst snd ret]. destruct Hs as [msg Hmsg].
      split; [discriminate|].
      eexists. split; [unfold orchestrator.Close; cbn [info logf snd rpcs];
                       rewrite Hmsg, Hq; reflexivity|].
      right. exists [], pb.ScanStatus_FAILED, msg. auto.
    + intros _. cbn [ret]. split; [discriminate|].
      exists []. rewrite app_nil_r. auto.
Qed.

(** C8: the status updates of a call of runScan trace the life cycle in
    order: no update at all, or the RUNNING update followed by exactly one
    terminal update (COMPLETED or FAILED) and nothing after it. *)
Theorem status_updates_monotonic (W : World) (cfg : config.Config) (st : State) :
  let (out, st') := runScan W cfg st in
  exists sent,
    rpcs st' = (rpcs st ++ sent)%list /\
    monotonic (statusUpdates sent) = true /\
    (statusUpdates sent = [] \/
     statusUpdates sent = [pb.ScanStatus_RUNNING; pb.ScanStatus_COMPLETED] \/
     statusUpdates sent = [pb.ScanStatus_RUNNING; pb.ScanStatus_FAILED]).
Proof.
  pose proof (runScan_rpcs W cfg st) as H.
  destruct (runScan W cfg st) as [out st'].
  destruct H as (_ & sent & Hsent & Hshape).
  exists sent. split; [exact Hsent|].
  destruct Hshape as [->|(uploaded & status & msg & -> & Hup & Hterm)].
  - simpl. auto.
  - rewrite !statusUpdates_app, Hup. simpl.
    destruct status; try discriminate; simpl; auto.
Qed.

(* Both terminal statuses occur: a download answered 204 ends in FAILED, a
   scan without findings or errors in COMPLETED. *)
Example status_updates_of_two_runs :
  statusUpdates (rpcs (snd (runScan Fixtures.noContent
                              (Fixtures.cfg ["secrets"] "/workspace") initial)))
  = [pb.ScanStatus_RUNNING; pb.ScanStatus_FAILED] /\
  statusUpdates (rpcs (snd (runScan Fixtures.crashed
                              (Fixtures.cfg ["secrets"] "/workspace") initial)))
  = [pb.ScanStatus_RUNNING; pb.ScanStatus_COMPLETED].
Proof. vm_compute. split; reflexivity. Qed.

(* The requests and the outcome of a call of runScan in which the scanners
   ran, from their results and the answer to CreateFindings. *)
Lemma runScan_report (W : World) (cfg : config.Config) (st : State)
    (c : orchestrator.Client) (rs : list scanners.Result) (st2 : State) :
  scanned W cfg st = Some (c, map Some rs, st2) ->
  let scanID := config.ScanID cfg in
  let allFindings := succeededFindings rs in
  let uploaded :=
    if (0 <? List.length allFindings)%nat
    then [uploadRequest cfg allFindings;
          countRequest scanID (int32 (Z.of_nat (List.length allFindings)))]
    else [] in
  let scanErrors := (scanErrorsOf rs ++ uploadErrors W cfg allFindings (rpcs st2))%list in
  let (out, st') := runScan W cfg st in
  if (0 <? List.length scanErrors)%nat
  then out = Returns (Some ("scan had errors: " ++ sprintStrings scanErrors)) /\
       rpcs st' = (rpcs st ++ [statusRequest scanID pb.ScanStatus_RUNNING ""] ++ uploaded ++
                   [statusRequest scanID pb.ScanStatus_FAILED
                      ("Scan completed with errors: " ++ sprintStrings scanErrors)])%list
  else out = Returns None /\
       rpcs st' = (rpcs st ++ [statusRequest scanID pb.ScanStatus_RUNNING ""] ++ uploaded ++
                   [statusRequest scanID pb.ScanStatus_COMPLETED ""])%list.
Proof.
  intros Hsc. cbv zeta.
  rewrite (runScan_scanned W cfg st c _ st2 Hsc).
  destruct (scanned_spec W cfg st c _ st2 Hsc) as [Hr _].
  pose proof (reportResults_spec W c cfg rs st2) as Hrep. cbv zeta in Hrep.
  destruct (reportResults W c cfg (map Some rs) st2) as [out st3]. cbn [fst snd].
  unfold orchestrator.Close. cbn [info logf snd rpcs].
  set (scanErrors := (scanErrorsOf rs ++ _)%list) in *.
  destruct (0 <? List.length scanErrors)%nat; destruct Hrep as [-> ->];
    (split; [reflexivity|]); now rewrite Hr, <- !app_assoc.
Qed.

Lemma occursIn_app_l (sub s t : string) : occursIn sub s -> occursIn sub (s ++ t).
Proof.
  intros (b & a & ->). exists b, (a ++ t).
  now rewrite !append_assoc.
Qed.

Lemma occursIn_app_r (sub s t : string) : occursIn sub t -> occursIn sub (s ++ t).
Proof.
  intros (b & a & ->). exists (s ++ b), a.
  now rewrite !append_assoc.
Qed.

Lemma occursIn_concat (sub sep x : string) (l : list string) :
  In x l -> occursIn sub x -> occursIn sub (String.concat sep l).
Proof.
  induction l as [|y l IH]; intros Hin Hx; [contradiction|].
  destruct Hin as [->|Hin].
  - destruct l; simpl; [exact Hx|now apply occursIn_app_l].
  - destruct l as [|z l]; [contradiction|].
    change (String.concat sep (y :: z :: l)) with (y ++ sep ++ String.concat sep (z :: l)).
    apply occursIn_app_r, occursIn_app_r. now apply IH.
Qed.

Lemma no_failure_no_errors (rs : list scanners.Result) :
  (forall r, In r rs -> failed r = false) -> scanErrorsOf rs = [].
Proof.
  intros Hok. unfold scanErrorsOf. induction rs as [|r rs IH]; [reflexivity|].
  simpl. pose proof (Hok r (or_introl eq_refl)) as Hr. unfold failed in Hr.
  destruct (scanners.Error r); [discriminate|]. simpl. apply IH.
  intros r' Hr'. apply Hok. now right.
Qed.

(* The error text of runScan names every adapter that failed. *)
Lemma failed_adapter_named (rs : list scanners.Result) (more : list string)
    (r : scanners.Result) (pre : string) :
  In r rs -> failed r = true ->
  occursIn (scanners.ScannerName r) (pre ++ sprintStrings (scanErrorsOf rs ++ more)).
Proof.
  intros Hin Hf. unfold failed in Hf.
  destruct (scanners.Error r) as [e|] eqn:He; [|discriminate].
  apply occursIn_app_r. unfold sprintStrings.
  change ("[" ++ String.concat " " (scanErrorsOf rs ++ more) ++ "]")
    with ("[" ++ (String.concat " " (scanErrorsOf rs ++ more) ++ "]")).
  apply occursIn_app_r, occursIn_app_l.
  apply occursIn_concat with (x := scanners.ScannerName r ++ ": " ++ e).
  - apply in_or_app. left. unfold scanErrorsOf. apply in_flat_map.
    exists r. split; [exact Hin|]. rewrite He. now left.
  - exists "", (": " ++ e). reflexivity.
Qed.

(** C4: when at least one adapter fails and at least one succeeds with
    findings, runScan reports FAILED with an error text that names every
    failed adapter, and still calls CreateFindings, once, with exactly the
    findings of the adapters that succeeded. *)
Theorem failed_adapters_do_not_withhold_findings (W : World) (cfg : config.Config)
    (st : State) (c : orchestrator.Client) (rs : list scanners.Result) (st2 : State) :
  scanned W cfg st = Some (c, map Some rs, st2) ->
  (exists r, In r rs /\ failed r = true) ->
  (exists r, In r rs /\ failed r = false /\ scanners.Findings r <> []) ->
  let (out, st') := runScan W cfg st in
  exists msg,
    rpcs st' = (rpcs st ++
                [statusRequest (config.ScanID cfg) pb.ScanStatus_RUNNING "";
                 uploadRequest cfg (succeededFindings rs);
                 countRequest (config.ScanID cfg)
                   (int32 (Z.of_nat (List.length (succeededFindings rs))));
                 statusRequest (config.ScanID cfg) pb.ScanStatus_FAILED msg])%list /\
    (forall r, In r rs -> failed r = true -> occursIn (scanners.ScannerName r) msg) /\
    out <> Returns None.
Proof.
  intros Hsc (bad & Hbad & Hfailed) (good & Hgood & Hok & Hfindings).
  pose proof (runScan_report W cfg st c rs st2 Hsc) as H. cbv zeta in H.
  destruct (runScan W cfg st) as [out st'].
  assert (Hfs : (0 <? List.length (succeededFindings rs))%nat = true).
  { apply Nat.ltb_lt. unfold succeededFindings.
    destruct (flat_map _ rs) as [|f fs] eqn:Hflat; [|simpl; lia].
    exfalso. apply Hfindings.
    assert (Hin : forall f, In f (scanners.Findings good) -> In f (@nil pb.Finding)).
    { intros f Hf. rewrite <- Hflat. apply in_flat_map. exists good. now rewrite Hok. }
    destruct (scanners.Findings good) as [|f fs]; [reflexivity|].
    destruct (Hin f (or_introl eq_refl)). }
  rewrite Hfs in H.
  set (scanErrors := (scanErrorsOf rs ++ _)%list) in H.
  assert (Herrs : (0 <? List.length scanErrors)%nat = true).
  { apply Nat.ltb_lt. unfold scanErrors. rewrite length_app.
    assert (Hin : In (scanners.ScannerName bad ++ ": " ++
                      match scanners.Error bad with Some e => e | None => "" end)
                     (scanErrorsOf rs)).
    { unfold scanErrorsOf. apply in_flat_map. exists bad. split; [exact Hbad|].
      unfold failed in Hfailed. destruct (scanners.Error bad); [now left|discriminate]. }
    destruct (scanErrorsOf rs); [contradiction|simpl; lia]. }
  rewrite Herrs in H. destruct H as [-> ->].
  eexists. split; [reflexivity|]. split; [|discriminate].
  intros r Hr Hf. now apply failed_adapter_named.
Qed.

Lemma failed_adapters_do_not_withhold_findings_witness :
  let W := Fixtures.lastFirst in
  let cfg := Fixtures.cfg ["secrets"; "sast"] "/workspace" in
  let rs := Fixtures.resultsOf W cfg in
  let (out, st') := runScan W cfg initial in
  exists msg,
    rpcs st' = (rpcs initial ++
                [statusRequest (config.ScanID cfg) pb.ScanStatus_RUNNING "";
                 uploadRequest cfg (succeededFindings rs);
                 countRequest (config.ScanID cfg)
                   (int32 (Z.of_nat (List.length (succeededFindings rs))));
                 statusRequest (config.ScanID cfg) pb.ScanStatus_FAILED msg])%list /\
    (forall r, In r rs -> failed r = true -> occursIn (scanners.ScannerName r) msg) /\
    out <> Returns None.
Proof.
  intros W cfg rs.
  apply (failed_adapters_do_not_withhold_findings W cfg initial
           (Fixtures.clientOf W cfg) rs (Fixtures.stateOf W cfg)).
  - vm_compute. reflexivity.
  - exists (nth 1 rs Fixtures.noResult). split.
    + apply nth_In. vm_compute. lia.
    + vm_compute. reflexivity.
  - exists (nth 0 rs Fixtures.noResult). split; [|split].
    + apply nth_In. vm_compute. lia.
    + vm_compute. reflexivity.
    + vm_compute. discriminate.
Defined.

(** *** Log lines are never taken back *)

Lemma keepsLogs_ret {A} (a : A) : keepsLogs (ret a).
Proof. intros st l H. exact H. Qed.

Lemma keepsLogs_bind {A B} (m : M A) (k : A -> M B) :
  keepsLogs m -> (forall a, keepsLogs (k a)) -> keepsLogs (bind m k).
Proof. intros Hm Hk st l H. rewrite bind_eq. apply Hk, Hm, H. Qed.

Lemma keepsLogs_logf (lv : Level) (msg : string) (e : option error) : keepsLogs (logf lv msg e).
Proof. intros st l H. simpl. apply in_or_app. now left. Qed.

Lemma keepsLogs_call (W : World) (r : pb.Rpc) : keepsLogs (orchestrator.call W r).
Proof. intros st l H. exact H. Qed.

Lemma keepsLogs_whenErr (e : option error) (k : error -> M unit) :
  (forall err, keepsLogs (k err)) -> keepsLogs (whenErr e k).
Proof. intros Hk. destruct e; simpl; [apply Hk|apply keepsLogs_ret]. Qed.

Ltac keepsLogs_auto :=
  unfold info, debug, warn, logError;
  repeat first
    [ apply keepsLogs_ret
    | apply keepsLogs_logf
    | apply keepsLogs_call
    | apply keepsLogs_bind; [|intros]
    | apply keepsLogs_whenErr; intros
    | match goal with
      | |- keepsLogs (match ?x with _ => _ end) => destruct x
      | |- keepsLogs (if ?b then _ else _) => destruct b
      end ].

Lemma keepsLogs_UpdateScanStatus (W : World) (c : orchestrator.Client) (scanID : string)
    (status : pb.ScanStatus) (msg : string) :
  keepsLogs (orchestrator.UpdateScanStatus W c scanID status msg).
Proof. unfold orchestrator.UpdateScanStatus. keepsLogs_auto. Qed.

Lemma keepsLogs_UpdateFindingsCount (W : World) (c : orchestrator.Client) (scanID : string)
    (count : Z) :
  keepsLogs (orchestrator.UpdateFindingsCount W c scanID count).
Proof. unfold orchestrator.UpdateFindingsCount. keepsLogs_auto. Qed.

Lemma uploadFindings_logs (W : World) (c : orchestrator.Client) (cfg : config.Config)
    (allFindings : list pb.Finding) (scanErrors : list string) (st : State) (e : error) :
  (0 <? List.length allFindings)%nat = true ->
  rpcAnswer W (rpcs st) (uploadRequest cfg allFindings) = Some e ->
  In (uploadFailure e) (logs (snd (uploadFindings W c cfg allFindings scanErrors st))).
Proof.
  intros Hfs Hans. unfold uploadFindings. rewrite Hfs. mstep. mstep.
  set (st1 := snd (info "Uploading findings to orchestrator" st)).
  destruct (CreateFindings_spec W c cfg allFindings st1 Hfs) as [Herr _].
  change (rpcs st1) with (rpcs st) in Herr. rewrite Hans in Herr. cbn [option_map] in Herr.
  rewrite Herr. cbn beta iota. mstep.
  assert (Hk : forall es : list string, keepsLogs
                 (err <- orchestrator.UpdateFindingsCount W c (config.ScanID cfg)
                           (int32 (Z.of_nat (List.length allFindings))) ;;
                  whenErr err (fun e0 => warn "Failed to update findings count" (Some e0)) ;;
                  ret es)).
  { intros es. apply keepsLogs_bind; [apply keepsLogs_UpdateFindingsCount|].
    intros. keepsLogs_auto. }
  apply Hk. mstep. cbn [ret fst snd logError logf logs].
  apply in_or_app. right. now left.
Qed.

Lemma reportResults_logs (W : World) (c : orchestrator.Client) (cfg : config.Config)
    (rs : list scanners.Result) (st : State) (e : error) :
  (0 <? List.length (succeededFindings rs))%nat = true ->
  rpcAnswer W (rpcs st) (uploadRequest cfg (succeededFindings rs)) = Some e ->
  In (uploadFailure e) (logs (snd (reportResults W c cfg (map Some rs) st))).
Proof.
  intros Hfs Hans. unfold reportResults. mstep.
  pose proof (collect_spec rs [] [] st) as Hc.
  destruct (forRange (map Some rs) (Some ([], [])) collect st) as [acc st1].
  destruct Hc as (-> & Hr1 & _). cbn [fst snd app]. mstep.
  rewrite <- Hr1 in Hans.
  pose proof (uploadFindings_logs W c cfg _ (scanErrorsOf rs) st1 e Hfs Hans) as Hin.
  destruct (uploadFindings W c cfg _ _ st1) as [scanErrors st2]. cbn [fst snd] in *.
  revert Hin. generalize (uploadFailure e). revert st2.
  change (keepsLogs
            (if (0 <? List.length scanErrors)%nat
             then orchestrator.UpdateScanStatus W c (config.ScanID cfg) pb.ScanStatus_FAILED
                    ("Scan completed with errors: " ++ sprintStrings scanErrors) ;;
                  ret (Returns (Some ("scan had errors: " ++ sprintStrings scanErrors)))
             else err <- orchestrator.UpdateScanStatus W c (config.ScanID cfg)
                           pb.ScanStatus_COMPLETED "" ;;
                  whenErr err
                    (fun e0 => warn "Failed to update scan status to COMPLETED" (Some e0)) ;;
                  ret (Returns None))).
  destruct (0 <? List.length scanErrors)%nat;
    (apply keepsLogs_bind; [apply keepsLogs_UpdateScanStatus|intros; keepsLogs_auto]).
Qed.

(** C1, as the code has it: when every adapter succeeded and the CreateFindings
    request fails, the failure is logged and also added to the scan errors,
    so that runScan reports FAILED with the upload error as its message and
    returns an error; the findings count is still sent. *)
Theorem upload_failure_fails_the_scan (W : World) (cfg : config.Config) (st : State)
    (c : orchestrator.Client) (rs : list scanners.Result) (st2 : State) (e : error) :
  scanned W cfg st = Some (c, map Some rs, st2) ->
  (forall r, In r rs -> failed r = false) ->
  succeededFindings rs <> [] ->
  rpcAnswer W (rpcs st2) (uploadRequest cfg (succeededFindings rs)) = Some e ->
  let text := "[Failed to upload findings: failed to create findings: " ++ e ++ "]" in
  let (out, st') := runScan W cfg st in
  out = Returns (Some ("scan had errors: " ++ text)) /\
  rpcs st' = (rpcs st ++
              [statusRequest (config.ScanID cfg) pb.ScanStatus_RUNNING "";
               uploadRequest cfg (succeededFindings rs);
               countRequest (config.ScanID cfg)
                 (int32 (Z.of_nat (List.length (succeededFindings rs))));
               statusRequest (config.ScanID cfg) pb.ScanStatus_FAILED
                 ("Scan completed with errors: " ++ text)])%list /\
  In (uploadFailure e) (logs st').
Proof.
  intros Hsc Hok Hfindings Hans. cbv zeta.
  assert (Hfs : (0 <? List.length (succeededFindings rs))%nat = true).
  { apply Nat.ltb_lt. destruct (succeededFindings rs); [congruence|simpl; lia]. }
  pose proof (no_failure_no_errors rs Hok) as Hnone.
  pose proof (runScan_report W cfg st c rs st2 Hsc) as H. cbv zeta in H.
  pose proof (reportResults_logs W c cfg rs st2 e Hfs Hans) as Hlog.
  rewrite (runScan_scanned W cfg st c _ st2 Hsc) in *.
  unfold uploadErrors in H. rewrite Hfs, Hans, Hnone in H. cbn [app List.length Nat.ltb Nat.leb] in H.
  destruct H as [Hout Hsent].
  split; [exact Hout|]. split; [exact Hsent|].
  unfold orchestrator.Close. cbn [snd info logf logs]. apply in_or_app. now left.
Qed.

Lemma upload_failure_fails_the_scan_witness :
  let W := Fixtures.uploadRefused in
  let cfg := Fixtures.cfg ["secrets"] "/workspace" in
  let rs := Fixtures.resultsOf W cfg in
  let text := "[Failed to upload findings: failed to create findings: " ++ "unavailable" ++ "]" in
  let (out, st') := runScan W cfg initial in
  out = Returns (Some ("scan had errors: " ++ text)) /\
  rpcs st' = (rpcs initial ++
              [statusRequest (config.ScanID cfg) pb.ScanStatus_RUNNING "";
               uploadRequest cfg (succeededFindings rs);
               countRequest (config.ScanID cfg)
                 (int32 (Z.of_nat (List.length (succeededFindings rs))));
               statusRequest (config.ScanID cfg) pb.ScanStatus_FAILED
                 ("Scan completed with errors: " ++ text)])%list /\
  In (uploadFailure "unavailable") (logs st').
Proof.
  intros W cfg rs.
  apply (upload_failure_fails_the_scan W cfg initial (Fixtures.clientOf W cfg) rs
           (Fixtures.stateOf W cfg) "unavailable").
  - vm_compute. reflexivity.
  - intros r Hr. vm_compute in Hr. destruct Hr as [<-|[]]. reflexivity.
  - vm_compute. discriminate.
  - vm_compute. reflexivity.
Defined.

(** C1, as stated, fails: in this run trufflehog, the only adapter, succeeds
    with one finding and the CreateFindings request is refused; runScan then
    returns an error and the status it reports last is FAILED, not COMPLETED. *)
Lemma upload_failure_counterexample :
  let W := Fixtures.uploadRefused in
  let cfg := Fixtures.cfg ["secrets"] "/workspace" in
  let rs := Fixtures.resultsOf W cfg in
  scanned W cfg initial = Some (Fixtures.clientOf W cfg, map Some rs, Fixtures.stateOf W cfg) /\
  forallb (fun r => negb (failed r)) rs = true /\
  rpcAnswer W (rpcs (Fixtures.stateOf W cfg)) (uploadRequest cfg (succeededFindings rs))
    = Some "unavailable" /\
  fst (runScan W cfg initial)
    = Returns (Some "scan had errors: [Failed to upload findings: failed to create findings: unavailable]") /\
  statusUpdates (rpcs (snd (runScan W cfg initial)))
    = [pb.ScanStatus_RUNNING; pb.ScanStatus_FAILED] /\
  ~ (fst (runScan W cfg initial) = Returns None /\
     last (statusUpdates (rpcs (snd (runScan W cfg initial)))) pb.ScanStatus_RUNNING
       = pb.ScanStatus_COMPLETED).
Proof.
  vm_compute. repeat split. intros [H _]. discriminate H.
Qed.

(** C7: nothing is delivered when there are no findings, and that is not an
    error.  CreateFindings on an empty list sends no request and returns nil;
    a call of runScan whose adapters produced no finding sends the RUNNING
    update and the terminal update only, neither a CreateFindings request nor
    a findings count, and completes when no adapter failed. *)
Theorem empty_findings_skip_delivery :
  (forall W c scanID st,
     fst (orchestrator.CreateFindings W c scanID [] st) = None /\
     rpcs (snd (orchestrator.CreateFindings W c scanID [] st)) = rpcs st) /\
  (forall W cfg st c rs st2,
     scanned W cfg st = Some (c, map Some rs, st2) ->
     succeededFindings rs = [] ->
     let (out, st') := runScan W cfg st in
     exists status msg,
       rpcs st' = (rpcs st ++ [statusRequest (config.ScanID cfg) pb.ScanStatus_RUNNING "";
                               statusRequest (config.ScanID cfg) status msg])%list /\
       existsb isCreateFindings (rpcs st') = existsb isCreateFindings (rpcs st) /\
       existsb isFindingsCount (rpcs st') = existsb isFindingsCount (rpcs st) /\
       ((forall r, In r rs -> failed r = false) ->
        out = Returns None /\ status = pb.ScanStatus_COMPLETED)).
Proof.
  split.
  - intros W c scanID st. unfold orchestrator.CreateFindings. run. auto.
  - intros W cfg st c rs st2 Hsc Hempty.
    pose proof (runScan_report W cfg st c rs st2 Hsc) as H. cbv zeta in H.
    destruct (runScan W cfg st) as [out st'].
    unfold uploadErrors in H. rewrite Hempty in H. cbn [List.length Nat.ltb Nat.leb] in H.
    rewrite app_nil_r in H. cbn [app] in H.
    assert (Hex : forall status msg,
               existsb isCreateFindings
                 (rpcs st ++ [statusRequest (config.ScanID cfg) pb.ScanStatus_RUNNING "";
                              statusRequest (config.ScanID cfg) status msg])
               = existsb isCreateFindings (rpcs st) /\
               existsb isFindingsCount
                 (rpcs st ++ [statusRequest (config.ScanID cfg) pb.ScanStatus_RUNNING "";
                              statusRequest (config.ScanID cfg) status msg])
               = existsb isFindingsCount (rpcs st)).
    { intros status msg. rewrite !existsb_app. simpl. now rewrite !orb_false_r. }
    destruct (scanErrorsOf rs) as [|e es] eqn:Herrs; cbn [List.length] in H;
      destruct H as [-> ->].
    + eexists _, _. split; [reflexivity|]. split; [apply Hex|]. split; [apply Hex|]. auto.
    + eexists _, _. split; [reflexivity|]. split; [apply Hex|]. split; [apply Hex|].
      intros Hok. exfalso.
      pose proof (no_failure_no_errors rs Hok). congruence.
Qed.

Lemma empty_findings_skip_delivery_witness :
  let W := Fixtures.crashed in
  let cfg := Fixtures.cfg ["secrets"] "/workspace" in
  let (out, st') := runScan W cfg initial in
  exists status msg,
    rpcs st' = (rpcs initial ++ [statusRequest (config.ScanID cfg) pb.ScanStatus_RUNNING "";
                                 statusRequest (config.ScanID cfg) status msg])%list /\
    existsb isCreateFindings (rpcs st') = existsb isCreateFindings (rpcs initial) /\
    existsb isFindingsCount (rpcs st') = existsb isFindingsCount (rpcs initial) /\
    ((forall r, In r (Fixtures.resultsOf W cfg) -> failed r = false) ->
     out = Returns None /\ status = pb.ScanStatus_COMPLETED).
Proof.
  intros W cfg.
  apply (proj2 empty_findings_skip_delivery W cfg initial (Fixtures.clientOf W cfg)
           (Fixtures.resultsOf W cfg) (Fixtures.stateOf W cfg)).
  - vm_compute. reflexivity.
  - vm_compute. reflexivity.
Defined.

(** ** Further properties of the code *)

(** *** Configuration *)

Lemma concat_Split (s : string) (sep : ascii) :
  String.concat (String sep "") (strings.Split s sep) = s.
Proof.
  induction s as [|c s IH]; [reflexivity|]. cbn [strings.Split].
  assert (Hne : strings.Split s sep <> []).
  { destruct s as [|d s]; simpl; [discriminate|].
    destruct (Ascii.eqb d sep); [discriminate|].
    destruct (strings.Split s sep); discriminate. }
  destruct (Ascii.eqb c sep) eqn:Hc.
  - apply Ascii.eqb_eq in Hc. subst c.
    destruct (strings.Split s sep) as [|e es]; [contradiction|].
    change (String.concat (String sep "") ("" :: e :: es))
      with (String sep (String.concat (String sep "") (e :: es))).
    now rewrite IH.
  - destruct (strings.Split s sep) as [|e es]; [contradiction|].
    rewrite <- IH. destruct es; reflexivity.
Qed.

Lemma Split_nonempty (s : string) (sep : ascii) : strings.Split s sep <> [].
Proof.
  destruct s as [|d s]; simpl; [discriminate|].
  destruct (Ascii.eqb d sep); [discriminate|].
  destruct (strings.Split s sep); discriminate.
Qed.

Ltac load_cases H :=
  unfold configenv.LoadFromEnv, configenv.required, configenv.parsed in H;
  repeat match type of H with
         | context [if (?x =? "") then _ else _] =>
             let E := fresh "Hset" in
             destruct (x =? "") eqn:E; [discriminate H|apply String.eqb_neq in E]
         | context [match ?u with Ok _ => _ | Err _ => _ end] =>
             let E := fresh "Hid" in
             destruct u eqn:E; [|discriminate H]
         end.

(** X1: LoadFromEnv returns a configuration exactly when the seven required
    variables are set to non-empty values and the three identifiers parse as
    UUIDs; no other variable, and no timeout that is not a number, makes it
    fail. *)
Theorem LoadFromEnv_succeeds_iff (Getenv : string -> string)
    (uuidParse : string -> result string) (Atoi : string -> result Z) (st : State) :
  (exists L, fst (configenv.LoadFromEnv Getenv uuidParse Atoi st) = Ok L) <->
  (forall k, In k requiredVars -> Getenv k <> "") /\
  (forall k, In k idVars -> exists id, uuidParse (Getenv k) = Ok id).
Proof.
  split.
  - intros [L H]. load_cases H. split.
    + intros k Hk. simpl in Hk.
      repeat (destruct Hk as [<-|Hk]; [assumption|]). contradiction.
    + intros k Hk. simpl in Hk.
      repeat (destruct Hk as [<-|Hk]; [eauto|]). contradiction.
  - intros [Hreq Hid].
    unfold configenv.LoadFromEnv, configenv.required, configenv.parsed.
    repeat match goal with
           | |- context [if (Getenv ?k =? "") then _ else _] =>
               let E := fresh in
               assert (E : (Getenv k =? "") = false)
                 by (apply String.eqb_neq, Hreq; simpl; tauto);
               rewrite E; clear E
           | |- context [match uuidParse (Getenv ?k) with Ok _ => _ | Err _ => _ end] =>
               let id := fresh "id" in
               let E := fresh in
               destruct (Hid k) as [id E]; [simpl; tauto|]; rewrite E; clear E
           end.
    rewrite !bind_eq. cbn [ret fst]. eauto.
Qed.

(** X2: a configuration that LoadFromEnv returns has a download URL, an
    orchestrator endpoint and working, results and log-level settings that
    are not empty, and at least one scan type; the scan types are the pieces
    of SCAN_TYPES between commas, untrimmed, so that joining them with commas
    gives SCAN_TYPES back. *)
Theorem loaded_config_invariants (Getenv : string -> string)
    (uuidParse : string -> result string) (Atoi : string -> result Z) (st : State)
    (L : configenv.Loaded) :
  fst (configenv.LoadFromEnv Getenv uuidParse Atoi st) = Ok L ->
  let cfg := configenv.runner L in
  config.SourceDownloadURL cfg = Getenv "SOURCE_DOWNLOAD_URL" /\
  config.SourceDownloadURL cfg <> "" /\
  config.OrchestratorEndpoint cfg <> "" /\
  config.WorkDir cfg <> "" /\
  configenv.ResultsDir L <> "" /\
  configenv.LogLevel L <> "" /\
  config.ScanTypes cfg <> [] /\
  String.concat "," (config.ScanTypes cfg) = Getenv "SCAN_TYPES".
Proof.
  intros H. load_cases H. rewrite !bind_eq in H. cbn [ret fst] in H.
  inversion H; subst L; clear H. cbn.
  assert (Hdef : forall key d, d <> "" -> configenv.getEnv Getenv key d <> "").
  { intros key d Hd. unfold configenv.getEnv.
    destruct (Getenv key =? "") eqn:E; simpl; [exact Hd|now apply String.eqb_neq]. }
  repeat split; try assumption; try (apply Hdef; discriminate).
  - apply Split_nonempty.
  - apply concat_Split.
Qed.

Lemma loaded_config_invariants_witness :
  exists L,
    fst (configenv.LoadFromEnv Environments.job Environments.uuidParse Environments.Atoi initial)
    = Ok L /\
    config.ScanTypes (configenv.runner L) = ["sast"; " sca"; "secrets"] /\
    config.WorkDir (configenv.runner L) = "/workspace" /\
    configenv.ScanTimeout L = 1800000000000%Z /\
    config.SourceDownloadURL (configenv.runner L) <> "".
Proof.
  eexists. split; [vm_compute; reflexivity|].
  split; [reflexivity|]. split; [reflexivity|]. split; [reflexivity|].
  refine (proj1 (proj2 (loaded_config_invariants Environments.job Environments.uuidParse
                          Environments.Atoi initial _ _))).
  vm_compute. reflexivity.
Defined.

(** *** What the extraction writes *)

Lemma split_empty (d : string) : filepath.split d = [""] -> d = "".
Proof.
  destruct d as [|c d]; [reflexivity|]. simpl.
  pose proof (split_nonempty d) as Hne.
  destruct (Ascii.eqb c "/"); destruct (filepath.split d); try contradiction; discriminate.
Qed.

Lemma split_cons (c : ascii) (s : string) :
  filepath.split (String c s)
  = if Ascii.eqb c "/" then "" :: filepath.split s
    else match filepath.split s with
         | [] => [String c ""]
         | e :: es => String c e :: es
         end.
Proof. reflexivity. Qed.

Lemma split_dirPart (p : string) :
  filepath.split (filepath.dirPart p) = (removelast (filepath.split p) ++ [""])%list.
Proof.
  induction p as [|c p IH]; [reflexivity|].
  pose proof (split_nonempty p) as Hne.
  cbn [filepath.dirPart]. rewrite (split_cons c p).
  destruct (Ascii.eqb c "/") eqn:Hc.
  - rewrite split_cons, Hc, IH.
    destruct (filepath.split p); [contradiction|reflexivity].
  - destruct (filepath.split p) as [|h t] eqn:Hs; [contradiction|].
    destruct (filepath.dirPart p) as [|d0 d] eqn:Hd.
    + destruct t as [|h' t]; [reflexivity|].
      simpl in IH. destruct t; discriminate.
    + rewrite split_cons, Hc, IH.
      destruct t as [|h' t].
      * exfalso. change (removelast [h] ++ [""])%list with [""] in IH.
        apply split_empty in IH. discriminate.
      * reflexivity.
Qed.

Lemma prefix_nil (s : string) : prefix "" s = true.
Proof. now destruct s. Qed.

Lemma rooted_cons (c : ascii) (s : string) :
  filepath.rooted (String c s) = Ascii.eqb c "/".
Proof.
  unfold filepath.rooted. cbn [prefix].
  destruct (ascii_dec "/" c) as [<-|Hne].
  - now rewrite prefix_nil.
  - symmetry. apply Ascii.eqb_neq. congruence.
Qed.

Lemma rooted_dirPart (p : string) : filepath.rooted (filepath.dirPart p) = filepath.rooted p.
Proof.
  destruct p as [|c p]; [reflexivity|]. rewrite rooted_cons. cbn [filepath.dirPart].
  destruct (Ascii.eqb c "/") eqn:Hc; [now rewrite rooted_cons|].
  destruct (filepath.dirPart p); [reflexivity|now rewrite rooted_cons].
Qed.

Lemma kept_unrooted (e s : string) : kept e -> filepath.rooted (e ++ s) = false.
Proof.
  intros (He & _ & Hs). destruct e as [|c e]; [contradiction|].
  cbn [append]. rewrite rooted_cons.
  destruct (Ascii.eqb c "/") eqn:Hc; [|reflexivity].
  simpl in Hs. rewrite Hc in Hs. inversion Hs.
Qed.

Lemma rooted_Clean (path : string) : filepath.rooted (filepath.Clean path) = filepath.rooted path.
Proof.
  unfold filepath.Clean.
  destruct (path =? "") eqn:He; [apply String.eqb_eq in He; now subst|].
  destruct (filepath.rooted path) eqn:Hr.
  { change ("/" ++ filepath.join (filepath.cleanElems path))
      with (String "/" (filepath.join (filepath.cleanElems path))).
    now rewrite rooted_cons. }
  destruct (cleanElems_inv path) as (Hkept & _ & _).
  apply Forall_rev in Hkept. rewrite rev_involutive in Hkept.
  destruct (filepath.cleanElems path) as [|e es]; [reflexivity|].
  inversion Hkept; subst.
  destruct es; [|now apply kept_unrooted].
  cbn [filepath.join]. rewrite <- (kept_unrooted e ""); [|assumption].
  f_equal. clear. induction e; simpl; congruence.
Qed.

(* Cleaning does not change a list of elements that is clean already. *)
Lemma fold_clean (isRooted : bool) (l : list string) :
  cleanInv isRooted (rev l) -> fold_left (filepath.cleanStep isRooted) l [] = rev l.
Proof.
  induction l as [|e l IH] using rev_ind; [reflexivity|].
  rewrite rev_app_distr, fold_left_app. cbn [rev app fold_left].
  intros (Hkept & Hshape & Hroot).
  inversion Hkept as [|? ? (H1 & H2 & _) Hk]; subst. destruct Hshape as [Hup Hsh].
  rewrite IH.
  2:{ split; [exact Hk|]. split; [exact Hsh|].
      intros Hr. specialize (Hroot Hr). now inversion Hroot. }
  unfold filepath.cleanStep. apply String.eqb_neq in H1, H2. rewrite H1, H2. cbn [orb].
  destruct (e =? "..") eqn:E; [|reflexivity].
  apply String.eqb_eq in E. subst e. specialize (Hup eq_refl).
  destruct (rev l) as [|top below].
  - destruct isRooted; [|reflexivity].
    specialize (Hroot eq_refl). inversion Hroot; congruence.
  - inversion Hup as [|? ? Htop _]; subst. unfold dotdot in Htop. subst top. reflexivity.
Qed.

(* What passing the path check means for an entry, when the cleaned
   destination does not end in "..": its path is the destination followed by
   at least one further element, none of them "..". *)
Lemma check_shape (destDir name : string) :
  last (filepath.names (filepath.Clean destDir)) "" <> ".." ->
  filepath.HasPrefix (filepath.Join [destDir; name])
    (filepath.Clean destDir ++ filepath.Separator) = true ->
  exists rest q,
    filepath.Join [destDir; name] = filepath.Clean destDir ++ "/" ++ rest /\
    filepath.Join [destDir; name] = filepath.Clean q /\
    filepath.cleanElems q
    = (filepath.names (filepath.Clean destDir) ++ filepath.names rest)%list /\
    filepath.names (filepath.Clean destDir) <> [] /\
    filepath.names rest <> [] /\
    Forall (fun e => e <> "..") (filepath.names rest).
Proof.
  intros Hlast Hpre.
  pose proof (zipslip_check_sound destDir name Hlast Hpre) as Hin.
  unfold filepath.HasPrefix, filepath.Separator in Hpre.
  apply prefix_app in Hpre as [rest Hp]. rewrite append_assoc in Hp.
  pose proof (Clean_nonempty destDir) as Hroot.
  set (root := filepath.Clean destDir) in *.
  set (p := filepath.Join [destDir; name]) in *.
  assert (Hsplit : filepath.split p = (filepath.split root ++ filepath.split rest)%list).
  { rewrite Hp. apply split_app. }
  assert (Hnames : filepath.names p = (filepath.names root ++ filepath.names rest)%list).
  { unfold filepath.names. now rewrite Hsplit, filter_app. }
  destruct (Join_cleaned destDir name) as [Hempty|[q Hq]]; fold p in Hempty || fold p in Hq.
  { rewrite Hp in Hempty. destruct root; [contradiction|discriminate]. }
  exists rest, q.
  pose proof (names_Clean q) as Hnq. rewrite <- Hq, Hnames in Hnq.
  assert (Hrooted : filepath.rooted p = filepath.rooted root).
  { rewrite Hp. now apply rooted_app. }
  unfold filepath.within in Hin. rewrite Hnames, descends_app, Hrooted, Bool.eqb_reflx in Hin.
  cbn [andb] in Hin.
  pose proof (split_Clean q) as Hsq. rewrite <- Hq in Hsq.
  pose proof (split_Clean destDir) as Hsr. fold root in Hsr.
  pose proof (names_Clean destDir) as Hnr. fold root in Hnr.
  assert (Hrq : filepath.rooted q = filepath.rooted destDir).
  { rewrite <- (rooted_Clean q), <- Hq, Hrooted. apply rooted_Clean. }
  destruct (cleanElems_inv q) as (Hkq & _ & _).
  apply Forall_rev in Hkq. rewrite rev_involutive in Hkq.
  pose proof (split_nonempty rest) as Hrest.
  assert (Hne : filepath.names root <> []).
  { intros Hnil. rewrite <- Hnr, Hrq in *. rewrite Hnil in *.
    cbn [app] in Hnq. rewrite Hsplit, Hsr in Hsq.
    destruct (filepath.cleanElems q) as [|e es];
      destruct (filepath.rooted destDir); cbn [app] in Hsq;
      destruct (filepath.split rest); try contradiction; try discriminate;
      inversion Hsq; subst; inversion Hkq as [|? ? (H1 & H2 & _) _]; congruence. }
  repeat split; auto.
  - intros Hnil. rewrite Hnil, app_nil_r in Hnq.
    rewrite Hsplit, Hsr, <- Hnq, Hnr, Hrq in Hsq.
    apply (f_equal (@List.length string)) in Hsq. rewrite length_app in Hsq.
    destruct (filepath.split rest); [contradiction|].
    destruct (filepath.names root); [contradiction|].
    destruct (filepath.rooted destDir); simpl in Hsq; lia.
  - apply Forall_forall. intros e He.
    rewrite forallb_forall in Hin. specialize (Hin e He).
    apply negb_true_iff, String.eqb_neq in Hin. exact Hin.
Qed.

Lemma cleanStep_empty (isRooted : bool) (stack : list string) :
  filepath.cleanStep isRooted stack "" = stack.
Proof. reflexivity. Qed.

(* The parent directory that extractFile creates for an entry that passes the
   check lies within the destination as well. *)
Lemma parent_within (destDir name : string) :
  last (filepath.names (filepath.Clean destDir)) "" <> ".." ->
  filepath.HasPrefix (filepath.Join [destDir; name])
    (filepath.Clean destDir ++ filepath.Separator) = true ->
  filepath.within (filepath.Clean destDir) (filepath.Dir (filepath.Join [destDir; name])) = true.
Proof.
  intros Hlast Hpre.
  destruct (check_shape destDir name Hlast Hpre)
    as (rest & q & Hp & Hq & Hes & Hroot & Hrest & Hdown).
  set (root := filepath.Clean destDir) in *.
  set (p := filepath.Join [destDir; name]) in *.
  assert (Hrooted : filepath.rooted p = filepath.rooted root).
  { rewrite Hp. apply rooted_app, Clean_nonempty. }
  assert (Hrq : filepath.rooted q = filepath.rooted p).
  { rewrite Hq. symmetry. apply rooted_Clean. }
  assert (Hne : filepath.cleanElems q <> []).
  { rewrite Hes. destruct (filepath.names root); [contradiction|discriminate]. }
  assert (Hparent : filepath.names (filepath.Dir p) = removelast (filepath.cleanElems q)).
  { unfold filepath.Dir. rewrite names_Clean. unfold filepath.cleanElems at 1.
    rewrite rooted_dirPart, split_dirPart, <- Hrq.
    pose proof (split_Clean q) as Hsq. rewrite <- Hq in Hsq. rewrite Hsq.
    destruct (cleanElems_inv q) as (Hkept & Hshape & Hno).
    assert (Hinv : cleanInv (filepath.rooted q) (rev (removelast (filepath.cleanElems q)))).
    { rewrite (app_removelast_last "" Hne), rev_app_distr in Hkept, Hshape, Hno.
      cbn [rev app] in Hkept, Hshape, Hno.
      split; [now inversion Hkept|]. split; [apply Hshape|].
      intros Hr. specialize (Hno Hr). now inversion Hno. }
    destruct (filepath.cleanElems q) as [|e es] eqn:Helems; [contradiction|].
    assert (Hfold : forall l,
               fold_left (filepath.cleanStep (filepath.rooted q)) (l ++ [""]) []
               = fold_left (filepath.cleanStep (filepath.rooted q)) l []).
    { intros l. now rewrite fold_left_app. }
    destruct (filepath.rooted q); cbv zeta.
    - change (removelast ("" :: e :: es)) with ("" :: removelast (e :: es)).
      rewrite <- app_comm_cons. cbn [fold_left]. rewrite cleanStep_empty, Hfold.
      rewrite fold_clean by exact Hinv. apply rev_involutive.
    - rewrite Hfold, fold_clean by exact Hinv. apply rev_involutive. }
  unfold filepath.within. rewrite Hparent, Hes, removelast_app by exact Hrest.
  rewrite descends_app.
  assert (Hsame : filepath.rooted (filepath.Dir p) = filepath.rooted root).
  { unfold filepath.Dir. now rewrite rooted_Clean, rooted_dirPart. }
  rewrite Hsame, Bool.eqb_reflx. cbn [andb].
  apply forallb_forall. intros e He.
  rewrite (app_removelast_last "" Hrest) in Hdown.
  apply Forall_app in Hdown as [Hdown _]. rewrite Forall_forall in Hdown.
  apply negb_true_iff, String.eqb_neq. now apply Hdown.
Qed.

Lemma addsOnly_ret {A} (P : FsOp -> Prop) (a : A) : addsOnly P (ret a).
Proof. intros st. exists []. now rewrite app_nil_r. Qed.

Lemma addsOnly_bind {A B} (P : FsOp -> Prop) (m : M A) (k : A -> M B) :
  addsOnly P m -> (forall a, addsOnly P (k a)) -> addsOnly P (bind m k).
Proof.
  intros Hm Hk st. rewrite bind_eq.
  destruct (Hm st) as (ops1 & H1 & HP1).
  destruct (Hk (fst (m st)) (snd (m st))) as (ops2 & H2 & HP2).
  exists (ops1 ++ ops2)%list. rewrite H2, H1, app_assoc. split; [reflexivity|].
  now apply Forall_app.
Qed.

Lemma addsOnly_logf (P : FsOp -> Prop) (l : Level) (msg : string) (e : option error) :
  addsOnly P (logf l msg e).
Proof. intros st. exists []. now rewrite app_nil_r. Qed.

Lemma addsOnly_call (P : FsOp -> Prop) (W : World) (r : pb.Rpc) :
  addsOnly P (orchestrator.call W r).
Proof. intros st. exists []. now rewrite app_nil_r. Qed.

Lemma addsOnly_fsop (P : FsOp -> Prop) (W : World) (op : FsOp) :
  P op -> addsOnly P (fsop W op).
Proof. intros HP st. exists [op]. split; [reflexivity|]. now constructor. Qed.

Lemma addsOnly_whenErr (P : FsOp -> Prop) (e : option error) (k : error -> M unit) :
  (forall err, addsOnly P (k err)) -> addsOnly P (whenErr e k).
Proof. intros Hk. destruct e; simpl; [apply Hk|apply addsOnly_ret]. Qed.

Lemma addsOnly_forRange {A B} (P : FsOp -> Prop) (xs : list A) (body : B -> A -> M B) :
  (forall acc x, addsOnly P (body acc x)) -> forall acc, addsOnly P (forRange xs acc body).
Proof.
  intros Hbody. induction xs as [|x xs IH]; intros acc; simpl.
  - apply addsOnly_ret.
  - apply addsOnly_bind; [apply Hbody|exact IH].
Qed.

Ltac addsOnly_auto :=
  unfold info, debug, warn, logError;
  repeat first
    [ apply addsOnly_ret
    | apply addsOnly_logf
    | apply addsOnly_call
    | apply addsOnly_bind; [|intros]
    | apply addsOnly_whenErr; intros
    | apply addsOnly_forRange; intros
    | match goal with
      | |- addsOnly _ (match ?x with _ => _ end) => destruct x
      | |- addsOnly _ (if ?b then _ else _) => destruct b
      end ].

Lemma extractFile_inside (W : World) (f : ZipFile) (destDir : string) :
  last (filepath.names (filepath.Clean destDir)) "" <> ".." ->
  addsOnly (inside (filepath.Clean destDir)) (downloader.extractFile W f destDir).
Proof.
  intros Hroot. unfold downloader.extractFile.
  destruct (filepath.HasPrefix _ _) eqn:Hpre; cbn [negb]; [|apply addsOnly_ret].
  pose proof (zipslip_check_sound destDir (zf_Name f) Hroot Hpre) as Hfile.
  pose proof (parent_within destDir (zf_Name f) Hroot Hpre) as Hdir.
  assert (Hin : forall p, filepath.within (filepath.Clean destDir) p = true ->
                forall op, touched op = [p] -> inside (filepath.Clean destDir) op).
  { intros p Hp op Hop q Hq. rewrite Hop in Hq. destruct Hq as [<-|[]]. exact Hp. }
  destruct (zf_IsDir f).
  - apply addsOnly_fsop. now apply (Hin _ Hfile).
  - apply addsOnly_bind; [apply addsOnly_fsop; now apply (Hin _ Hdir)|].
    intros [e|]; [apply addsOnly_ret|].
    destruct (zf_Open f); [|apply addsOnly_ret].
    apply addsOnly_bind; [apply addsOnly_fsop; now apply (Hin _ Hfile)|].
    intros [e|]; [apply addsOnly_ret|].
    apply addsOnly_fsop. now apply (Hin _ Hfile).
Qed.

Lemma extractFiles_inside (W : World) (files : list ZipFile) (destDir : string) :
  last (filepath.names (filepath.Clean destDir)) "" <> ".." ->
  addsOnly (inside (filepath.Clean destDir)) (downloader.extractFiles W files destDir).
Proof.
  intros Hroot. induction files as [|f files IH]; cbn [downloader.extractFiles].
  - apply addsOnly_ret.
  - apply addsOnly_bind; [now apply extractFile_inside|].
    intros [e|]; [apply addsOnly_ret|exact IH].
Qed.

(** X3: extraction into a directory whose cleaned path does not end in ".."
    (every absolute directory is one) creates and writes within that
    directory only: each directory made, each file opened and each file
    written by extractZip, the parent directories included, lies lexically
    within it, whatever the archive holds and wherever extraction stops. *)
Theorem extraction_stays_within_destination (W : World) (zipPath destDir : string) (st : State) :
  last (filepath.names (filepath.Clean destDir)) "" <> ".." ->
  exists ops,
    fsops (snd (downloader.extractZip W zipPath destDir st)) = (fsops st ++ ops)%list /\
    Forall (inside (filepath.Clean destDir)) ops.
Proof.
  intros Hroot. unfold downloader.extractZip.
  destruct (OpenReader W zipPath) as [files|e].
  - now apply extractFiles_inside.
  - now apply addsOnly_ret.
Qed.

Lemma extraction_stays_within_destination_witness :
  fsops (snd (downloader.extractZip Environments.mixed "/tmp/source.zip" "/workspace" initial))
  = [MkdirAll "/workspace/src" 493; OpenFile "/workspace/src/main.go" 420;
     Copy "/workspace/src/main.go" "package main"] /\
  exists ops,
    fsops (snd (downloader.extractZip Environments.mixed "/tmp/source.zip" "/workspace" initial))
    = (fsops initial ++ ops)%list /\
    Forall (inside (filepath.Clean "/workspace")) ops.
Proof.
  split; [vm_compute; reflexivity|].
  apply (extraction_stays_within_destination Environments.mixed "/tmp/source.zip" "/workspace"
           initial).
  vm_compute. discriminate.
Defined.

(** X4: into an absolute destination directory, an archive with an entry that
    resolves outside the directory is never extracted to the end: extractZip
    returns an error, and extractFile rejects that entry with "invalid file
    path" before it performs any file-system operation. *)
Theorem absolute_destination_rejects_escapes (W : World) (zipPath destDir : string)
    (files : list ZipFile) (f : ZipFile) (st : State) :
  filepath.rooted destDir = true ->
  OpenReader W zipPath = Ok files ->
  In f files ->
  filepath.within (filepath.Clean destDir) (filepath.Join [destDir; zf_Name f]) = false ->
  fst (downloader.extractZip W zipPath destDir st) <> None /\
  forall st1, downloader.extractFile W f destDir st1
              = (Some ("invalid file path: " ++ zf_Name f), st1).
Proof.
  intros Habs Hopen Hin Hout.
  apply extractZip_rejects_escaping_entry; [now apply rooted_Clean_names|exact Hout|].
  intros files' Hopen'. congruence.
Qed.

Lemma absolute_destination_rejects_escapes_witness :
  fst (downloader.extractZip Environments.mixed "/tmp/source.zip" "/workspace" initial) <> None /\
  forall st1, downloader.extractFile Environments.mixed Fixtures.evil "/workspace" st1
              = (Some "invalid file path: ../evil", st1).
Proof.
  apply (absolute_destination_rejects_escapes Environments.mixed "/tmp/source.zip" "/workspace"
           [Fixtures.mainGo; Fixtures.evil] Fixtures.evil initial);
    [reflexivity|reflexivity|right; left; reflexivity|vm_compute; reflexivity].
Defined.

Lemma extractFiles_app (W : World) (pre post : list ZipFile) (destDir : string) (st : State) :
  downloader.extractFiles W (pre ++ post) destDir st
  = match downloader.extractFiles W pre destDir st with
    | (Some e, st1) => (Some e, st1)
    | (None, st1) => downloader.extractFiles W post destDir st1
    end.
Proof.
  revert st. induction pre as [|f pre IH]; intros st; [reflexivity|].
  cbn [app downloader.extractFiles]. rewrite !bind_eq.
  destruct (downloader.extractFile W f destDir st) as [[e|] st1]; cbn [fst snd].
  - reflexivity.
  - apply IH.
Qed.

(** X5: extraction stops at the first entry that fails and undoes nothing:
    when the entries before [f] extract and [f] fails, extractFiles returns
    the error of [f] under its name, in the state the entries before it and
    the attempt on [f] left; the entries after [f] are not touched. *)
Theorem extraction_stops_at_first_failure (W : World) (pre post : list ZipFile) (f : ZipFile)
    (destDir : string) (st : State) (e : error) :
  fst (downloader.extractFiles W pre destDir st) = None ->
  fst (downloader.extractFile W f destDir (snd (downloader.extractFiles W pre destDir st)))
  = Some e ->
  downloader.extractFiles W (pre ++ f :: post) destDir st
  = (Some ("failed to extract " ++ zf_Name f ++ ": " ++ e),
     snd (downloader.extractFile W f destDir (snd (downloader.extractFiles W pre destDir st)))).
Proof.
  intros Hpre Hf. rewrite extractFiles_app.
  destruct (downloader.extractFiles W pre destDir st) as [r st1]. cbn [fst snd] in *. subst r.
  cbn [downloader.extractFiles]. rewrite bind_eq.
  destruct (downloader.extractFile W f destDir st1) as [r st2]. cbn [fst snd] in *. now subst r.
Qed.

Lemma extraction_stops_at_first_failure_witness :
  downloader.extractFiles Environments.mixed
    ([Fixtures.mainGo] ++ Fixtures.evil :: [Fixtures.mainGo]) "/workspace" initial
  = (Some ("failed to extract " ++ zf_Name Fixtures.evil ++ ": " ++ "invalid file path: ../evil"),
     snd (downloader.extractFile Environments.mixed Fixtures.evil "/workspace"
            (snd (downloader.extractFiles Environments.mixed [Fixtures.mainGo] "/workspace"
                    initial)))) /\
  fsops (snd (downloader.extractFiles Environments.mixed
                ([Fixtures.mainGo] ++ Fixtures.evil :: [Fixtures.mainGo]) "/workspace" initial))
  = [MkdirAll "/workspace/src" 493; OpenFile "/workspace/src/main.go" 420;
     Copy "/workspace/src/main.go" "package main"].
Proof.
  split; [|vm_compute; reflexivity].
  apply (extraction_stops_at_first_failure Environments.mixed [Fixtures.mainGo]
           [Fixtures.mainGo] Fixtures.evil "/workspace" initial "invalid file path: ../evil");
    vm_compute; reflexivity.
Defined.

Lemma downloadFile_adds (W : World) (url path : string) :
  addsOnly (fun _ => True) (downloader.downloadFile W url path).
Proof.
  unfold downloader.downloadFile.
  destruct (NewRequest W url); [apply addsOnly_ret|].
  destruct (Do W url) as [resp|e]; [|apply addsOnly_ret].
  destruct (negb _); [apply addsOnly_ret|].
  apply addsOnly_bind; [now apply addsOnly_fsop|]. intros [e|]; [apply addsOnly_ret|].
  apply addsOnly_bind; [now apply addsOnly_fsop|]. intros [e|]; [apply addsOnly_ret|].
  addsOnly_auto.
Qed.

Lemma extractFile_adds (W : World) (f : ZipFile) (destDir : string) :
  addsOnly (fun _ => True) (downloader.extractFile W f destDir).
Proof.
  unfold downloader.extractFile.
  destruct (negb _); [apply addsOnly_ret|].
  destruct (zf_IsDir f); [now apply addsOnly_fsop|].
  apply addsOnly_bind; [now apply addsOnly_fsop|]. intros [e|]; [apply addsOnly_ret|].
  destruct (zf_Open f); [|apply addsOnly_ret].
  apply addsOnly_bind; [now apply addsOnly_fsop|]. intros [e|]; [apply addsOnly_ret|].
  now apply addsOnly_fsop.
Qed.

Lemma extractZip_adds (W : World) (zipPath destDir : string) :
  addsOnly (fun _ => True) (downloader.extractZip W zipPath destDir).
Proof.
  unfold downloader.extractZip.
  destruct (OpenReader W zipPath) as [files|e]; [|apply addsOnly_ret].
  induction files as [|f files IH]; cbn [downloader.extractFiles].
  - apply addsOnly_ret.
  - apply addsOnly_bind; [apply extractFile_adds|].
    intros [e|]; [apply addsOnly_ret|exact IH].
Qed.

Lemma removed_last {A} (W : World) (m : M A) (temp : string) (s : State) :
  addsOnly (fun _ => True) m ->
  exists ops,
    fsops (snd ((r <- m ;; fsop W (Remove temp) ;; ret r) s))
    = (fsops s ++ ops ++ [Remove temp])%list.
Proof.
  intros Hm. destruct (Hm s) as (ops & Hops & _). exists ops.
  rewrite !bind_eq. cbn [ret fsop snd fsops]. now rewrite Hops, app_assoc.
Qed.

Lemma DownloadAndExtract_fs (W : World) (url destDir : string) (st : State) :
  let (err, st') := downloader.DownloadAndExtract W url destDir st in
  match fsAnswer W (fsops st) (MkdirAll destDir 493) with
  | Some e =>
      err = Some ("failed to create destination directory: " ++ e) /\
      fsops st' = (fsops st ++ [MkdirAll destDir 493])%list
  | None =>
      exists ops,
        fsops st' = (fsops st ++ MkdirAll destDir 493 :: ops ++
                     [Remove (filepath.Join [TempDir W; "source.zip"])])%list
  end.
Proof.
  unfold downloader.DownloadAndExtract. rewrite (bind_eq (info _)), (bind_eq (fsop _ _)).
  cbn beta.
  change (fst (fsop W (MkdirAll destDir 493) (snd (info "Downloading source archive" st))))
    with (fsAnswer W (fsops st) (MkdirAll destDir 493)).
  destruct (fsAnswer W (fsops st) (MkdirAll destDir 493)) as [e|]; [split; reflexivity|].
  cbv zeta.
  match goal with
  | |- let (_, _) := bind ?m _ ?s in _ =>
      assert (Hm : addsOnly (fun _ => True) m);
      [|destruct (removed_last W m (filepath.Join [TempDir W; "source.zip"]) s Hm)
          as (ops & Hops)]
  end.
  - apply addsOnly_bind; [apply downloadFile_adds|]. intros [e|]; [apply addsOnly_ret|].
    apply addsOnly_bind; [apply addsOnly_logf|]. intros _.
    apply addsOnly_bind; [apply extractZip_adds|]. intros [e|]; addsOnly_auto.
  - revert Hops.
    match goal with |- context [bind ?m ?k ?s] => destruct (bind m k s) as [err st'] end.
    cbn [snd fsop info logf fsops]. intros ->. exists ops. now rewrite <- app_assoc.
Qed.

(** X6: DownloadAndExtract always cleans up its temporary file: once the
    destination directory has been created, the last file-system operation is
    the removal of the temporary archive, whether the download and the
    extraction succeeded or not; when the directory cannot be created,
    nothing else is attempted. *)
Theorem temp_file_always_removed (W : World) (url destDir : string) (st : State) :
  let (err, st') := downloader.DownloadAndExtract W url destDir st in
  match fsAnswer W (fsops st) (MkdirAll destDir 493) with
  | Some e =>
      err = Some ("failed to create destination directory: " ++ e) /\
      fsops st' = (fsops st ++ [MkdirAll destDir 493])%list
  | None =>
      exists ops,
        fsops st' = (fsops st ++ MkdirAll destDir 493 :: ops ++
                     [Remove (filepath.Join [TempDir W; "source.zip"])])%list
  end.
Proof. apply DownloadAndExtract_fs. Qed.

(** *** The adapters *)

Lemma semgrep_run (W : World) (sourceDir : string) (st : State) :
  adapterRun W (SemgrepScanner.New W)
    match SemgrepScanner.parseResults W (resultsFile W (SemgrepScanner.New W)) with
    | Ok findings => (findings, None)
    | Err e => ([], Some ("failed to parse semgrep results: " ++ e))
    end sourceDir st.
Proof.
  unfold adapterRun, resultsFile. cbn [scanners.Scan scanners.IsAvailable scanners.Name
    SemgrepScanner.New]. unfold SemgrepScanner.Scan, SemgrepScanner.Name.
  change ("semgrep" ++ "-results.json") with "semgrep-results.json".
  set (file := filepath.Join _).
  destruct (SemgrepScanner.IsAvailable W); cbn [negb]; [|split; reflexivity].
  destruct (CombinedOutput W _ _) as [output [e|]];
    destruct (SemgrepScanner.parseResults W file); split; reflexivity.
Qed.

Lemma trivy_run (W : World) (sourceDir : string) (st : State) :
  adapterRun W (TrivyScanner.New W)
    match TrivyScanner.parseResults W (resultsFile W (TrivyScanner.New W)) with
    | Ok findings => (findings, None)
    | Err e => ([], Some ("failed to parse trivy results: " ++ e))
    end sourceDir st.
Proof.
  unfold adapterRun, resultsFile. cbn [scanners.Scan scanners.IsAvailable scanners.Name
    TrivyScanner.New]. unfold TrivyScanner.Scan, TrivyScanner.Name.
  change ("trivy" ++ "-results.json") with "trivy-results.json".
  set (file := filepath.Join _).
  destruct (TrivyScanner.IsAvailable W); cbn [negb]; [|split; reflexivity].
  destruct (CombinedOutput W _ _) as [output [e|]];
    destruct (TrivyScanner.parseResults W file); split; reflexivity.
Qed.

Lemma scancode_run (W : World) (sourceDir : string) (st : State) :
  adapterRun W (ScanCodeScanner.New W)
    match ScanCodeScanner.parseResults W (resultsFile W (ScanCodeScanner.New W)) with
    | Ok findings => (findings, None)
    | Err e => ([], Some ("failed to parse scancode results: " ++ e))
    end sourceDir st.
Proof.
  unfold adapterRun, resultsFile. cbn [scanners.Scan scanners.IsAvailable scanners.Name
    ScanCodeScanner.New]. unfold ScanCodeScanner.Scan, ScanCodeScanner.Name.
  change ("scancode" ++ "-results.json") with "scancode-results.json".
  set (file := filepath.Join _).
  destruct (ScanCodeScanner.IsAvailable W); cbn [negb]; [|split; reflexivity].
  destruct (CombinedOutput W _ _) as [output [e|]];
    destruct (ScanCodeScanner.parseResults W file); split; reflexivity.
Qed.

(* The loop over trufflehog's output lines appends the findings of each line,
   in the order of the lines, and touches no file. *)
Lemma scanLines_decoded (W : World) (lines : list string) :
  forall (findings : list pb.Finding) (st : State),
    fst (forRange lines findings (TruffleHogScanner.scanLine W) st)
    = (findings ++ flat_map (decoded W) lines)%list /\
    fsops (snd (forRange lines findings (TruffleHogScanner.scanLine W) st)) = fsops st.
Proof.
  induction lines as [|line rest IH]; intros findings st.
  - cbn [forRange flat_map ret fst snd]. now rewrite app_nil_r.
  - cbn [forRange flat_map]. rewrite bind_eq.
    destruct (IH (fst (TruffleHogScanner.scanLine W findings line st))
                 (snd (TruffleHogScanner.scanLine W findings line st))) as [-> ->].
    unfold TruffleHogScanner.scanLine, decoded.
    destruct (line =? ""); [split; reflexivity|].
    destruct (unmarshalTruffleHog W line) as [r|e]; cbn [ret fst snd].
    + now rewrite <- app_assoc.
    + split; reflexivity.
Qed.

Lemma trufflehog_run (W : World) (sourceDir : string) (st : State) :
  adapterRun W (TruffleHogScanner.New W)
    match StdoutPipe W, Start W with
    | Some e, _ => ([], Some ("failed to create stdout pipe: " ++ e))
    | None, Some e => ([], Some ("failed to start trufflehog: " ++ e))
    | None, None => (flat_map (decoded W) (stdoutLines W), None)
    end sourceDir st.
Proof.
  unfold adapterRun, resultsFile. cbn [scanners.Scan scanners.IsAvailable scanners.Name
    TruffleHogScanner.New]. unfold TruffleHogScanner.Scan, TruffleHogScanner.Name.
  change ("trufflehog" ++ "-results.json") with "trufflehog-results.json".
  set (file := filepath.Join _).
  destruct (TruffleHogScanner.IsAvailable W); cbn [negb]; [|split; reflexivity].
  destruct (StdoutPipe W) as [e|]; [split; reflexivity|].
  destruct (Start W) as [e|]; [split; reflexivity|].
  rewrite !bind_eq. cbn beta.
  pose proof (scanLines_decoded W (stdoutLines W) [] (snd (info "Starting TruffleHog scan" st)))
    as [Hf Hs].
  destruct (forRange _ _ _ _) as [findings st1]. cbn [fst snd] in *. subst findings.
  cbn [app]. destruct (scannerErr W), (Wait W); cbn [whenErr]; split; try reflexivity;
    cbn [bind ret fst snd fsop warn info logf fsops]; now rewrite Hs.
Qed.

(* What each adapter returns is fixed by the world it runs in; with an error
   it returns no finding, and its findings carry its scan type. *)
Lemma adapter_value (W : World) (s : scanners.Scanner) :
  In s (adapters W) ->
  exists value,
    (forall sourceDir st, adapterRun W s value sourceDir st) /\
    (snd value <> None -> fst value = []) /\
    (forall f, In f (fst value) -> pb.ScanType_ f = scanners.ScanType s).
Proof.
  intros [<-|[<-|[<-|[<-|[]]]]].
  - eexists. split; [intros; apply semgrep_run|].
    unfold SemgrepScanner.parseResults.
    destruct (ReadFile W _); [|split; [reflexivity|intros f []]].
    destruct (unmarshalSemgrep W _); [|split; [reflexivity|intros f []]].
    split; [intros H; now elim H|].
    cbn [fst]. intros f Hf. apply in_map_iff in Hf. destruct Hf as (m & <- & _). reflexivity.
  - eexists. split; [intros; apply trivy_run|].
    unfold TrivyScanner.parseResults.
    destruct (ReadFile W _); [|split; [reflexivity|intros f []]].
    destruct (unmarshalTrivy W _); [|split; [reflexivity|intros f []]].
    split; [intros H; now elim H|].
    cbn [fst]. intros f Hf. apply in_flat_map in Hf. destruct Hf as (t & _ & Hf).
    apply in_map_iff in Hf. destruct Hf as (v & <- & _). reflexivity.
  - eexists. split; [intros; apply trufflehog_run|].
    destruct (StdoutPipe W); [split; [reflexivity|intros f []]|].
    destruct (Start W); [split; [reflexivity|intros f []]|].
    split; [intros H; now elim H|].
    cbn [fst]. intros f Hf. apply in_flat_map in Hf. destruct Hf as (line & _ & Hf).
    unfold decoded in Hf. destruct (line =? ""); [destruct Hf|].
    destruct (unmarshalTruffleHog W line); [|destruct Hf].
    destruct Hf as [<-|[]]. reflexivity.
  - eexists. split; [intros; apply scancode_run|].
    unfold ScanCodeScanner.parseResults.
    destruct (ReadFile W _); [|split; [reflexivity|intros f []]].
    destruct (unmarshalScanCode W _); [|split; [reflexivity|intros f []]].
    split; [intros H; now elim H|].
    cbn [fst]. intros f Hf. apply in_flat_map in Hf. destruct Hf as (t & _ & Hf).
    apply in_map_iff in Hf. destruct Hf as (v & <- & _). reflexivity.
Qed.

Lemma adapter_quiet (W : World) (s : scanners.Scanner) : In s (adapters W) -> quietScanner s.
Proof.
  intros [<-|[<-|[<-|[<-|[]]]]] sourceDir;
    [apply quiet_semgrep|apply quiet_trivy|apply quiet_trufflehog|apply quiet_scancode].
Qed.

Lemma adapter_stateless (W : World) (s : scanners.Scanner) : In s (adapters W) -> stateless s.
Proof.
  intros Hs sourceDir st. destruct (adapter_value W s Hs) as (value & Hrun & _).
  destruct (Hrun sourceDir st) as [-> _]. destruct (Hrun sourceDir initial) as [-> _].
  reflexivity.
Qed.

(** X7: the protocol every adapter keeps. Scan of the semgrep, trivy,
    trufflehog and scancode adapters sends nothing to the orchestrator; when
    it returns an error it returns no finding; every finding it returns
    carries the adapter's own scan type; when the tool is installed the only
    file-system operation is the removal of the adapter's results file
    (TempDir/<name>-results.json) at the end, and when it is not, Scan
    returns "<name> is not installed" and touches nothing. *)
Theorem adapter_scan_protocol (W : World) (s : scanners.Scanner) (sourceDir : string)
    (st : State) :
  In s (adapters W) ->
  let (r, st') := scanners.Scan s sourceDir st in
  rpcs st' = rpcs st /\
  (snd r <> None -> fst r = []) /\
  (forall f, In f (fst r) -> pb.ScanType_ f = scanners.ScanType s) /\
  if scanners.IsAvailable s
  then fsops st' = (fsops st ++ [Remove (resultsFile W s)])%list
  else r = ([], Some (scanners.Name s ++ " is not installed")) /\ fsops st' = fsops st.
Proof.
  intros Hs.
  pose proof (adapter_quiet W s Hs sourceDir st) as Hq.
  destruct (adapter_value W s Hs) as (value & Hrun & Herr & Htype).
  destruct (Hrun sourceDir st) as [Hr Hfs].
  destruct (scanners.Scan s sourceDir st) as [r st']. cbn [fst snd] in *.
  split; [exact Hq|]. subst r.
  destruct (scanners.IsAvailable s).
  - repeat split; assumption.
  - repeat split; try assumption. intros f [].
Qed.

Lemma adapter_scan_protocol_witness :
  fst (scanners.Scan (TrivyScanner.New Environments.reported) "/workspace" initial)
  = ([{| pb.ScanType_ := pb.ScanType_SCA; pb.Severity_ := pb.Severity_HIGH;
         pb.Title := "CVE-2024-0001 in grpc@1.0.0";
         pb.Description := "overflow" ++ newline ++ newline ++ "Fixed in version: 1.0.1";
         pb.FilePath := "go.mod"; pb.LineNumber := 0; pb.CodeSnippet := ""; pb.CweId := "";
         pb.CveId := "CVE-2024-0001" |}], None) /\
  let (r, st') := scanners.Scan (TrivyScanner.New Environments.reported) "/workspace" initial in
  rpcs st' = rpcs initial /\
  (snd r <> None -> fst r = []) /\
  (forall f, In f (fst r) ->
             pb.ScanType_ f = scanners.ScanType (TrivyScanner.New Environments.reported)) /\
  if scanners.IsAvailable (TrivyScanner.New Environments.reported)
  then fsops st' = (fsops initial ++
                    [Remove (resultsFile Environments.reported
                               (TrivyScanner.New Environments.reported))])%list
  else r = ([], Some (scanners.Name (TrivyScanner.New Environments.reported) ++
                      " is not installed")) /\ fsops st' = fsops initial.
Proof.
  split; [vm_compute; reflexivity|].
  apply (adapter_scan_protocol Environments.reported (TrivyScanner.New Environments.reported)
           "/workspace" initial).
  right; left; reflexivity.
Defined.

(** X8: the semgrep, trivy and scancode adapters take their result from the
    results file alone. When the tool is installed, Scan returns the findings
    parseResults reads from the adapter's results file, with no error, or no
    finding and "failed to parse <name> results: ..." when the file cannot be
    read or decoded; the exit status and the output of the tool play no part. *)
Theorem document_adapter_result (W : World) (s : scanners.Scanner)
    (parse : string -> result (list pb.Finding)) (sourceDir : string) (st : State) :
  In (s, parse) (documentAdapters W) ->
  scanners.IsAvailable s = true ->
  fst (scanners.Scan s sourceDir st)
  = match parse (resultsFile W s) with
    | Ok findings => (findings, None)
    | Err e => ([], Some ("failed to parse " ++ scanners.Name s ++ " results: " ++ e))
    end.
Proof.
  intros [H|[H|[H|[]]]] Havail; inversion H; subst s parse; clear H.
  - destruct (semgrep_run W sourceDir st) as [-> _]. now rewrite Havail.
  - destruct (trivy_run W sourceDir st) as [-> _]. now rewrite Havail.
  - destruct (scancode_run W sourceDir st) as [-> _]. now rewrite Havail.
Qed.

Lemma document_adapter_result_witness :
  fst (scanners.Scan (SemgrepScanner.New Environments.reported) "/workspace" initial)
  = match SemgrepScanner.parseResults Environments.reported
            (resultsFile Environments.reported (SemgrepScanner.New Environments.reported)) with
    | Ok findings => (findings, None)
    | Err e => ([], Some ("failed to parse " ++
                          scanners.Name (SemgrepScanner.New Environments.reported) ++
                          " results: " ++ e))
    end /\
  fst (scanners.Scan (SemgrepScanner.New Environments.reported) "/workspace" initial)
  = ([], Some "failed to parse semgrep results: failed to unmarshal JSON: unexpected end of JSON input").
Proof.
  split; [|vm_compute; reflexivity].
  apply (document_adapter_result Environments.reported
           (SemgrepScanner.New Environments.reported)
           (SemgrepScanner.parseResults Environments.reported) "/workspace" initial).
  - left; reflexivity.
  - reflexivity.
Defined.

(** X9: once trufflehog has started, Scan returns no error and the findings
    of the output lines it reads, in the order of the lines: nothing for an
    empty line or a line that does not decode, one finding for every other
    line. The lines it reads are the output lines before the first line of
    65536 bytes or more, so all of them when every line is shorter. Every
    finding of the secrets adapter has severity HIGH. *)
Theorem trufflehog_findings_in_output_order (W : World) (sourceDir : string) (st : State) :
  TruffleHogScanner.IsAvailable W = true ->
  StdoutPipe W = None ->
  Start W = None ->
  fst (TruffleHogScanner.Scan W sourceDir st)
  = (flat_map (decoded W) (readLines (stdout W)), None) /\
  (shortLines (stdout W) -> readLines (stdout W) = outputLines (stdout W)) /\
  forall f, In f (flat_map (decoded W) (readLines (stdout W))) ->
            pb.Severity_ f = pb.Severity_HIGH.
Proof.
  intros Havail Hpipe Hstart. split; [|split].
  - destruct (trufflehog_run W sourceDir st) as [H _].
    cbn [scanners.Scan scanners.IsAvailable TruffleHogScanner.New] in H.
    now rewrite H, Havail, Hpipe, Hstart, stdoutLines_spec.
  - intros Hshort. now apply shortLines_read.
  - intros f Hf. apply in_flat_map in Hf. destruct Hf as (line & _ & Hf).
    unfold decoded in Hf. destruct (line =? ""); [destruct Hf|].
    destruct (unmarshalTruffleHog W line); [|destruct Hf].
    destruct Hf as [<-|[]]. reflexivity.
Qed.

Lemma trufflehog_findings_in_output_order_witness :
  map pb.Title (fst (fst (TruffleHogScanner.Scan Fixtures.streamed "/workspace" initial)))
  = ["Secret detected: AWS"; "Secret detected: AWS"] /\
  outputLines (stdout Fixtures.streamed) = ["{a}"; ""; "garbage"; "{b}"] /\
  fst (TruffleHogScanner.Scan Fixtures.streamed "/workspace" initial)
  = (flat_map (decoded Fixtures.streamed) (readLines (stdout Fixtures.streamed)), None) /\
  (shortLines (stdout Fixtures.streamed) ->
   readLines (stdout Fixtures.streamed) = outputLines (stdout Fixtures.streamed)) /\
  forall f, In f (flat_map (decoded Fixtures.streamed) (readLines (stdout Fixtures.streamed))) ->
            pb.Severity_ f = pb.Severity_HIGH.
Proof.
  split; [vm_compute; reflexivity|]. split; [vm_compute; reflexivity|].
  apply (trufflehog_findings_in_output_order Fixtures.streamed "/workspace" initial);
    reflexivity.
Defined.

(** *** Choosing and running the scanners *)

Lemma requested_adapters (W : World) (scanType : string) (s : scanners.Scanner) :
  In s (requested W scanType) -> In s (adapters W).
Proof.
  unfold requested, adapters.
  repeat match goal with |- context [if ?b then _ else _] => destruct b end;
    intros [<-|[]] || intros []; simpl; tauto.
Qed.

Lemma addScanner_spec (W : World) (scannerList : list scanners.Scanner) (scanType : string)
    (st : State) :
  let (l, st') := addScanner W scannerList scanType st in
  l = (scannerList ++ filter scanners.IsAvailable (requested W scanType))%list /\
  (exists warnings,
     logs st' = (logs st ++ warnings)%list /\
     Forall (fun entry => level entry = WarnLevel) warnings /\
     List.length l + List.length warnings = S (List.length scannerList)) /\
  fsops st' = fsops st.
Proof.
  unfold addScanner, requested.
  repeat match goal with |- context [if ?b then _ else _] => destruct b eqn:? end;
    cbn [filter bind ret warn logf logs fsops fst snd];
    repeat match goal with
           | H : ?b = _ |- context [?b] => rewrite H
           end;
    rewrite ?app_nil_r; (split; [reflexivity|]); (split; [|reflexivity]);
    first [ exists []; rewrite app_nil_r, length_app; cbn [List.length];
            split; [reflexivity|]; split; [constructor|lia]
          | eexists [_]; split; [reflexivity|]; split;
            [repeat constructor|cbn [List.length]; lia] ].
Qed.

(* The loop of initializeScanners, from any list of scanners found so far. *)
Lemma initializeScanners_loop (W : World) (scanTypes : list string) :
  forall (scannerList : list scanners.Scanner) (st : State),
    let (l, st') := forRange scanTypes scannerList (addScanner W) st in
    l = (scannerList ++
         filter scanners.IsAvailable (flat_map (requested W) scanTypes))%list /\
    (exists warnings,
       logs st' = (logs st ++ warnings)%list /\
       Forall (fun entry => level entry = WarnLevel) warnings /\
       List.length l + List.length warnings
       = List.length scannerList + List.length scanTypes) /\
    fsops st' = fsops st.
Proof.
  induction scanTypes as [|t rest IH]; intros scannerList st.
  - cbn [forRange flat_map filter ret]. rewrite app_nil_r. split; [reflexivity|].
    split; [|reflexivity]. exists []. rewrite app_nil_r. cbn [List.length].
    split; [reflexivity|]. split; [constructor|lia].
  - cbn [forRange flat_map]. rewrite bind_eq.
    pose proof (addScanner_spec W scannerList t st) as Hstep.
    destruct (addScanner W scannerList t st) as [l1 st1]. cbn [fst snd].
    destruct Hstep as (Hl1 & (w1 & Hw1 & Hlev1 & Hn1) & Hf1).
    specialize (IH l1 st1). destruct (forRange rest l1 (addScanner W) st1) as [l st'].
    destruct IH as (Hl & (w & Hw & Hlev & Hn) & Hf).
    split; [|split; [|congruence]].
    + subst l l1. now rewrite filter_app, app_assoc.
    + exists (w1 ++ w)%list. rewrite Hw, Hw1, app_assoc. split; [reflexivity|].
      split; [now apply Forall_app|]. rewrite length_app. cbn [List.length]. lia.
Qed.

Lemma initializeScanners_eq (W : World) (scanTypes : list string) (st : State) :
  fst (initializeScanners W scanTypes st)
  = filter scanners.IsAvailable (flat_map (requested W) scanTypes).
Proof.
  unfold initializeScanners. pose proof (initializeScanners_loop W scanTypes [] st) as H.
  destruct (forRange _ _ _ _) as [l st']. now destruct H as [-> _].
Qed.

Lemma initializeScanners_adapters (W : World) (scanTypes : list string) (st : State)
    (s : scanners.Scanner) :
  In s (fst (initializeScanners W scanTypes st)) ->
  In s (adapters W) /\ scanners.IsAvailable s = true.
Proof.
  rewrite initializeScanners_eq. intros Hs. apply filter_In in Hs. destruct Hs as [Hs Ha].
  split; [|exact Ha]. apply in_flat_map in Hs. destruct Hs as (t & _ & Hs).
  eapply requested_adapters; eauto.
Qed.

(** X10: initializeScanners returns, in the order of the requested scan
    types, the adapter of every type it knows (sast, sca, secrets, license,
    in lower or upper case) whose tool is installed, once for every time the
    type is requested; for every type left out, unknown or without its tool,
    it logs one warning and nothing else; so every scanner returned is one of
    the four adapters and is available. Nothing is written to the file
    system. *)
Theorem initializeScanners_selects (W : World) (scanTypes : list string) (st : State) :
  let (scannerList, st') := initializeScanners W scanTypes st in
  scannerList = filter scanners.IsAvailable (flat_map (requested W) scanTypes) /\
  (exists warnings,
     logs st' = (logs st ++ warnings)%list /\
     Forall (fun entry => level entry = WarnLevel) warnings /\
     List.length scannerList + List.length warnings = List.length scanTypes) /\
  (forall s, In s scannerList -> In s (adapters W) /\ scanners.IsAvailable s = true) /\
  fsops st' = fsops st.
Proof.
  pose proof (initializeScanners_loop W scanTypes [] st) as H.
  pose proof (initializeScanners_adapters W scanTypes st) as Hin.
  unfold initializeScanners in *.
  destruct (forRange _ _ _ _) as [l st']. cbn [fst] in Hin.
  destruct H as (Hl & Hn & Hf). cbn [app] in Hl. cbn [List.length] in Hn.
  split; [exact Hl|]. split; [exact Hn|]. split; [exact Hin|exact Hf].
Qed.

Lemma goroutine_alone (sourceDir : string) (idx : nat) (scnr : scanners.Scanner)
    (results : list (option scanners.Result)) (st : State) :
  stateless scnr ->
  fst (goroutine sourceDir idx scnr results st)
  = store results idx (Some (alone sourceDir scnr)).
Proof.
  intros Hs. unfold goroutine, alone. rewrite !bind_eq. cbn beta.
  rewrite (Hs sourceDir).
  destruct (fst (scanners.Scan scnr sourceDir initial)) as [findings err].
  rewrite bind_eq. reflexivity.
Qed.

Lemma goroutine_exact (scannerList : list scanners.Scanner) (sourceDir : string)
    (unfinished : list (nat * scanners.Scanner)) (results : list (option scanners.Result))
    (k : nat) (first : nat * scanners.Scanner) (st : State) :
  slotsExact sourceDir scannerList unfinished results ->
  k < List.length unfinished ->
  slotsExact sourceDir scannerList (removeNth k unfinished)
    (fst (goroutine sourceDir (fst (nth k unfinished first)) (snd (nth k unfinished first))
            results st)).
Proof.
  intros (Hlen & Hpend & Hall) Hk.
  pose proof (nth_In unfinished first Hk) as Hin.
  destruct (nth k unfinished first) as [idx scnr] eqn:Hnth. cbn [fst snd].
  destruct (Hpend _ _ Hin) as [Hidx Hstateless].
  rewrite goroutine_alone by exact Hstateless.
  assert (Hlt : idx < List.length results).
  { rewrite Hlen. apply nth_error_Some. congruence. }
  split; [|split].
  - now rewrite store_length.
  - intros i s Hi. apply Hpend. eapply removeNth_incl; eauto.
  - intros i s Hs. destruct (Nat.eq_dec idx i) as [->|Hne].
    + right. rewrite store_same by exact Hlt. congruence.
    + rewrite store_other by exact Hne.
      destruct (Hall i s Hs) as [Hp|Hf]; [|now right].
      destruct (removeNth_keeps k unfinished first (i, s) Hp) as [Heq|Hrem]; [|now left].
      rewrite Hnth in Heq. inversion Heq. congruence.
Qed.

Lemma wait_exact (W : World) (scannerList : list scanners.Scanner) (sourceDir : string)
    (n : nat) :
  forall unfinished results st,
    slotsExact sourceDir scannerList unfinished results ->
    List.length unfinished <= n ->
    slotsExact sourceDir scannerList [] (fst (wait W n sourceDir unfinished results st)).
Proof.
  induction n as [|n IH]; intros unfinished results st Hinv Hn.
  - destruct unfinished; simpl in *; [exact Hinv|lia].
  - destruct unfinished as [|first rest]; [exact Hinv|].
    cbn [wait]. set (unf := first :: rest) in *.
    set (k := pick W (map fst unf) mod List.length unf).
    assert (Hk : k < List.length unf).
    { apply Nat.mod_upper_bound. unfold unf. simpl. lia. }
    pose proof (goroutine_exact scannerList sourceDir unf results k first st Hinv Hk) as Hstep.
    destruct (nth k unf first) as [idx scnr]. cbn [fst snd] in Hstep.
    rewrite bind_eq. apply IH; [exact Hstep|].
    pose proof (removeNth_length k unf Hk). lia.
Qed.

Lemma nth_error_ext {A} (l1 l2 : list A) :
  (forall i, nth_error l1 i = nth_error l2 i) -> l1 = l2.
Proof.
  revert l2. induction l1 as [|x l1 IH]; intros [|y l2] H.
  - reflexivity.
  - specialize (H 0). discriminate.
  - specialize (H 0). discriminate.
  - pose proof (H 0) as H0. inversion H0. f_equal. apply IH. intros i. exact (H (S i)).
Qed.

Lemma runScannersParallel_alone (W : World) (scannerList : list scanners.Scanner)
    (sourceDir : string) (st : State) :
  (forall s, In s scannerList -> stateless s) ->
  fst (runScannersParallel W scannerList sourceDir st)
  = map (fun s => Some (alone sourceDir s)) scannerList.
Proof.
  intros Hstateless.
  assert (Hinv : slotsExact sourceDir scannerList []
                   (fst (runScannersParallel W scannerList sourceDir st))).
  { unfold runScannersParallel.
    set (started := combine (seq 0 (List.length scannerList)) scannerList).
    apply wait_exact; [|apply Nat.le_refl].
    split; [apply repeat_length|]. split.
    - intros idx scnr Hin. apply in_started in Hin. destruct Hin as [_ H].
      rewrite Nat.sub_0_r in H. split; [exact H|].
      apply Hstateless. eapply nth_error_In; eauto.
    - intros idx scnr H. left. apply in_started. rewrite Nat.sub_0_r. split; [lia|exact H]. }
  destruct Hinv as (Hlen & _ & Hall).
  apply nth_error_ext. intros i. rewrite nth_error_map.
  destruct (nth_error scannerList i) as [s|] eqn:Hs; cbn [option_map].
  - destruct (Hall i s Hs) as [[]|H]. exact H.
  - apply nth_error_None. rewrite Hlen. now apply nth_error_None.
Qed.



(** *** The ways runScan ends *)

Lemma addsOnly_none {A} (m : M A) (st : State) :
  addsOnly (fun _ => False) m -> fsops (snd (m st)) = fsops st.
Proof.
  intros H. destruct (H st) as (ops & Hops & Hnone).
  destruct ops as [|op ops]; [now rewrite app_nil_r in Hops|].
  inversion Hnone; contradiction.
Qed.

Lemma UpdateScanStatus_fs (W : World) (c : orchestrator.Client) (scanID : string)
    (status : pb.ScanStatus) (msg : string) :
  addsOnly (fun _ => False) (orchestrator.UpdateScanStatus W c scanID status msg).
Proof. unfold orchestrator.UpdateScanStatus. addsOnly_auto. Qed.

Lemma NewClient_fs (W : World) (endpoint : string) :
  addsOnly (fun _ => False) (orchestrator.NewClient W endpoint).
Proof. unfold orchestrator.NewClient. addsOnly_auto. Qed.

(* runScan once the connection is made: the stage up to the scanners, the
   report, and the deferred Close. *)
Lemma runScan_connected (W : World) (cfg : config.Config) (st : State) :
  Dial W (config.OrchestratorEndpoint cfg) = None ->
  exists c st1,
    rpcs st1 = rpcs st /\ fsops st1 = fsops st /\
    runScan W cfg st
    = match scanStage W c cfg st1 with
      | (Returned err, st2) => (Returns err, snd (orchestrator.Close c st2))
      | (Scanned results, st2) =>
          (fst (reportResults W c cfg results st2),
           snd (orchestrator.Close c (snd (reportResults W c cfg results st2))))
      end /\
    scanned W cfg st
    = match scanStage W c cfg st1 with
      | (Returned _, _) => None
      | (Scanned results, st2) => Some (c, results, st2)
      end.
Proof.
  intros Hdial. unfold runScan, scanned. rewrite !bind_eq. cbn beta.
  set (st0 := snd (info "Connecting to orchestrator" st)).
  pose proof (NewClient_quiet W (config.OrchestratorEndpoint cfg) st0) as Hq.
  pose proof (addsOnly_none _ st0 (NewClient_fs W (config.OrchestratorEndpoint cfg))) as Hfs.
  assert (Hc : fst (orchestrator.NewClient W (config.OrchestratorEndpoint cfg) st0)
               = Ok {| orchestrator.endpoint := config.OrchestratorEndpoint cfg |}).
  { unfold orchestrator.NewClient. rewrite bind_eq. cbn beta. rewrite Hdial. reflexivity. }
  destruct (orchestrator.NewClient W _ st0) as [c' st1]. cbn [fst snd] in *. subst c'.
  exists {| orchestrator.endpoint := config.OrchestratorEndpoint cfg |}, st1.
  split; [exact Hq|]. split; [exact Hfs|].
  rewrite !bind_eq. cbn beta.
  destruct (scanStage W _ cfg st1) as [[err|results] st2]; cbn [fst snd ret]; split; reflexivity.
Qed.

(* The stage up to the scanners when the source is an artifact. *)
Lemma scanStage_download (W : World) (c : orchestrator.Client) (cfg : config.Config)
    (st : State) :
  config.SourceDownloadURL cfg <> "" ->
  exists st1,
    rpcs st1 = (rpcs st ++ [statusRequest (config.ScanID cfg) pb.ScanStatus_RUNNING ""])%list /\
    fsops st1 = fsops st /\
    scanStage W c cfg st
    = match downloader.DownloadAndExtract W (config.SourceDownloadURL cfg)
              (config.WorkDir cfg) st1 with
      | (Some e, st2) =>
          (Returned (Some ("failed to download source: " ++ e)),
           snd (orchestrator.UpdateScanStatus W c (config.ScanID cfg) pb.ScanStatus_FAILED
                  ("Failed to download source: " ++ e) st2))
      | (None, st2) =>
          match initializeScanners W (config.ScanTypes cfg) st2 with
          | ([], st3) =>
              (Returned (Some "no scanners available"),
               snd (orchestrator.UpdateScanStatus W c (config.ScanID cfg) pb.ScanStatus_FAILED
                      "No scanners available for requested scan types" st3))
          | (scannerList, st3) =>
              runScannersParallel_staged W scannerList (config.WorkDir cfg) st3
          end
      end.
Proof.
  intros Hurl. apply String.eqb_neq in Hurl.
  unfold scanStage, prepareSource. rewrite Hurl. cbn [negb].
  mstep. mstep.
  set (st0 := snd (whenErr _ _ _)).
  assert (Hst0 : rpcs st0
                 = (rpcs st ++ [statusRequest (config.ScanID cfg) pb.ScanStatus_RUNNING ""])%list).
  { unfold st0. rewrite quiet_rpcs by (apply quiet_whenErr; intros; apply quiet_logf).
    apply UpdateScanStatus_rpcs. }
  assert (Hfs0 : fsops st0 = fsops st).
  { unfold st0. rewrite addsOnly_none by (apply addsOnly_whenErr; intros; apply addsOnly_logf).
    apply addsOnly_none, UpdateScanStatus_fs. }
  clearbody st0.
  exists (snd (info "Downloading source code from artifact" st0)).
  split; [exact Hst0|]. split; [exact Hfs0|].
  mstep. mstep. mstep.
  destruct (downloader.DownloadAndExtract W _ _ _) as [[e|] st2]; cbn [fst snd].
  - mstep. reflexivity.
  - cbn [ret fst snd]. mstep.
    destruct (initializeScanners W (config.ScanTypes cfg) st2) as [[|s l] st3]; cbn [fst snd].
    + cbn [List.length Nat.eqb]. mstep. reflexivity.
    + cbn [List.length Nat.eqb]. unfold runScannersParallel_staged.
      mstep. mstep. mstep. cbn [ret].
      destruct (runScannersParallel W _ _ _); reflexivity.
Qed.

(** X12: when the orchestrator cannot be reached, runScan returns "failed to
    connect to orchestrator: failed to connect to orchestrator: <cause>" (the
    client and runScan each wrap the error), sends no request and touches no
    file: nothing is downloaded and no scanner runs. *)
Theorem connection_failure_does_nothing (W : World) (cfg : config.Config) (st : State)
    (e : error) :
  Dial W (config.OrchestratorEndpoint cfg) = Some e ->
  let (out, st') := runScan W cfg st in
  out = Returns (Some ("failed to connect to orchestrator: " ++
                       "failed to connect to orchestrator: " ++ e)) /\
  rpcs st' = rpcs st /\ fsops st' = fsops st /\ scanned W cfg st = None.
Proof.
  intros Hdial. unfold runScan, scanned, orchestrator.NewClient.
  rewrite !bind_eq. cbn beta. rewrite Hdial. cbn [ret fst snd info logf rpcs fsops].
  repeat split; reflexivity.
Qed.

Lemma connection_failure_does_nothing_witness :
  let (out, st') := runScan Environments.unreachable (Fixtures.cfg ["sast"] "/workspace")
                      initial in
  out = Returns (Some ("failed to connect to orchestrator: " ++
                       "failed to connect to orchestrator: " ++ "context deadline exceeded")) /\
  rpcs st' = rpcs initial /\ fsops st' = fsops initial /\
  scanned Environments.unreachable (Fixtures.cfg ["sast"] "/workspace") initial = None.
Proof.
  apply (connection_failure_does_nothing Environments.unreachable
           (Fixtures.cfg ["sast"] "/workspace") initial "context deadline exceeded").
  reflexivity.
Defined.

(** X13: when the download or the extraction of the source fails, runScan
    reports RUNNING and then FAILED with "Failed to download source: <cause>",
    returns "failed to download source: <cause>" and runs no scanner. *)
Theorem download_failure_fails_the_scan (W : World) (cfg : config.Config) (st : State)
    (e : error) :
  Dial W (config.OrchestratorEndpoint cfg) = None ->
  config.SourceDownloadURL cfg <> "" ->
  (forall st1, fsops st1 = fsops st ->
     fst (downloader.DownloadAndExtract W (config.SourceDownloadURL cfg)
            (config.WorkDir cfg) st1) = Some e) ->
  let (out, st') := runScan W cfg st in
  out = Returns (Some ("failed to download source: " ++ e)) /\
  rpcs st' = (rpcs st ++
              [statusRequest (config.ScanID cfg) pb.ScanStatus_RUNNING "";
               statusRequest (config.ScanID cfg) pb.ScanStatus_FAILED
                 ("Failed to download source: " ++ e)])%list /\
  scanned W cfg st = None.
Proof.
  intros Hdial Hurl Hfail.
  destruct (runScan_connected W cfg st Hdial) as (c & st1 & Hr1 & Hf1 & -> & ->).
  destruct (scanStage_download W c cfg st1 Hurl) as (st2 & Hr2 & Hf2 & ->).
  pose proof (Hfail st2 ltac:(congruence)) as Hd.
  pose proof (quiet_download W (config.SourceDownloadURL cfg) (config.WorkDir cfg) st2) as Hq.
  destruct (downloader.DownloadAndExtract W _ _ st2) as [err st3]. cbn [fst snd] in *.
  subst err. split; [reflexivity|]. split; [|reflexivity].
  unfold orchestrator.Close. cbn [info logf snd rpcs].
  rewrite UpdateScanStatus_rpcs, Hq, Hr2, Hr1, <- app_assoc. reflexivity.
Qed.

Lemma download_failure_fails_the_scan_witness :
  let (out, st') := runScan Fixtures.noContent (Fixtures.cfg ["secrets"] "/workspace")
                      initial in
  out = Returns (Some ("failed to download source: " ++
                       "failed to download source: download failed with status: 204 No Content")) /\
  rpcs st' = (rpcs initial ++
              [statusRequest (config.ScanID (Fixtures.cfg ["secrets"] "/workspace"))
                 pb.ScanStatus_RUNNING "";
               statusRequest (config.ScanID (Fixtures.cfg ["secrets"] "/workspace"))
                 pb.ScanStatus_FAILED
                 ("Failed to download source: " ++
                  "failed to download source: download failed with status: 204 No Content")])%list /\
  scanned Fixtures.noContent (Fixtures.cfg ["secrets"] "/workspace") initial = None.
Proof.
  apply (download_failure_fails_the_scan Fixtures.noContent
           (Fixtures.cfg ["secrets"] "/workspace") initial
           "failed to download source: download failed with status: 204 No Content").
  - reflexivity.
  - discriminate.
  - intros st1 _. reflexivity.
Defined.

(** X14: when none of the requested scan types gives an available scanner,
    runScan, having downloaded and extracted the source, reports RUNNING and
    then FAILED with "No scanners available for requested scan types" and
    returns "no scanners available". *)
Theorem no_scanner_fails_the_scan (W : World) (cfg : config.Config) (st : State) :
  Dial W (config.OrchestratorEndpoint cfg) = None ->
  config.SourceDownloadURL cfg <> "" ->
  (forall st1, fsops st1 = fsops st ->
     fst (downloader.DownloadAndExtract W (config.SourceDownloadURL cfg)
            (config.WorkDir cfg) st1) = None) ->
  filter scanners.IsAvailable (flat_map (requested W) (config.ScanTypes cfg)) = [] ->
  let (out, st') := runScan W cfg st in
  out = Returns (Some "no scanners available") /\
  rpcs st' = (rpcs st ++
              [statusRequest (config.ScanID cfg) pb.ScanStatus_RUNNING "";
               statusRequest (config.ScanID cfg) pb.ScanStatus_FAILED
                 "No scanners available for requested scan types"])%list /\
  scanned W cfg st = None.
Proof.
  intros Hdial Hurl Hok Hnone.
  destruct (runScan_connected W cfg st Hdial) as (c & st1 & Hr1 & Hf1 & -> & ->).
  destruct (scanStage_download W c cfg st1 Hurl) as (st2 & Hr2 & Hf2 & ->).
  pose proof (Hok st2 ltac:(congruence)) as Hd.
  pose proof (quiet_download W (config.SourceDownloadURL cfg) (config.WorkDir cfg) st2) as Hq.
  destruct (downloader.DownloadAndExtract W _ _ st2) as [err st3]. cbn [fst snd] in *.
  subst err.
  pose proof (initializeScanners_eq W (config.ScanTypes cfg) st3) as Hl.
  pose proof (initializeScanners_quiet W (config.ScanTypes cfg) st3) as Hq3.
  destruct (initializeScanners W (config.ScanTypes cfg) st3) as [l st4]. cbn [fst snd] in *.
  rewrite Hnone in Hl. subst l.
  split; [reflexivity|]. split; [|reflexivity].
  unfold orchestrator.Close. cbn [info logf snd rpcs].
  rewrite UpdateScanStatus_rpcs, Hq3, Hq, Hr2, Hr1, <- app_assoc. reflexivity.
Qed.

Lemma no_scanner_fails_the_scan_witness :
  let (out, st') := runScan Environments.bare (Fixtures.cfg ["sast"; " sca"; "dast"] "/workspace")
                      initial in
  out = Returns (Some "no scanners available") /\
  rpcs st' = (rpcs initial ++
              [statusRequest (config.ScanID (Fixtures.cfg ["sast"; " sca"; "dast"] "/workspace"))
                 pb.ScanStatus_RUNNING "";
               statusRequest (config.ScanID (Fixtures.cfg ["sast"; " sca"; "dast"] "/workspace"))
                 pb.ScanStatus_FAILED
                 "No scanners available for requested scan types"])%list /\
  scanned Environments.bare (Fixtures.cfg ["sast"; " sca"; "dast"] "/workspace") initial = None.
Proof.
  apply (no_scanner_fails_the_scan Environments.bare
           (Fixtures.cfg ["sast"; " sca"; "dast"] "/workspace") initial).
  - reflexivity.
  - discriminate.
  - intros st1 _. reflexivity.
  - reflexivity.
Defined.

Lemma scanStage_returned (W : World) (c : orchestrator.Client) (cfg : config.Config)
    (st : State) (err : option error) :
  fst (scanStage W c cfg st) = Returned err -> err <> None.
Proof.
  unfold scanStage. mstep. mstep. set (st1 := snd (whenErr _ _ _)). clearbody st1. mstep.
  destruct (prepareSource W c cfg st1) as [[e|] st2]; cbn [fst snd].
  - cbn [ret fst]. intros H. inversion H. discriminate.
  - mstep. destruct (initializeScanners W (config.ScanTypes cfg) st2) as [l st3].
    cbn [fst snd]. destruct (List.length l =? 0)%nat.
    + mstep. cbn [ret fst]. intros H. inversion H. discriminate.
    + mstep. mstep. mstep. cbn [ret fst]. discriminate.
Qed.

(* The results of the stage are those of runScannersParallel on the scanners
   initializeScanners chose. *)
Lemma scanStage_results (W : World) (c : orchestrator.Client) (cfg : config.Config)
    (st : State) (results : list (option scanners.Result)) :
  fst (scanStage W c cfg st) = Scanned results ->
  exists st0 st1,
    results = fst (runScannersParallel W
                     (fst (initializeScanners W (config.ScanTypes cfg) st0))
                     (config.WorkDir cfg) st1).
Proof.
  unfold scanStage. mstep. mstep. set (st1 := snd (whenErr _ _ _)). clearbody st1. mstep.
  destruct (prepareSource W c cfg st1) as [[e|] st2]; cbn [fst snd].
  - cbn [ret fst]. discriminate.
  - mstep.
    remember (initializeScanners W (config.ScanTypes cfg) st2) as chosen eqn:Hl.
    destruct chosen as [l st3]. cbn [fst snd]. destruct (List.length l =? 0)%nat.
    + mstep. cbn [ret fst]. discriminate.
    + mstep. mstep. mstep. cbn [ret fst]. intros H. inversion H.
      exists st2. eexists. rewrite <- Hl. reflexivity.
Qed.

Lemma runScan_not_scanned (W : World) (cfg : config.Config) (st : State) :
  scanned W cfg st = None -> exists e, fst (runScan W cfg st) = Returns (Some e).
Proof.
  unfold scanned, runScan. rewrite !bind_eq. cbn beta.
  destruct (orchestrator.NewClient W _ _) as [[c|e] st1]; cbn [fst snd].
  - rewrite !bind_eq. cbn beta.
    pose proof (scanStage_returned W c cfg st1) as Hret.
    destruct (scanStage W c cfg st1) as [[err|results] st2]; [|discriminate].
    intros _. cbn [fst snd ret] in *.
    destruct err as [e|]; [eauto|]. now elim (Hret None).
  - intros _. cbn [ret fst]. eauto.
Qed.

Lemma scanned_results (W : World) (cfg : config.Config) (st : State)
    (c : orchestrator.Client) (results : list (option scanners.Result)) (st2 : State) :
  scanned W cfg st = Some (c, results, st2) ->
  results = map (fun s => Some (alone (config.WorkDir cfg) s))
              (filter scanners.IsAvailable (flat_map (requested W) (config.ScanTypes cfg))).
Proof.
  unfold scanned. rewrite bind_eq. cbn beta.
  destruct (orchestrator.NewClient W _ _) as [[c'|e] st1]; [|discriminate].
  pose proof (scanStage_results W c' cfg st1) as Hres.
  destruct (scanStage W c' cfg st1) as [[err|results'] st2']; [discriminate|].
  intros H. inversion H; subst. cbn [fst] in Hres.
  destruct (Hres results eq_refl) as (st0 & st3 & ->).
  rewrite runScannersParallel_alone.
  - now rewrite initializeScanners_eq.
  - intros s Hs. apply (adapter_stateless W).
    now apply (initializeScanners_adapters W (config.ScanTypes cfg) st0).
Qed.

Lemma no_errors_no_failure (rs : list scanners.Result) :
  scanErrorsOf rs = [] -> forall r, In r rs -> failed r = false.
Proof.
  induction rs as [|r0 rs IH]; intros H r Hr; [destruct Hr|].
  unfold scanErrorsOf in H. cbn [flat_map] in H. apply app_eq_nil in H. destruct H as [H0 H].
  destruct Hr as [<-|Hr]; [|now apply IH].
  unfold failed. destruct (scanners.Error r0); [discriminate|reflexivity].
Qed.

(** X15: runScan returns without an error exactly when the scanners ran, no
    scanner returned an error and the upload of the findings, if there was
    one, was accepted. The answers to the status updates and to the findings
    count play no part: a run whose COMPLETED update is refused still
    succeeds. *)
Theorem runScan_succeeds_iff (W : World) (cfg : config.Config) (st : State) :
  fst (runScan W cfg st) = Returns None <->
  exists c rs st2,
    scanned W cfg st = Some (c, map Some rs, st2) /\
    (forall r, In r rs -> failed r = false) /\
    uploadErrors W cfg (succeededFindings rs) (rpcs st2) = [].
Proof.
  split.
  - intros Hout. destruct (scanned W cfg st) as [[[c results] st2]|] eqn:Hsc.
    + destruct (scanned_spec W cfg st c results st2 Hsc) as [_ [rs ->]].
      pose proof (runScan_report W cfg st c rs st2 Hsc) as Hrep. cbv zeta in Hrep.
      destruct (runScan W cfg st) as [out st']. cbn [fst] in Hout. subst out.
      destruct (scanErrorsOf rs ++ uploadErrors W cfg (succeededFindings rs) (rpcs st2))%list
        as [|e es] eqn:Herrs.
      * apply app_eq_nil in Herrs. destruct Herrs as [Hscan Hup].
        exists c, rs, st2. split; [reflexivity|]. split; [|exact Hup].
        now apply no_errors_no_failure.
      * cbn [List.length Nat.ltb Nat.leb] in Hrep. destruct Hrep as [Hrep _]. discriminate.
    + destruct (runScan_not_scanned W cfg st Hsc) as [e He]. congruence.
  - intros (c & rs & st2 & Hsc & Hok & Hup).
    pose proof (runScan_report W cfg st c rs st2 Hsc) as Hrep. cbv zeta in Hrep.
    rewrite (no_failure_no_errors rs Hok), Hup in Hrep. cbn [app List.length Nat.ltb Nat.leb] in Hrep.
    destruct (runScan W cfg st) as [out st']. now destruct Hrep as [-> _].
Qed.

Lemma collect_nil (results : list (option scanners.Result)) (st : State) :
  fst (forRange results None collect st) = None.
Proof.
  revert st. induction results as [|slot rest IH]; intros st; [reflexivity|].
  cbn [forRange]. rewrite bind_eq. cbn [collect ret fst snd]. apply IH.
Qed.

Lemma collect_nil_slot (results : list (option scanners.Result)) :
  In None results ->
  forall acc st, fst (forRange results acc collect st) = None.
Proof.
  induction results as [|slot rest IH]; intros Hin acc st; [destruct Hin|].
  cbn [forRange]. rewrite bind_eq. destruct Hin as [->|Hin].
  - destruct acc as [[fs errs]|]; cbn [collect ret fst snd]; apply collect_nil.
  - now apply IH.
Qed.

(** X16: runScan never reads a slot that no scanner has filled. Reading one
    would end the process: reportResults panics on any list of results with
    a nil slot; runScan, whatever the world and the configuration, does not
    panic, because runScannersParallel has filled every slot before the
    results are read. *)
Theorem runScan_reads_no_nil_slot (W : World) (cfg : config.Config) (st : State) :
  (forall c results st2,
     In None results -> fst (reportResults W c cfg results st2) = Panics) /\
  fst (runScan W cfg st) <> Panics.
Proof.
  split.
  - intros c results st2 Hin. unfold reportResults. rewrite bind_eq.
    now rewrite (collect_nil_slot results Hin).
  - pose proof (runScan_rpcs W cfg st) as H.
    destruct (runScan W cfg st) as [out st']. now destruct H as [H _].
Qed.



Lemma alone_failed (W : World) (sourceDir : string) (s : scanners.Scanner) :
  In s (adapters W) ->
  failed (alone sourceDir s) = true -> scanners.Findings (alone sourceDir s) = [].
Proof.
  intros Hs. destruct (adapter_value W s Hs) as (value & Hrun & Herr & _).
  destruct (Hrun sourceDir initial) as [Hval _]. unfold alone, failed. rewrite Hval.
  destruct (scanners.IsAvailable s); [|reflexivity].
  destruct value as [findings [e|]]; cbn [scanners.Findings scanners.Error fst snd] in *.
  - intros _. apply Herr. discriminate.
  - discriminate.
Qed.

(** X18: no finding is dropped. When the scanners run, the findings runScan
    keeps are all the findings of all the results, since an adapter that
    returns an error returns no finding; and when there is one at least, they
    are sent to the orchestrator in one CreateFindings request, in the order
    of the results. *)
Theorem every_finding_is_uploaded (W : World) (cfg : config.Config) (st : State)
    (c : orchestrator.Client) (rs : list scanners.Result) (st2 : State) :
  scanned W cfg st = Some (c, map Some rs, st2) ->
  succeededFindings rs = flat_map scanners.Findings rs /\
  (flat_map scanners.Findings rs <> [] ->
   In (uploadRequest cfg (flat_map scanners.Findings rs)) (rpcs (snd (runScan W cfg st)))).
Proof.
  intros Hsc.
  assert (Hall : succeededFindings rs = flat_map scanners.Findings rs).
  { pose proof (scanned_results W cfg st c _ st2 Hsc) as Hres.
    assert (Hrs : forall r, In r rs -> failed r = true -> scanners.Findings r = []).
    { intros r Hr. apply (in_map Some) in Hr. rewrite Hres in Hr.
      apply in_map_iff in Hr. destruct Hr as (s & Heq & Hs). inversion Heq; subst r.
      apply (alone_failed W). apply filter_In in Hs. destruct Hs as [Hs _].
      apply in_flat_map in Hs. destruct Hs as (t & _ & Hs).
      eapply requested_adapters; eauto. }
    clear Hres Hsc. induction rs as [|r rs IH]; [reflexivity|].
    unfold succeededFindings in *. cbn [flat_map]. rewrite IH by (intros; apply Hrs; simpl; auto).
    f_equal. destruct (failed r) eqn:Hf; [|reflexivity].
    symmetry. apply Hrs; simpl; auto. }
  split; [exact Hall|]. intros Hne.
  pose proof (runScan_report W cfg st c rs st2 Hsc) as Hrep. cbv zeta in Hrep.
  rewrite Hall in Hrep.
  destruct (flat_map scanners.Findings rs) as [|f fs] eqn:Hfs; [now elim Hne|].
  cbn [List.length Nat.ltb Nat.leb] in Hrep.
  destruct (runScan W cfg st) as [out st']. cbn [snd].
  destruct (List.length (scanErrorsOf rs ++ _)) in Hrep; destruct Hrep as [_ ->];
    apply in_or_app; right; right; left; reflexivity.
Qed.

Lemma every_finding_is_uploaded_witness :
  List.length (flat_map scanners.Findings
                 (Fixtures.resultsOf Fixtures.streamed (Fixtures.cfg ["secrets"] "/workspace")))
  = 2 /\
  succeededFindings (Fixtures.resultsOf Fixtures.streamed (Fixtures.cfg ["secrets"] "/workspace"))
  = flat_map scanners.Findings
      (Fixtures.resultsOf Fixtures.streamed (Fixtures.cfg ["secrets"] "/workspace")) /\
  (flat_map scanners.Findings
     (Fixtures.resultsOf Fixtures.streamed (Fixtures.cfg ["secrets"] "/workspace")) <> [] ->
   In (uploadRequest (Fixtures.cfg ["secrets"] "/workspace")
         (flat_map scanners.Findings
            (Fixtures.resultsOf Fixtures.streamed (Fixtures.cfg ["secrets"] "/workspace"))))
      (rpcs (snd (runScan Fixtures.streamed (Fixtures.cfg ["secrets"] "/workspace") initial)))).
Proof.
  split; [vm_compute; reflexivity|].
  apply (every_finding_is_uploaded Fixtures.streamed (Fixtures.cfg ["secrets"] "/workspace")
           initial
           (Fixtures.clientOf Fixtures.streamed (Fixtures.cfg ["secrets"] "/workspace"))
           (Fixtures.resultsOf Fixtures.streamed (Fixtures.cfg ["secrets"] "/workspace"))
           (Fixtures.stateOf Fixtures.streamed (Fixtures.cfg ["secrets"] "/workspace"))).
  vm_compute. reflexivity.
Defined.

(** *** From the environment to the download *)

Lemma loaded_url (Getenv : string -> string) (uuidParse : string -> result string)
    (Atoi : string -> result Z) (st : State) (L : configenv.Loaded) :
  fst (configenv.LoadFromEnv Getenv uuidParse Atoi st) = Ok L ->
  config.SourceDownloadURL (configenv.runner L) <> "" /\
  config.WorkDir (configenv.runner L) = configenv.getEnv Getenv "WORK_DIR" "/workspace".
Proof.
  intros H. load_cases H. rewrite !bind_eq in H. cbn [ret fst] in H.
  inversion H; subst L; clear H. cbn. split; [assumption|reflexivity].
Qed.

(** X19: a job configured from the environment always takes its source from
    the artifact URL. For a configuration LoadFromEnv returned, the source
    preparation of runScan starts by creating the working directory (WORK_DIR,
    or /workspace) for the download, and when it fails the error is "failed
    to download source: ..."; GIT_URL, though read, never leads to a clone,
    and "No source specified" cannot occur. *)
Theorem loaded_config_downloads_artifact (Getenv : string -> string)
    (uuidParse : string -> result string) (Atoi : string -> result Z) (st0 : State)
    (L : configenv.Loaded) (W : World) (c : orchestrator.Client) (st : State) :
  fst (configenv.LoadFromEnv Getenv uuidParse Atoi st0) = Ok L ->
  let cfg := configenv.runner L in
  let (err, st') := prepareSource W c cfg st in
  (exists ops,
     fsops st' = (fsops st ++
                  MkdirAll (configenv.getEnv Getenv "WORK_DIR" "/workspace") 493 :: ops)%list) /\
  (forall e, err = Some e -> exists cause, e = "failed to download source: " ++ cause).
Proof.
  intros HL. destruct (loaded_url _ _ _ _ _ HL) as [Hurl Hdir]. cbv zeta.
  apply String.eqb_neq in Hurl. unfold prepareSource. rewrite Hurl, Hdir. cbn [negb].
  mstep. mstep.
  set (st1 := snd (info "Downloading source code from artifact" st)).
  pose proof (DownloadAndExtract_fs W (config.SourceDownloadURL (configenv.runner L))
                (configenv.getEnv Getenv "WORK_DIR" "/workspace") st1) as Hfs.
  destruct (downloader.DownloadAndExtract W _ _ st1) as [[e|] st2]; cbn [fst snd].
  - mstep. cbn [ret fst snd]. split; [|intros e' He'; inversion He'; eexists; reflexivity].
    rewrite (addsOnly_none _ st2 (UpdateScanStatus_fs W c _ _ _)).
    destruct (fsAnswer W _ _); [destruct Hfs as [_ ->]; exists []; reflexivity|].
    destruct Hfs as [ops ->]. eexists. reflexivity.
  - cbn [ret fst snd]. split; [|discriminate].
    destruct (fsAnswer W _ _); [destruct Hfs as [Hfs _]; discriminate|].
    destruct Hfs as [ops ->]. eexists. reflexivity.
Qed.

Lemma loaded_config_downloads_artifact_witness :
  exists L,
    fst (configenv.LoadFromEnv Environments.job Environments.uuidParse Environments.Atoi initial)
    = Ok L /\
    config.GitURL (configenv.runner L) = "https://git/repo.git" /\
    let cfg := configenv.runner L in
    let (err, st') := prepareSource Fixtures.noContent
                        (Fixtures.clientOf Fixtures.noContent cfg) cfg initial in
    (exists ops,
       fsops st' = (fsops initial ++
                    MkdirAll (configenv.getEnv Environments.job "WORK_DIR" "/workspace") 493
                    :: ops)%list) /\
    (forall e, err = Some e -> exists cause, e = "failed to download source: " ++ cause).
Proof.
  eexists. split; [vm_compute; reflexivity|]. split; [vm_compute; reflexivity|].
  apply (loaded_config_downloads_artifact Environments.job Environments.uuidParse
           Environments.Atoi initial).
  vm_compute. reflexivity.
Defined.

(** X20: the connection is always closed. Once the orchestrator has been
    reached, every way runScan ends, before or after the scanners, with or
    without an error, runs the deferred Close last: the final log entry is
    "Closing orchestrator connection". *)
Theorem connection_always_closed (W : World) (cfg : config.Config) (st : State) :
  Dial W (config.OrchestratorEndpoint cfg) = None ->
  exists earlier,
    logs (snd (runScan W cfg st))
    = (earlier ++ [{| level := InfoLevel; message := "Closing orchestrator connection";
                      withError := None |}])%list.
Proof.
  intros Hdial.
  destruct (runScan_connected W cfg st Hdial) as (c & st1 & _ & _ & -> & _).
  destruct (scanStage W c cfg st1) as [[err|results] st2]; cbn [snd];
    eexists; reflexivity.
Qed.

Lemma connection_always_closed_witness :
  exists earlier,
    logs (snd (runScan Fixtures.streamed (Fixtures.cfg ["secrets"] "/workspace") initial))
    = (earlier ++ [{| level := InfoLevel; message := "Closing orchestrator connection";
                      withError := None |}])%list.
Proof.
  apply (connection_always_closed Fixtures.streamed (Fixtures.cfg ["secrets"] "/workspace")
           initial).
  reflexivity.
Defined.
